(** * A shallow embedding of the plugin's chat client and conversation store

    The development follows [src/api/ai-client.ts] (the endpoint-configured
    client: [AIClient] with [_isOllama], [_getBaseUrl], [_getChatEndpoint],
    [_getModelsEndpoint], [fetchModels], [chat], [_processStream], [abort],
    [updateSettings]) and [src/features/conversation.ts]
    ([ConversationHistory.getMessages], [getConversationContext]).

    How the program is modelled:
    - JavaScript strings are sequences of UTF-16 code units, here lists of
      code units ([list N]).
    - The values that travel through [JSON.parse] are the inductive type
      [JSValue]; the parser is written out.  What goes through IEEE doubles
      (truthiness and printing of numbers, [Date] arithmetic) is an
      interface, [NumberModel], over which every statement is quantified.
    - Method bodies are written in a state and exception monad over
      [World]: the client object, the allocated [AbortController]s, the log
      of transport invocations and the log of callback invocations.
    - JavaScript runs a method to its next [await] without interruption.
      The environment [Env] fixes what the transport answers and which
      public methods ([updateSettings], [abort]) other tasks call on the
      client at each suspension point of a call.  Two overlapping [chat]
      calls on one client are not modelled.
    - A response body is the list of the texts [decoder.decode(value)]
      gives for its chunks; a chunk boundary is taken not to cut a UTF-8
      sequence.  The token callback is taken not to call back into the
      client; whether it throws makes no difference, since the [catch]
      around it swallows the exception and nothing follows the call in the
      [try] block.

    Beyond the client and the context window, the development covers the
    rest of [ConversationHistory] with its persistence ([initialize],
    [_persist], [addMessage], [clearConversation], [clearAll],
    [hasConversation]), the note format of [ChatNote] in
    [src/ui/chat-note.ts] ([_saveToNote], [_parseExistingContent]),
    [PDFParser.createSummaryPrompt] of [src/parsers/pdf-parser.ts], and the
    stream decoders of the multi-provider client, the first class of
    [src/api/ai-client.ts] ([_processOpenAIStream],
    [_processAnthropicStream]):
    - The entries of a saved [chatHistory] are taken to have the shape
      their type gives, and the save callback to resolve.
    - The editor of a chat note is its text: [getValue] and [setValue].
    - The multi-provider client reaches the local provider, and cancels,
      through [OllamaClient], which is not part of the sources at hand; of
      that client only the decoders, which act on a response and the
      callback, are modelled. *)

From Stdlib Require Import NArith ZArith String Ascii.
From stdpp Require Import gmap list.

Local Open Scope N_scope.
Local Open Scope list_scope.

(** ** JavaScript strings *)

Abbreviation jsstring := (list N).

Definition code (a : ascii) : N := N_of_ascii a.

(** [lit "abc"] is the JavaScript string literal ['abc']. *)
Definition lit (s : string) : jsstring := map code (list_ascii_of_string s).

(** The code unit of the double quote, and [jsn]: a literal in which every
    apostrophe stands for a double quote, used to write JSON texts. *)
Definition dquote : N := 34.
Definition jsn (s : string) : jsstring :=
  map (fun c => if c =? 39 then dquote else c) (lit s).

Definition jsstring_eqb (a b : jsstring) : bool := bool_decide (a = b).

(** [String.prototype.startsWith]. *)
Fixpoint startsWith (s pat : jsstring) : bool :=
  match pat, s with
  | [], _ => true
  | p :: pat', c :: s' => (c =? p) && startsWith s' pat'
  | _ :: _, [] => false
  end.

(** [String.prototype.includes]: some suffix of [s] starts with [pat]. *)
Fixpoint includes (s pat : jsstring) : bool :=
  startsWith s pat ||
  match s with
  | [] => false
  | _ :: s' => includes s' pat
  end.

(** [String.prototype.endsWith] for a one-unit pattern, as in
    [url.endsWith('/')]. *)
Definition endsWith1 (s : jsstring) (c : N) : bool :=
  match last s with
  | Some d => d =? c
  | None => false
  end.

(** [s.slice(0, -1)] and [s.slice(n)]. *)
Definition slice_0_m1 (s : jsstring) : jsstring := removelast s.
Definition slice_from (n : nat) (s : jsstring) : jsstring := drop n s.

(** WhiteSpace and LineTerminator code units, the ones [trim] strips. *)
Definition isTrimSpace (c : N) : bool :=
  (c =? 9) || (c =? 10) || (c =? 11) || (c =? 12) || (c =? 13) || (c =? 32)
  || (c =? 160) || (c =? 5760) || ((8192 <=? c) && (c <=? 8202))
  || (c =? 8232) || (c =? 8233) || (c =? 8239) || (c =? 8287)
  || (c =? 12288) || (c =? 65279).

Fixpoint trimStart (s : jsstring) : jsstring :=
  match s with
  | c :: s' => if isTrimSpace c then trimStart s' else s
  | [] => []
  end.

Definition trimEnd (s : jsstring) : jsstring := rev (trimStart (rev s)).

(** [String.prototype.trim]. *)
Definition trim (s : jsstring) : jsstring := trimEnd (trimStart s).

Definition LF : N := 10.

(** [s.split('\n')]: the pieces between line feeds; never empty. *)
Fixpoint split_lines (s : jsstring) : list jsstring :=
  match s with
  | [] => [[]]
  | c :: s' =>
      if c =? LF then [] :: split_lines s'
      else match split_lines s' with
           | l :: ls => (c :: l) :: ls
           | [] => [[c]]
           end
  end.

(** Decimal rendering of a non-negative integer (an HTTP status). *)
Fixpoint uintDigits (d : Decimal.uint) : jsstring :=
  match d with
  | Decimal.Nil => []
  | Decimal.D0 d' => 48 :: uintDigits d'
  | Decimal.D1 d' => 49 :: uintDigits d'
  | Decimal.D2 d' => 50 :: uintDigits d'
  | Decimal.D3 d' => 51 :: uintDigits d'
  | Decimal.D4 d' => 52 :: uintDigits d'
  | Decimal.D5 d' => 53 :: uintDigits d'
  | Decimal.D6 d' => 54 :: uintDigits d'
  | Decimal.D7 d' => 55 :: uintDigits d'
  | Decimal.D8 d' => 56 :: uintDigits d'
  | Decimal.D9 d' => 57 :: uintDigits d'
  end.

Definition decimal (n : N) : jsstring := uintDigits (N.to_uint n).

(** ** JavaScript values and errors *)

#[warnings="-register-all"]
Inductive JSValue : Type :=
| JSUndefined
| JSNull
| JSBool (b : bool)
| JSNumber (literal : jsstring)
| JSString (s : jsstring)
| JSArray (elems : list JSValue)
| JSObject (props : list (jsstring * JSValue)).

Inductive JSError : Type :=
| TypeError
| SyntaxError
| RangeError
| AbortError
| NetworkError (reason : jsstring)
| Error_ (message : jsstring).

(** Outcome of evaluating an expression or settling a promise. *)
Inductive Completion (A : Type) : Type :=
| Normal (a : A)
| Throw (e : JSError).
Arguments Normal {A} a.
Arguments Throw {A} e.

(** The part of the semantics that goes through IEEE doubles. *)
Class NumberModel : Type := {
  (** [ToBoolean] of the number a JSON numeric literal denotes is [false]. *)
  numberIsZero : jsstring -> bool;
  (** [Number::toString] of the number a JSON numeric literal denotes. *)
  numberToString : jsstring -> jsstring;
  (** [new Date(created * 1000).toISOString()]; [None] when it throws a
      [RangeError] (invalid date). *)
  createdToISOString : JSValue -> option jsstring
}.

(** ** [JSON.parse] *)

Module JSON.

Definition isWS (c : N) : bool :=
  (c =? 9) || (c =? 10) || (c =? 13) || (c =? 32).

Fixpoint skipWS (s : jsstring) : jsstring :=
  match s with
  | c :: s' => if isWS c then skipWS s' else s
  | [] => []
  end.

Definition isDigit (c : N) : bool := (48 <=? c) && (c <=? 57).

Definition hexValue (c : N) : option N :=
  if isDigit c then Some (c - 48)
  else if (97 <=? c) && (c <=? 102) then Some (c - 87)
  else if (65 <=? c) && (c <=? 70) then Some (c - 55)
  else None.

(** The characters of a string literal after the opening quote; returns the
    string value and the input after the closing quote. *)
Fixpoint parseChars (s : jsstring) (acc : jsstring) : option (jsstring * jsstring) :=
  match s with
  | [] => None
  | c :: s' =>
      if c =? dquote then Some (rev acc, s')
      else if c <? 32 then None
      else if c =? 92 then
        match s' with
        | e :: s'' =>
            if e =? dquote then parseChars s'' (dquote :: acc)
            else if e =? 92 then parseChars s'' (92 :: acc)
            else if e =? 47 then parseChars s'' (47 :: acc)
            else if e =? 98 then parseChars s'' (8 :: acc)
            else if e =? 102 then parseChars s'' (12 :: acc)
            else if e =? 110 then parseChars s'' (10 :: acc)
            else if e =? 114 then parseChars s'' (13 :: acc)
            else if e =? 116 then parseChars s'' (9 :: acc)
            else if e =? 117 then
              match s'' with
              | h1 :: h2 :: h3 :: h4 :: s3 =>
                  match hexValue h1, hexValue h2, hexValue h3, hexValue h4 with
                  | Some a, Some b, Some c', Some d =>
                      parseChars s3 (((a * 16 + b) * 16 + c') * 16 + d :: acc)
                  | _, _, _, _ => None
                  end
              | _ => None
              end
            else None
        | [] => None
        end
      else parseChars s' (c :: acc)
  end.

Fixpoint takeDigits (s : jsstring) : jsstring * jsstring :=
  match s with
  | c :: s' =>
      if isDigit c then let '(d, r) := takeDigits s' in (c :: d, r)
      else ([], s)
  | [] => ([], [])
  end.

(** A numeric literal: an optional minus sign, an integer part (a single
    zero, or digits not starting with zero), an optional fraction (a dot and
    at least one digit) and an optional exponent (e or E, an optional sign,
    at least one digit); returns its text and the rest of the input. *)
Definition parseNumber (s : jsstring) : option (jsstring * jsstring) :=
  let '(sign, s1) :=
    match s with
    | c :: r => if c =? 45 then ([c], r) else ([], s)
    | [] => ([], s)
    end in
  let '(int, s2) := takeDigits s1 in
  match int with
  | [] => None
  | d :: ds =>
      if (d =? 48) && negb (bool_decide (ds = [])) then
        (* a leading zero ends the integer part *)
        None
      else
        let frac :=
          match s2 with
          | c :: r =>
              if c =? 46 then
                let '(f, r') := takeDigits r in
                match f with
                | [] => None
                | _ => Some (c :: f, r')
                end
              else Some ([], s2)
          | [] => Some ([], s2)
          end in
        match frac with
        | None => None
        | Some (f, s3) =>
            let expo :=
              match s3 with
              | c :: r =>
                  if (c =? 101) || (c =? 69) then
                    let '(sg, r1) :=
                      match r with
                      | g :: r' =>
                          if (g =? 43) || (g =? 45) then ([g], r') else ([], r)
                      | [] => ([], r)
                      end in
                    let '(e, r2) := takeDigits r1 in
                    match e with
                    | [] => None
                    | _ => Some (c :: sg ++ e, r2)
                    end
                  else Some ([], s3)
              | [] => Some ([], s3)
              end in
            match expo with
            | None => None
            | Some (e, s4) => Some (sign ++ int ++ f ++ e, s4)
            end
        end
  end.

Definition expect (word : jsstring) (v : JSValue) (s : jsstring)
  : option (JSValue * jsstring) :=
  if startsWith s word then Some (v, drop (length word) s) else None.

(** Recursive descent.  [fuel] decreases at every call; a value needs no
    more than twice the length of the remaining input plus one, a list of
    elements or members one more than that, and each call hands a shorter
    input on (after the opening bracket, or after an element and its comma)
    or the same input to [parseValue] with one unit less.  [parse] starts
    with [2 * length text + 2]. *)
Fixpoint parseValue (fuel : nat) (s : jsstring) : option (JSValue * jsstring) :=
  match fuel with
  | O => None
  | S fuel' =>
      match skipWS s with
      | [] => None
      | c :: r =>
          if c =? 123 then
            match skipWS r with
            | d :: r' =>
                if d =? 125 then Some (JSObject [], r')
                else parseMembers fuel' r []
            | [] => None
            end
          else if c =? 91 then
            match skipWS r with
            | d :: r' =>
                if d =? 93 then Some (JSArray [], r')
                else parseElements fuel' r []
            | [] => None
            end
          else if c =? dquote then
            match parseChars r [] with
            | Some (str, r') => Some (JSString str, r')
            | None => None
            end
          else if c =? 116 then expect (lit "true") (JSBool true) (c :: r)
          else if c =? 102 then expect (lit "false") (JSBool false) (c :: r)
          else if c =? 110 then expect (lit "null") JSNull (c :: r)
          else
            match parseNumber (c :: r) with
            | Some (n, r') => Some (JSNumber n, r')
            | None => None
            end
      end
  end
with parseElements (fuel : nat) (s : jsstring) (acc : list JSValue)
  : option (JSValue * jsstring) :=
  match fuel with
  | O => None
  | S fuel' =>
      match parseValue fuel' s with
      | Some (v, r) =>
          match skipWS r with
          | c :: r' =>
              if c =? 44 then parseElements fuel' r' (v :: acc)
              else if c =? 93 then Some (JSArray (rev (v :: acc)), r')
              else None
          | [] => None
          end
      | None => None
      end
  end
with parseMembers (fuel : nat) (s : jsstring) (acc : list (jsstring * JSValue))
  : option (JSValue * jsstring) :=
  match fuel with
  | O => None
  | S fuel' =>
      match skipWS s with
      | q :: r0 =>
          if q =? dquote then
            match parseChars r0 [] with
            | Some (key, r1) =>
                match skipWS r1 with
                | c :: r2 =>
                    if c =? 58 then
                      match parseValue fuel' r2 with
                      | Some (v, r3) =>
                          match skipWS r3 with
                          | e :: r4 =>
                              if e =? 44 then parseMembers fuel' r4 ((key, v) :: acc)
                              else if e =? 125 then
                                Some (JSObject (rev ((key, v) :: acc)), r4)
                              else None
                          | [] => None
                          end
                      | None => None
                      end
                    else None
                | [] => None
                end
            | None => None
            end
          else None
      | [] => None
      end
  end.

(** [JSON.parse(text)]: one value, surrounded by optional white space;
    anything else is a [SyntaxError]. *)
Definition parse (text : jsstring) : Completion JSValue :=
  match parseValue (2 * length text + 2) text with
  | Some (v, r) =>
      match skipWS r with
      | [] => Normal v
      | _ :: _ => Throw SyntaxError
      end
  | None => Throw SyntaxError
  end.

End JSON.

(** ** Operations on values *)

(** Own property lookup; when a key was defined twice, the later definition
    is the one [JSON.parse] keeps. *)
Fixpoint lookupOwn (props : list (jsstring * JSValue)) (key : jsstring)
  : option JSValue :=
  match props with
  | [] => None
  | (k, v) :: rest =>
      match lookupOwn rest key with
      | Some w => Some w
      | None => if jsstring_eqb k key then Some v else None
      end
  end.

(** [v.name], for the names the client reads ([message], [content],
    [choices], [delta], [models], [data], [id], [created], [error]): none of
    them is a property of a built-in prototype, so only an object's own
    properties answer; reading a property of [undefined] or [null] throws. *)
Definition getField (v : JSValue) (name : string) : Completion JSValue :=
  match v with
  | JSUndefined | JSNull => Throw TypeError
  | JSObject props => Normal (default JSUndefined (lookupOwn props (lit name)))
  | _ => Normal JSUndefined
  end.

(** [v[0]]: first element of an array, first code unit of a string, the
    property ["0"] of an object. *)
Definition getIndex0 (v : JSValue) : Completion JSValue :=
  match v with
  | JSUndefined | JSNull => Throw TypeError
  | JSArray elems => Normal (default JSUndefined (head elems))
  | JSString (c :: _) => Normal (JSString [c])
  | JSObject props => Normal (default JSUndefined (lookupOwn props (lit "0")))
  | _ => Normal JSUndefined
  end.

Definition isNullish (v : JSValue) : bool :=
  match v with
  | JSUndefined | JSNull => true
  | _ => false
  end.

(** [v?.name] and [v?.[0]]. *)
Definition optField (v : JSValue) (name : string) : Completion JSValue :=
  if isNullish v then Normal JSUndefined else getField v name.
Definition optIndex0 (v : JSValue) : Completion JSValue :=
  if isNullish v then Normal JSUndefined else getIndex0 v.

Definition hasOwn (props : list (jsstring * JSValue)) (name : string) : bool :=
  bool_decide (is_Some (lookupOwn props (lit name))).

Definition joinWith (sep : jsstring) (parts : list jsstring) : jsstring :=
  match parts with
  | [] => []
  | p :: ps => p ++ concat (map (fun q => sep ++ q) ps)
  end.

Fixpoint allSome {A : Type} (l : list (option A)) : option (list A) :=
  match l with
  | [] => Some []
  | Some a :: l' => match allSome l' with Some r => Some (a :: r) | None => None end
  | None :: _ => None
  end.

Section Values.
Context {nm : NumberModel}.

(** [ToBoolean]. *)
Definition toBoolean (v : JSValue) : bool :=
  match v with
  | JSUndefined | JSNull => false
  | JSBool b => b
  | JSNumber n => negb (numberIsZero n)
  | JSString s => negb (bool_decide (s = []))
  | JSArray _ | JSObject _ => true
  end.

(** [a || b]. *)
Definition orElse (a b : JSValue) : JSValue := if toBoolean a then a else b.

(** [ToString], as string concatenation applies it; [None] is the
    [TypeError] of an object whose own [toString] property (necessarily not
    callable, coming from JSON) hides [Object.prototype.toString].  An array
    prints its elements joined by commas, [null] and [undefined] elements as
    empty strings. *)
Fixpoint toStringJS (v : JSValue) : option jsstring :=
  match v with
  | JSUndefined => Some (lit "undefined")
  | JSNull => Some (lit "null")
  | JSBool true => Some (lit "true")
  | JSBool false => Some (lit "false")
  | JSNumber n => Some (numberToString n)
  | JSString s => Some s
  | JSArray elems =>
      option_map (joinWith (lit ","))
        (allSome (map (fun e => if isNullish e then Some [] else toStringJS e) elems))
  | JSObject props =>
      if hasOwn props "toString" then None else Some (lit "[object Object]")
  end.

End Values.

(** ** Data model of the client ([src/types/index.ts]) *)

Inductive Role : Type := user | assistant | system.

Definition roleName (r : Role) : jsstring :=
  match r with
  | user => lit "user"
  | assistant => lit "assistant"
  | system => lit "system"
  end.

Record Message : Type := { role : Role; content : jsstring }.

(** The object [{ role, content }] a message is at run time. *)
Definition messageObject (roleV contentV : JSValue) : JSValue :=
  JSObject [(lit "role", roleV); (lit "content", contentV)].
Definition messageValue (m : Message) : JSValue :=
  messageObject (JSString (roleName (role m))) (JSString (content m)).

(** The fields of [OllamaSettings] the client reads. *)
Record OllamaSettings : Type := {
  apiEndpoint : jsstring;
  apiKey : jsstring;
  model : jsstring
}.

(** [ChatOptions]; an absent [temperature] or [maxTokens] is [JSUndefined]. *)
Record ChatOptions : Type := {
  opt_model : jsstring;
  opt_messages : list Message;
  opt_stream : bool;
  opt_temperature : JSValue;
  opt_maxTokens : JSValue
}.

(** ** The transport ([fetch]) *)

Inductive Method : Type := GET | POST.

(** The arguments of a [fetch] call; [req_body] is the value handed to
    [JSON.stringify], [req_signal] the controller whose signal is passed. *)
Record FetchRequest : Type := {
  req_url : jsstring;
  req_method : Method;
  req_headers : list (jsstring * jsstring);
  req_body : option JSValue;
  req_signal : option nat
}.

(** A response body: the decoded text of each chunk the reader yields, in
    order, then either the end of the stream ([None]) or a failing read. *)
Record BodyStream : Type := {
  chunks : list jsstring;
  ending : option JSError
}.

Record Response : Type := {
  ok : bool;
  status : N;
  body : option BodyStream;
  (** the signal the exchange was started with *)
  signal : option nat
}.

Inductive FetchOutcome : Type :=
| Rejects (e : JSError)
| Resolves (okFlag : bool) (statusCode : N) (bodyStream : option BodyStream).

(** ** State: the client object and what it acts on *)

Record AIClient : Type := {
  _settings : OllamaSettings;
  _abortController : option nat
}.

Record World : Type := {
  client : AIClient;
  (** number of [AbortController] objects allocated so far; the next one
      gets this number *)
  nextController : nat;
  (** controllers whose [abort()] was called *)
  abortedSignals : gset nat;
  (** the transport invocations so far, oldest first *)
  requests : list FetchRequest;
  (** the arguments of the token-callback invocations so far, oldest first *)
  tokens : list JSValue
}.

(** A public method another task invokes on the client while a call of this
    client is suspended at an [await]. *)
Inductive Call : Type :=
| CallUpdateSettings (s : OllamaSettings)
| CallAbort.

(** What surrounds a call: the network's answer to a request, and the calls
    other tasks make at each suspension point. *)
Record Env : Type := {
  transport : FetchRequest -> FetchOutcome;
  duringFetch : list Call;
  duringJson : list Call;
  duringRead : nat -> list Call
}.

(** ** A state and exception monad for method bodies *)

Definition Action (A : Type) : Type := World -> Completion A * World.

Definition ret {A : Type} (a : A) : Action A := fun w => (Normal a, w).
Definition throw {A : Type} (e : JSError) : Action A := fun w => (Throw e, w).
Definition bind {A B : Type} (m : Action A) (k : A -> Action B) : Action B :=
  fun w =>
    match m w with
    | (Normal a, w') => k a w'
    | (Throw e, w') => (Throw e, w')
    end.
(** [try { m } catch { h }]: the state changes made before the throw stay. *)
Definition tryCatch {A : Type} (m : Action A) (h : JSError -> Action A) : Action A :=
  fun w =>
    match m w with
    | (Normal a, w') => (Normal a, w')
    | (Throw e, w') => h e w'
    end.
Definition lift {A : Type} (c : Completion A) : Action A := fun w => (c, w).
Definition liftOpt {A : Type} (o : option A) (e : JSError) : Action A :=
  match o with
  | Some a => ret a
  | None => throw e
  end.

Notation "'let*' x ':=' m 'in' k" := (bind m (fun x => k))
  (at level 10, x pattern, m at level 100, k at level 200).
Notation "m ';;' k" := (bind m (fun _ => k))
  (at level 100, k at level 200, right associativity).

(** Pure evaluation with exceptions. *)
Definition cbind {A B : Type} (c : Completion A) (k : A -> Completion B)
  : Completion B :=
  match c with
  | Normal a => k a
  | Throw e => Throw e
  end.
Notation "'let!' x ':=' c 'in' k" := (cbind c (fun x => k))
  (at level 10, x pattern, c at level 100, k at level 200).

(** ** World accessors *)

Definition setClient (c : AIClient) (w : World) : World :=
  {| client := c; nextController := nextController w;
     abortedSignals := abortedSignals w; requests := requests w;
     tokens := tokens w |}.

Definition getSettings : Action OllamaSettings :=
  fun w => (Normal (_settings (client w)), w).

(** [this._abortController = new AbortController()]. *)
Definition newAbortController : Action nat :=
  fun w =>
    let h := nextController w in
    (Normal h,
     {| client := {| _settings := _settings (client w);
                     _abortController := Some h |};
        nextController := S h;
        abortedSignals := abortedSignals w;
        requests := requests w;
        tokens := tokens w |}).

Definition logRequest (r : FetchRequest) : Action unit :=
  fun w =>
    (Normal tt,
     {| client := client w; nextController := nextController w;
        abortedSignals := abortedSignals w;
        requests := requests w ++ [r]; tokens := tokens w |}).

(** [onChunk?.(chunk)]: nothing when the caller passed no callback. *)
Definition callOnChunk (onChunk : bool) (chunk : JSValue) : Action unit :=
  fun w =>
    (Normal tt,
     if onChunk then
       {| client := client w; nextController := nextController w;
          abortedSignals := abortedSignals w; requests := requests w;
          tokens := tokens w ++ [chunk] |}
     else w).

(** ** [AIClient]: the synchronous methods *)

(** [updateSettings(settings)]. *)
Definition updateSettings (settings : OllamaSettings) : Action unit :=
  fun w =>
    (Normal tt,
     setClient {| _settings := settings;
                  _abortController := _abortController (client w) |} w).

(** [abort()]: [this._abortController?.abort()]. *)
Definition abort : Action unit :=
  fun w =>
    match _abortController (client w) with
    | Some h =>
        (Normal tt,
         {| client := client w; nextController := nextController w;
            abortedSignals := {[ h ]} ∪ abortedSignals w;
            requests := requests w; tokens := tokens w |})
    | None => (Normal tt, w)
    end.

(** [_isOllama()]. *)
Definition _isOllama (s : OllamaSettings) : bool :=
  includes (apiEndpoint s) (lit "localhost")
  || includes (apiEndpoint s) (lit "127.0.0.1")
  || includes (apiEndpoint s) (lit "11434").

Definition slash : N := 47.

(** [_getBaseUrl()]. *)
Definition _getBaseUrl (s : OllamaSettings) : jsstring :=
  let url := trim (apiEndpoint s) in
  if endsWith1 url slash then slice_0_m1 url else url.

(** [_getChatEndpoint()]. *)
Definition _getChatEndpoint (s : OllamaSettings) : jsstring :=
  let base := _getBaseUrl s in
  if _isOllama s then base ++ lit "/api/chat"
  else if includes base (lit "/v1") then base ++ lit "/chat/completions"
  else base ++ lit "/v1/chat/completions".

(** [_getModelsEndpoint()]. *)
Definition _getModelsEndpoint (s : OllamaSettings) : jsstring :=
  let base := _getBaseUrl s in
  if _isOllama s then base ++ lit "/api/tags"
  else if includes base (lit "/v1") then base ++ lit "/models"
  else base ++ lit "/v1/models".

(** [getCurrentModel()]. *)
Definition getCurrentModel : Action jsstring :=
  let* s := getSettings in ret (model s).

(** The headers both [fetchModels] and [chat] build. *)
Definition buildHeaders (s : OllamaSettings) : list (jsstring * jsstring) :=
  (lit "Content-Type", lit "application/json")
  :: (if negb (bool_decide (apiKey s = []))
      then [(lit "Authorization", lit "Bearer " ++ apiKey s)]
      else []).

(** The request body [chat] builds, before [JSON.stringify]. *)
Definition buildBody (isOllama : bool) (options : ChatOptions) : JSValue :=
  let common :=
    [(lit "model", JSString (opt_model options));
     (lit "messages", JSArray (map messageValue (opt_messages options)));
     (lit "stream", JSBool (opt_stream options))] in
  if isOllama then
    JSObject (common ++
      [(lit "options",
        JSObject [(lit "temperature", opt_temperature options);
                  (lit "num_predict", opt_maxTokens options)])])
  else
    JSObject (common ++
      [(lit "temperature", opt_temperature options);
       (lit "max_tokens", opt_maxTokens options)]).

(** ** Suspension points *)

Definition runCall (c : Call) (w : World) : World :=
  match c with
  | CallUpdateSettings s => snd (updateSettings s w)
  | CallAbort => snd (abort w)
  end.

(** The calls other tasks make while this one is suspended. *)
Definition interleave (calls : list Call) : Action unit :=
  fun w => (Normal tt, foldl (fun w' c => runCall c w') w calls).

(** Whether [abort()] was called on the controller of signal [sig]. *)
Definition signalAborted (sig : option nat) (w : World) : bool :=
  match sig with
  | Some h => bool_decide (h ∈ abortedSignals w)
  | None => false
  end.

(** A pending network operation started with signal [sig] rejects with an
    [AbortError] once the signal's controller was aborted. *)
Definition checkSignal (sig : option nat) : Action unit :=
  fun w => if signalAborted sig w then (Throw AbortError, w) else (Normal tt, w).

(** [await fetch(url, init)]. *)
Definition fetch (env : Env) (req : FetchRequest) : Action Response :=
  logRequest req ;;
  interleave (duringFetch env) ;;
  checkSignal (req_signal req) ;;
  match transport env req with
  | Rejects e => throw e
  | Resolves o st b =>
      ret {| ok := o; status := st; body := b; signal := req_signal req |}
  end.

(** What [response.json()] settles to once the body was read: the parsed
    text, or the failure of the read. *)
Definition bodyJson (response : Response) : Completion JSValue :=
  match body response with
  | None => JSON.parse []
  | Some b =>
      match ending b with
      | Some e => Throw e
      | None => JSON.parse (concat (chunks b))
      end
  end.

(** [await response.json()]. *)
Definition responseJson (env : Env) (response : Response) : Action JSValue :=
  interleave (duringJson env) ;;
  checkSignal (signal response) ;;
  lift (bodyJson response).

(** [await reader.read()], the [i]-th read of a body. *)
Definition awaitRead (env : Env) (sig : option nat) (i : nat) : Action unit :=
  interleave (duringRead env i) ;;
  checkSignal sig.

Section Client.
Context {nm : NumberModel}.

(** ** [_processStream] *)

(** [line => line.trim()] as a filter predicate: the trimmed line is a
    non-empty string. *)
Definition nonBlank (line : jsstring) : bool :=
  negb (bool_decide (trim line = [])).

(** The delta of a parsed event: [json.message?.content || ''] under the
    local dialect, [json.choices?.[0]?.delta?.content || ''] otherwise. *)
Definition eventChunk (isOllama : bool) (json : JSValue) : Completion JSValue :=
  if isOllama then
    let! m := getField json "message" in
    let! c := optField m "content" in
    Normal (orElse c (JSString []))
  else
    let! cs := getField json "choices" in
    let! c0 := optIndex0 cs in
    let! d := optField c0 "delta" in
    let! c := optField d "content" in
    Normal (orElse c (JSString [])).

(** The [data] variable of a line: the line without its [data: ] marker;
    [None] when the marked payload is the sentinel [[DONE]] and the loop
    continues with the next line. *)
Definition lineData (line : jsstring) : option jsstring :=
  if startsWith line (lit "data: ") then
    let data := slice_from 6 line in
    if jsstring_eqb data (lit "[DONE]") then None else Some data
  else Some line.

(** The body of the [try] block for one line; the result is the new value
    of the [content] variable. *)
Definition lineBody (isOllama onChunk : bool) (line content : jsstring)
  : Action jsstring :=
  match lineData line with
  | None => ret content
  | Some data =>
      let* json := lift (JSON.parse data) in
      let* chunk := lift (eventChunk isOllama json) in
      if toBoolean chunk then
        let* text := liftOpt (toStringJS chunk) TypeError in
        callOnChunk onChunk chunk ;;
        ret (content ++ text)
      else ret content
  end.

(** [for (const line of lines) { try { ... } catch { continue; } }]. *)
Fixpoint forLines (isOllama onChunk : bool) (lines : list jsstring)
  (content : jsstring) : Action jsstring :=
  match lines with
  | [] => ret content
  | line :: rest =>
      let* content' :=
        tryCatch (lineBody isOllama onChunk line content)
                 (fun _ => ret content) in
      forLines isOllama onChunk rest content'
  end.

(** The [while (true)] loop over [reader.read()]. *)
Fixpoint readLoop (env : Env) (isOllama onChunk : bool) (sig : option nat)
  (i : nat) (pending : list jsstring) (ending : option JSError)
  (content : jsstring) : Action JSValue :=
  match pending with
  | [] =>
      awaitRead env sig i ;;
      match ending with
      | None =>
          ret (messageObject (JSString (lit "assistant")) (JSString content))
      | Some e => throw e
      end
  | value :: rest =>
      awaitRead env sig i ;;
      let text := value in
      let lines := List.filter nonBlank (split_lines text) in
      let* content' := forLines isOllama onChunk lines content in
      readLoop env isOllama onChunk sig (S i) rest ending content'
  end.

Definition _processStream (env : Env) (response : Response) (onChunk : bool)
  : Action JSValue :=
  match body response with
  | None => throw (Error_ (lit "No response body"))
  | Some b =>
      let* s := getSettings in
      let isOllama := _isOllama s in
      readLoop env isOllama onChunk (signal response) 0
               (chunks b) (ending b) []
  end.

(** ** [chat] *)

(** [new Error(message)]. *)
Definition throwError {A : Type} (message : JSValue) : Action A :=
  match toStringJS message with
  | Some m => throw (Error_ m)
  | None => throw TypeError
  end.

(** The branch of [chat] for a response whose [ok] flag is false. *)
Definition failWithApiError (env : Env) (response : Response) : Action JSValue :=
  let* error :=
    tryCatch (responseJson env response) (fun _ => ret (JSObject [])) in
  let* e1 := lift (getField error "error") in
  let* m1 := lift (optField e1 "message") in
  let* m2 :=
    if toBoolean m1 then ret m1 else lift (getField error "message") in
  throwError
    (orElse m2 (JSString (lit "API error: " ++ decimal (status response)))).

(** What a parsed non-streaming payload decodes to under each dialect. *)
Definition decodePayload (isOllama : bool) (data : JSValue) : Completion JSValue :=
  if isOllama then getField data "message"
  else
    let! cs := getField data "choices" in
    let! c0 := getIndex0 cs in
    let! m := getField c0 "message" in
    let! c := getField m "content" in
    Normal (messageObject (JSString (lit "assistant")) c).

(** The branch of [chat] for [options.stream] false. *)
Definition decodeWhole (env : Env) (response : Response) : Action JSValue :=
  let* data := responseJson env response in
  let* s' := getSettings in
  lift (decodePayload (_isOllama s') data).

Definition chat (env : Env) (options : ChatOptions) (onChunk : bool)
  : Action JSValue :=
  let* h := newAbortController in
  let* s := getSettings in
  let headers := buildHeaders s in
  let body := buildBody (_isOllama s) options in
  let* response :=
    fetch env {| req_url := _getChatEndpoint s; req_method := POST;
                 req_headers := headers; req_body := Some body;
                 req_signal := Some h |} in
  if negb (ok response) then failWithApiError env response
  else if negb (opt_stream options) then decodeWhole env response
  else _processStream env response onChunk.

(** ** [fetchModels] *)

(** The callback of [data.data.map]. *)
Definition modelInfo (m : JSValue) : Completion JSValue :=
  let! name := getField m "id" in
  let! created := getField m "created" in
  let! modified :=
    if toBoolean created then
      match createdToISOString created with
      | Some t => Normal (JSString t)
      | None => Throw RangeError
      end
    else Normal (JSString []) in
  Normal (JSObject [(lit "name", name); (lit "modified_at", modified);
                    (lit "size", JSNumber (lit "0"))]).

Fixpoint mapCompletion {A B : Type} (f : A -> Completion B) (l : list A)
  : Completion (list B) :=
  match l with
  | [] => Normal []
  | a :: l' =>
      let! b := f a in
      let! bs := mapCompletion f l' in
      Normal (b :: bs)
  end.

(** [v.map(f)]: only an array has a callable [map]. *)
Definition arrayMap (v : JSValue) (f : JSValue -> Completion JSValue)
  : Completion JSValue :=
  match v with
  | JSArray elems => let! r := mapCompletion f elems in Normal (JSArray r)
  | _ => Throw TypeError
  end.

(** The [try] block of [fetchModels]. *)
Definition fetchModelsBody (env : Env) : Action JSValue :=
  let* s := getSettings in
  let headers := buildHeaders s in
  let* response :=
    fetch env {| req_url := _getModelsEndpoint s; req_method := GET;
                 req_headers := headers; req_body := None;
                 req_signal := None |} in
  if negb (ok response) then ret (JSArray [])
  else
    let* data := responseJson env response in
    let* s' := getSettings in
    if _isOllama s' then
      let* models := lift (getField data "models") in
      ret (orElse models (JSArray []))
    else
      let* d := lift (getField data "data") in
      if toBoolean d then lift (arrayMap d modelInfo)
      else ret (JSArray []).

Definition fetchModels (env : Env) : Action JSValue :=
  tryCatch (fetchModelsBody env) (fun _ => ret (JSArray [])).

(** ** What a line, a chunk and a body contribute

    Read off [lineBody]: the value handed to the callback and the text
    appended to [content] for one line, when the [try] block reaches them. *)
Definition lineDelta (isOllama : bool) (line : jsstring)
  : option (JSValue * jsstring) :=
  match lineData line with
  | None => None
  | Some data =>
      match JSON.parse data with
      | Throw _ => None
      | Normal json =>
          match eventChunk isOllama json with
          | Throw _ => None
          | Normal chunk =>
              if toBoolean chunk then
                match toStringJS chunk with
                | Some text => Some (chunk, text)
                | None => None
                end
              else None
          end
      end
  end.

Definition linesDeltas (isOllama : bool) (lines : list jsstring)
  : list (JSValue * jsstring) :=
  omap (lineDelta isOllama) lines.

Definition chunkDeltas (isOllama : bool) (value : jsstring)
  : list (JSValue * jsstring) :=
  linesDeltas isOllama (List.filter nonBlank (split_lines value)).

Definition streamDeltas (isOllama : bool) (values : list jsstring)
  : list (JSValue * jsstring) :=
  concat (map (chunkDeltas isOllama) values).

End Client.

(** The message a stream resolves to. *)
Definition assistantMessage (content : jsstring) : JSValue :=
  messageObject (JSString (lit "assistant")) (JSString content).

(** The settings in force after other tasks made [calls]. *)
Definition settingsAfter (calls : list Call) (s : OllamaSettings) : OllamaSettings :=
  foldl (fun s' c => match c with
                     | CallUpdateSettings s'' => s''
                     | CallAbort => s'
                     end) s calls.

(** The request [chat] hands to the transport, for the settings [s] and the
    controller [h]. *)
Definition chatRequest (s : OllamaSettings) (options : ChatOptions) (h : nat)
  : FetchRequest :=
  {| req_url := _getChatEndpoint s; req_method := POST;
     req_headers := buildHeaders s;
     req_body := Some (buildBody (_isOllama s) options);
     req_signal := Some h |}.

(** A chunk made of whole lines, each ended by a line feed. *)
Definition chunkOfLines (lines : list jsstring) : jsstring :=
  concat (map (fun l => l ++ [LF]) lines).

Definition noLF (line : jsstring) : Prop := LF ∉ line.

Definition withEndpoint (s : OllamaSettings) (url : jsstring) : OllamaSettings :=
  {| apiEndpoint := url; apiKey := apiKey s; model := model s |}.

(** ** [ConversationHistory] ([src/features/conversation.ts]) *)

Record ConversationEntry : Type := {
  noteId : jsstring;
  messages : list Message;
  createdAt : N;
  updatedAt : N
}.

(** The [_conversations] map of a history object. *)
Record ConversationHistory : Type := {
  _conversations : gmap jsstring ConversationEntry
}.

(** [array.slice(start)] for an integer [start]: a negative [start] counts
    from the end, and both ends are clamped. *)
Definition Array_slice {A : Type} (start : Z) (l : list A) : list A :=
  let len := Z.of_nat (length l) in
  let k := if (start <? 0)%Z then Z.max (len + start) 0 else Z.min start len in
  drop (Z.to_nat k) l.

(** [getMessages(noteId)]: [entry?.messages || []]. *)
Definition getMessages (h : ConversationHistory) (id : jsstring) : list Message :=
  match _conversations h !! id with
  | Some entry => messages entry
  | None => []
  end.

(** [addMessage(noteId, message)].  [created] and [now] are the first and
    the last value [Date.now()] gives during the call: for a note without
    conversation the clock is read for [createdAt], again for [updatedAt],
    and a last time for the [updatedAt] that stays; for a note with a
    conversation it is read once, and [created] is not used. *)
Definition addMessage (h : ConversationHistory) (id : jsstring) (m : Message)
  (created now : N) : ConversationHistory :=
  let entry :=
    match _conversations h !! id with
    | Some e => e
    | None =>
        {| noteId := id; messages := []; createdAt := created; updatedAt := now |}
    end in
  {| _conversations :=
       <[ id := {| noteId := noteId entry; messages := messages entry ++ [m];
                   createdAt := createdAt entry; updatedAt := now |} ]>
         (_conversations h) |}.

(** [clearConversation(noteId)]. *)
Definition clearConversation (h : ConversationHistory) (id : jsstring)
  : ConversationHistory :=
  {| _conversations := delete id (_conversations h) |}.

(** [getConversationContext(noteId, maxMessages)] for an integer
    [maxMessages]. *)
Definition getConversationContext (h : ConversationHistory) (id : jsstring)
  (maxMessages : Z) : list Message :=
  let messages := getMessages h id in
  if (Z.of_nat (length messages) <=? maxMessages)%Z then messages
  else Array_slice (- maxMessages)%Z messages.

(** The default value of the parameter [maxMessages]. *)
Definition defaultMaxMessages : Z := 20.

(** The last [k] elements of a list, in their order. *)
Definition lastN {A : Type} (k : nat) (l : list A) : list A :=
  drop (length l - k) l.

(** ** Notions used in the statements *)

(** The world after the callback was invoked with each of [ds] in turn. *)
Definition addTokens (onChunk : bool) (ds : list JSValue) (w : World) : World :=
  if onChunk then
    {| client := client w; nextController := nextController w;
       abortedSignals := abortedSignals w; requests := requests w;
       tokens := tokens w ++ ds |}
  else w.

(** Only the controller the client holds can be aborted by a step. *)
Definition abortsOwn (w w' : World) : Prop :=
  forall h, h ∈ abortedSignals w' ->
            h ∈ abortedSignals w \/ _abortController (client w) = Some h.

(** What a step leaves alone when it neither allocates a controller, nor
    calls the transport, nor invokes the callback. *)
Definition quietStep (w w' : World) : Prop :=
  tokens w' = tokens w /\ requests w' = requests w
  /\ nextController w' = nextController w
  /\ _abortController (client w') = _abortController (client w)
  /\ abortsOwn w w'.

(** The same, for a step that may invoke the callback. *)
Definition streamStep (w w' : World) : Prop :=
  requests w' = requests w
  /\ nextController w' = nextController w
  /\ _abortController (client w') = _abortController (client w)
  /\ abortsOwn w w'.

(** How the read loop ends once every chunk was processed. *)
Definition finishStream (ending : option JSError) (content : jsstring)
  : Action JSValue :=
  match ending with
  | None => ret (assistantMessage content)
  | Some e => throw e
  end.

(** No other task calls into the client while a body is being read. *)
Definition quietReads (env : Env) : Prop := forall i, duringRead env i = [].

(** A response with the given body. *)
Definition streamResponse (okFlag : bool) (st : N) (values : list jsstring)
  (fin : option JSError) (sig : option nat) : Response :=
  {| ok := okFlag; status := st;
     body := Some {| chunks := values; ending := fin |}; signal := sig |}.

#[global] Instance noLF_dec (line : jsstring) : Decision (noLF line).
Proof. unfold noLF. apply _. Defined.

Section Lines.
Context {nm : NumberModel}.

(** A line the decoder reads as bearing the delta [d], whose text is [t]:
    what it takes for the payload parses, what it takes for the delta of the
    event is truthy, and the delta has a string form. *)
Definition deltaLine (isOllama : bool) (line : jsstring) (d : JSValue)
  (t : jsstring) : Prop :=
  exists data json,
    lineData line = Some data /\ JSON.parse data = Normal json
    /\ eventChunk isOllama json = Normal d
    /\ toBoolean d = true /\ toStringJS d = Some t.

End Lines.

(** ** The wire format, written out

    What a provider sends on a line, stated on the text of the line and on
    the value its payload parses to, independently of how the decoder
    reads it. *)

(** The payload a line carries: what follows the marker [data: ], or the
    whole line when it does not start with the marker. *)
Definition carries (line payload : jsstring) : Prop :=
  line = lit "data: " ++ payload
  \/ (line = payload /\ startsWith line (lit "data: ") = false).

(** An event that holds the delta [d]: under the local dialect an object
    whose [message] is an object with [d] as [content]; under the
    OpenAI-compatible dialect an object whose [choices] is an array that
    starts with an object whose [delta] is an object with [d] as
    [content]. *)
Definition eventHolds (isOllama : bool) (json d : JSValue) : Prop :=
  if isOllama then
    exists props mprops,
      json = JSObject props
      /\ lookupOwn props (lit "message") = Some (JSObject mprops)
      /\ lookupOwn mprops (lit "content") = Some d
  else
    exists props cprops rest dprops,
      json = JSObject props
      /\ lookupOwn props (lit "choices") = Some (JSArray (JSObject cprops :: rest))
      /\ lookupOwn cprops (lit "delta") = Some (JSObject dprops)
      /\ lookupOwn dprops (lit "content") = Some d.

(** A valid delta-bearing line: its payload is the JSON text of an event
    that holds a truthy delta [d], whose string form is [t]. *)
Definition deltaBearingLine {nm : NumberModel} (isOllama : bool)
  (line : jsstring) (d : JSValue) (t : jsstring) : Prop :=
  exists payload json,
    carries line payload /\ JSON.parse payload = Normal json
    /\ eventHolds isOllama json d
    /\ toBoolean d = true /\ toStringJS d = Some t.

(** A line whose payload is not syntactically valid JSON. *)
Definition invalidJsonLine (line : jsstring) : Prop :=
  exists payload, carries line payload /\ JSON.parse payload = Throw SyntaxError.

(** ** Sample data *)

(** Numbers as their literal reads: exact for the truthiness of a literal
    that does not underflow and for the text of a canonical integer literal;
    the examples below contain no other numbers and no dates. *)
Fixpoint literalIsZero (n : jsstring) : bool :=
  match n with
  | [] => true
  | c :: r =>
      if (c =? 101) || (c =? 69) then true
      else (negb (JSON.isDigit c) || (c =? 48)) && literalIsZero r
  end.

Definition literalNumbers : NumberModel := {|
  numberIsZero := literalIsZero;
  numberToString n := n;
  createdToISOString _ := None
|}.

Definition sampleWorld (s : OllamaSettings) : World :=
  {| client := {| _settings := s; _abortController := None |};
     nextController := 0; abortedSignals := ∅; requests := []; tokens := [] |}.

(** An environment in which no other task calls into the client. *)
Definition quietEnv (t : FetchRequest -> FetchOutcome) : Env :=
  {| transport := t; duringFetch := []; duringJson := [];
     duringRead := fun _ => [] |}.

(** A transport that answers every request with the given body. *)
Definition serves (okFlag : bool) (st : N) (values : list jsstring)
  : FetchRequest -> FetchOutcome :=
  fun _ => Resolves okFlag st (Some {| chunks := values; ending := None |}).

Definition lineHel : jsstring :=
  jsn "{'message':{'role':'assistant','content':'Hel'},'done':false}".
Definition lineLo : jsstring :=
  jsn "{'message':{'role':'assistant','content':'lo'},'done':false}".
Definition lineBroken : jsstring :=
  jsn "{'message':{'role':'assistant','content':".

Definition sseHel : jsstring := jsn "data: {'choices':[{'delta':{'content':'Hel'}}]}".
Definition sseLo : jsstring := jsn "data: {'choices':[{'delta':{'content':'lo'}}]}".
Definition sseDone : jsstring := lit "data: [DONE]".
Definition sseBroken : jsstring := jsn "data: {'choices':[{'delta':".

Definition sampleOptions (stream : bool) : ChatOptions :=
  {| opt_model := lit "llama3";
     opt_messages := [{| role := user; content := lit "Say hello" |}];
     opt_stream := stream;
     opt_temperature := JSNumber (lit "0.7");
     opt_maxTokens := JSNumber (lit "50000") |}.

Definition openaiSettings : OllamaSettings :=
  {| apiEndpoint := lit "https://api.openai.com"; apiKey := lit "sk-test";
     model := lit "gpt-4o" |}.

Definition localSettings : OllamaSettings :=
  {| apiEndpoint := lit "http://localhost:11434"; apiKey := []; model := [] |}.

Definition sampleHistory : ConversationHistory :=
  addMessage
    (addMessage {| _conversations := ∅ |} (lit "note.md")
       {| role := user; content := lit "hello" |} 1 1)
    (lit "note.md") {| role := assistant; content := lit "hi" |} 2 2.

(** ** Invariants and relations between states *)

(** Handles are numbered in allocation order: every handle the world knows
    of was allocated before the next one. *)
Definition wellFormed (w : World) : Prop :=
  (forall h, h ∈ abortedSignals w -> (h < nextController w)%nat)
  /\ (forall h, _abortController (client w) = Some h -> (h < nextController w)%nat).

(** The world right after [chat] allocated its controller. *)
Definition allocated (w : World) : World := snd (newAbortController w).

(** What [chat] does with the response once [fetch] resolved. *)
Definition chatContinue {nm : NumberModel} (env : Env) (options : ChatOptions)
  (onChunk : bool) (response : Response) : Action JSValue :=
  if negb (ok response) then failWithApiError env response
  else if negb (opt_stream options) then decodeWhole env response
  else _processStream env response onChunk.

(** The request [fetchModels] hands to the transport. *)
Definition modelsRequest (s : OllamaSettings) : FetchRequest :=
  {| req_url := _getModelsEndpoint s; req_method := GET;
     req_headers := buildHeaders s; req_body := None; req_signal := None |}.

Definition isArray (v : JSValue) : Prop := exists elems, v = JSArray elems.

(** Sample payloads. *)
Definition localPayload : jsstring :=
  jsn "{'model':'llama3','message':{'role':'assistant','content':'Hello'},'done':true}".
Definition openaiPayload : jsstring :=
  jsn "{'choices':[{'index':0,'message':{'role':'assistant','content':'Hello'}}]}".

Definition streamingEnv : Env :=
  quietEnv (serves true 200 [lineHel ++ [LF]; lineLo ++ [LF]]).

(** Every run of [m] relates the state it starts in to the state it ends
    in by [R]. *)
Definition keeps {X : Type} (R : World -> World -> Prop) (m : Action X) : Prop :=
  forall w, R w (snd (m w)).

(** Two runs, started in states related by [R], settle alike and end in
    states related by [R]. *)
Definition sim {X : Type} (R : World -> World -> Prop) (m1 m2 : Action X) : Prop :=
  forall w1 w2,
    R w1 w2 -> fst (m1 w1) = fst (m2 w2) /\ R (snd (m1 w1)) (snd (m2 w2)).

(** States that differ at most in the settings. *)
Definition sameButSettings (w1 w2 : World) : Prop :=
  _abortController (client w1) = _abortController (client w2)
  /\ nextController w1 = nextController w2
  /\ abortedSignals w1 = abortedSignals w2
  /\ requests w1 = requests w2
  /\ tokens w1 = tokens w2.

(** States that differ at most in which of the handles allocated before the
    [n]-th were aborted. *)
Definition agreeFrom (n : nat) (w1 w2 : World) : Prop :=
  client w1 = client w2
  /\ nextController w1 = nextController w2
  /\ (n <= nextController w1)%nat
  /\ requests w1 = requests w2
  /\ tokens w1 = tokens w2
  /\ (forall h, (n <= h)%nat -> h ∈ abortedSignals w1 <-> h ∈ abortedSignals w2).

(** A signal whose handle, if any, was allocated at or after the [n]-th. *)
Definition signalFrom (n : nat) (sig : option nat) : Prop :=
  match sig with
  | Some h => (n <= h)%nat
  | None => True
  end.

Definition isAbortCall (c : Call) : bool :=
  match c with
  | CallAbort => true
  | CallUpdateSettings _ => false
  end.

(** The environment [env] without the [updateSettings] calls made while a
    body is read. *)
Definition withoutUpdatesDuringReads (env : Env) : Env :=
  {| transport := transport env; duringFetch := duringFetch env;
     duringJson := duringJson env;
     duringRead := fun i => List.filter isAbortCall (duringRead env i) |}.

(** ** [ConversationHistory] with its persistence

    Besides the map, a history object holds the settings object and the save
    callback [initialize] was given.  [store_settings] is [None] until
    [initialize] is called; afterwards it holds the [chatHistory] property
    of the settings object, as the map of its own enumerable properties
    ([None] when the property is absent).  [store_saves] counts the
    invocations of the save callback, which is taken to resolve. *)
Record Store : Type := {
  store_history : ConversationHistory;
  store_settings : option (option (gmap jsstring ConversationEntry));
  store_saves : nat
}.

(** [new ConversationHistory()]. *)
Definition newStore : Store :=
  {| store_history := {| _conversations := ∅ |}; store_settings := None;
     store_saves := 0 |}.

(** The own properties of the object [_persist] builds with
    [historyObj[noteId] = entry]: assigning to the key [__proto__] of an
    object literal sets its prototype and creates no property. *)
Definition historyObject (conversations : gmap jsstring ConversationEntry)
  : gmap jsstring ConversationEntry :=
  delete (lit "__proto__") conversations.

(** [_persist()]. *)
Definition _persist (st : Store) : Store :=
  match store_settings st with
  | Some _ =>
      {| store_history := store_history st;
         store_settings :=
           Some (Some (historyObject (_conversations (store_history st))));
         store_saves := S (store_saves st) |}
  | None => st
  end.

(** [initialize(settings, saveCallback)], [chatHistory] being the value of
    [settings.chatHistory]: its entries are set in the map, over the entries
    the map already has. *)
Definition initialize (st : Store)
  (chatHistory : option (gmap jsstring ConversationEntry)) : Store :=
  {| store_history :=
       match chatHistory with
       | Some entries =>
           {| _conversations := entries ∪ _conversations (store_history st) |}
       | None => store_history st
       end;
     store_settings := Some chatHistory;
     store_saves := store_saves st |}.

Definition withHistory (st : Store) (h : ConversationHistory) : Store :=
  {| store_history := h; store_settings := store_settings st;
     store_saves := store_saves st |}.

(** [addMessage], [clearConversation] and [clearAll] as the methods are:
    the change of the map, then [_persist()]. *)
Definition addMessageAndPersist (st : Store) (id : jsstring) (m : Message)
  (created now : N) : Store :=
  _persist (withHistory st (addMessage (store_history st) id m created now)).

Definition addUserMessage (st : Store) (id content : jsstring) (created now : N)
  : Store :=
  addMessageAndPersist st id {| role := user; content := content |} created now.

Definition addAssistantMessage (st : Store) (id content : jsstring)
  (created now : N) : Store :=
  addMessageAndPersist st id {| role := assistant; content := content |}
    created now.

Definition clearConversationAndPersist (st : Store) (id : jsstring) : Store :=
  _persist (withHistory st (clearConversation (store_history st) id)).

Definition clearAll (st : Store) : Store :=
  _persist (withHistory st {| _conversations := ∅ |}).

(** [hasConversation(noteId)]. *)
Definition hasConversation (h : ConversationHistory) (id : jsstring) : bool :=
  bool_decide (is_Some (_conversations h !! id)).

(** A call of one of the methods that change the history. *)
Inductive Mutation : Type :=
| MAddMessage (id : jsstring) (m : Message) (created now : N)
| MClearConversation (id : jsstring)
| MClearAll.

Definition mutate (st : Store) (op : Mutation) : Store :=
  match op with
  | MAddMessage id m created now => addMessageAndPersist st id m created now
  | MClearConversation id => clearConversationAndPersist st id
  | MClearAll => clearAll st
  end.

(** ** [ChatNote] ([src/ui/chat-note.ts]): the note as the record of a chat *)

(** [s.replace(pat, rep)] for a string pattern and a replacement without
    [$]: the first occurrence of [pat] is replaced. *)
Fixpoint replaceFirst (s pat rep : jsstring) : jsstring :=
  if startsWith s pat then rep ++ drop (length pat) s
  else match s with
       | c :: s' => c :: replaceFirst s' pat rep
       | [] => []
       end.

(** The variables of the loop of [_parseExistingContent], [parsed] being
    [this._messages]. *)
Record ParseState : Type := {
  currentRole : option Role;
  currentContent : list jsstring;
  parsed : list Message
}.

(** [if (currentRole && currentContent.length > 0) this._messages.push(...)]:
    the messages afterwards. *)
Definition pushCurrent (st : ParseState) : list Message :=
  match currentRole st, currentContent st with
  | Some r, _ :: _ =>
      parsed st ++ [{| role := r;
                       content := trim (joinWith [LF] (currentContent st)) |}]
  | _, _ => parsed st
  end.

(** The body of the loop over the lines. *)
Definition parseLine (st : ParseState) (line : jsstring) : ParseState :=
  if startsWith line (lit "> **You:**") then
    {| currentRole := Some user;
       currentContent := [trim (replaceFirst line (lit "> **You:**") [])];
       parsed := pushCurrent st |}
  else if startsWith line (lit "> **AI:**") then
    {| currentRole := Some assistant;
       currentContent := [trim (replaceFirst line (lit "> **AI:**") [])];
       parsed := pushCurrent st |}
  else
    match currentRole st with
    | None => st
    | Some _ =>
        if startsWith line (lit "> ") then
          {| currentRole := currentRole st;
             currentContent := currentContent st ++ [drop 2 line];
             parsed := parsed st |}
        else if jsstring_eqb line (lit ">") then
          {| currentRole := currentRole st;
             currentContent := currentContent st ++ [[]];
             parsed := parsed st |}
        else if jsstring_eqb (trim line) [] then
          {| currentRole := None; currentContent := [];
             parsed := pushCurrent st |}
        else st
    end.

(** [_parseExistingContent(editor)]: [this._messages] afterwards, for the
    messages [msgs] it held before and the text [text] of the editor. *)
Definition _parseExistingContent (msgs : list Message) (text : jsstring)
  : list Message :=
  pushCurrent
    (foldl parseLine
       {| currentRole := None; currentContent := []; parsed := msgs |}
       (split_lines text)).

(** What one turn of the loop of [_saveToNote] appends to [content]. *)
Definition noteBlock (msg : Message) : jsstring :=
  let label :=
    match role msg with
    | user => lit "**You:**"
    | _ => lit "**AI:**"
    end in
  let lines :=
    joinWith [LF] (map (fun line => lit "> " ++ line) (split_lines (content msg))) in
  lit "> " ++ label ++ [LF] ++ lines ++ [LF; LF].

(** [_saveToNote()]: the text handed to [editor.setValue], for
    [this._messages]. *)
Definition _saveToNote (msgs : list Message) : jsstring :=
  foldl (fun content msg => content ++ noteBlock msg) [] msgs.

(** The role a message is read back with. *)
Definition savedAs (m : Message) : Message :=
  {| role := match role m with user => user | _ => assistant end;
     content := content m |}.

(** A line that does not read as the header of a block once quoted. *)
Definition plainLine (line : jsstring) : Prop :=
  startsWith line (lit "**You:**") = false
  /\ startsWith line (lit "**AI:**") = false.

(** A message whose text survives the note: it has no white space at
    either end and none of its lines reads as a header. *)
Definition storable (m : Message) : Prop :=
  trim (content m) = content m /\ Forall plainLine (split_lines (content m)).

(** A history initialised from settings without saved conversations, and
    two calls on it. *)
Definition sampleStore : Store := initialize newStore (Some ∅).

Definition sampleMutations : list Mutation :=
  [MAddMessage (lit "note.md") {| role := user; content := lit "hello" |} 1 1;
   MAddMessage (lit "__proto__") {| role := user; content := lit "lost" |} 2 3].

(** The header line of the block of a message. *)
Definition blockHeader (m : Message) : jsstring :=
  match role m with
  | user => lit "> **You:**"
  | _ => lit "> **AI:**"
  end.

(** The lines of the block of a message. *)
Definition blockLines (m : Message) : list jsstring :=
  blockHeader m :: map (fun line => lit "> " ++ line) (split_lines (content m))
  ++ [[]].

(** A chat of two messages, the second of two lines. *)
Definition sampleChat : list Message :=
  [{| role := user; content := lit "Say hello" |};
   {| role := assistant; content := lit "Hello," ++ [LF] ++ lit "world" |}].

(** ** Environments and payloads for the further properties *)

Definition isUpdateCall (c : Call) : bool := negb (isAbortCall c).

(** The environment [env] without the [abort()] calls made while
    [fetchModels] is suspended. *)
Definition withoutAborts (env : Env) : Env :=
  {| transport := transport env;
     duringFetch := List.filter isUpdateCall (duringFetch env);
     duringJson := List.filter isUpdateCall (duringJson env);
     duringRead := duringRead env |}.

(** A transport that answers every request with a success whose body ends
    as [fin] says. *)
Definition servesEnding (values : list jsstring) (fin : option JSError)
  : FetchRequest -> FetchOutcome :=
  fun _ => Resolves true 200 (Some {| chunks := values; ending := fin |}).

(** An environment in which [abort()] is called while the second chunk of
    the body is awaited, and nothing else happens. *)
Definition abortingEnv (t : FetchRequest -> FetchOutcome) : Env :=
  {| transport := t; duringFetch := []; duringJson := [];
     duringRead := fun i => match i with 1%nat => [CallAbort] | _ => [] end |}.

(** An environment in which [abort()] is called at both suspension points
    of [fetchModels]. *)
Definition abortedModelsEnv (t : FetchRequest -> FetchOutcome) : Env :=
  {| transport := t; duringFetch := [CallAbort]; duringJson := [CallAbort];
     duringRead := fun _ => [] |}.

Definition openaiModels : jsstring :=
  jsn "{'object':'list','data':[{'id':'gpt-4o','object':'model'},{'id':'gpt-4o-mini'}]}".

(** ** [PDFParser.createSummaryPrompt] ([src/parsers/pdf-parser.ts]) *)

Module PdfParser.

(** [PDFContent]; the page count is the number of pages of a document, an
    integer below 10^21, which a template literal prints in decimal. *)
Record PDFContent : Type := {
  filename : jsstring;
  text : jsstring;
  pageCount : N
}.

(** The end index of [content.text.substring(0, 8000)]. *)
Definition substringLimit : nat := N.to_nat 8000.

(** What one turn of the loop appends to [prompt]. *)
Definition section (content : PDFContent) : jsstring :=
  (lit "--- " ++ filename content ++ lit " (" ++ decimal (pageCount content)
   ++ lit " pages) ---" ++ [LF])
  ++ take substringLimit (text content)
  ++ [LF; LF].

(** [createSummaryPrompt(contents)]. *)
Definition createSummaryPrompt (contents : list PDFContent) : jsstring :=
  foldl (fun prompt content => prompt ++ section content)
        (lit "Summarize the following document(s):" ++ [LF; LF]) contents.

End PdfParser.

(** ** The stream decoders of the multi-provider [AIClient]
    (the first class of [src/api/ai-client.ts]) *)

Module Providers.
Section Decoders.
Context {nm : NumberModel}.

(** [line => line.trim().startsWith('data:')]. *)
Definition isDataLine (line : jsstring) : bool :=
  startsWith (trim line) (lit "data:").

(** [line.replace('data: ', '').trim()]. *)
Definition dataOf (line : jsstring) : jsstring :=
  trim (replaceFirst line (lit "data: ") []).

(** [if (content) { fullContent += content; onChunk?.(content); }]; the
    result is the new value of [fullContent]. *)
Definition deliver (onChunk : bool) (content : JSValue) (fullContent : jsstring)
  : Action jsstring :=
  if toBoolean content then
    let* text := liftOpt (toStringJS content) TypeError in
    callOnChunk onChunk content ;;
    ret (fullContent ++ text)
  else ret fullContent.

(** The body of the loop over the lines in [_processOpenAIStream]. *)
Definition openAILine (onChunk : bool) (line fullContent : jsstring)
  : Action jsstring :=
  let data := dataOf line in
  if jsstring_eqb data (lit "[DONE]") then ret fullContent
  else
    tryCatch
      (let* parsed := lift (JSON.parse data) in
       let* cs := lift (getField parsed "choices") in
       let* c0 := lift (optIndex0 cs) in
       let* d := lift (optField c0 "delta") in
       let* c := lift (optField d "content") in
       deliver onChunk (orElse c (JSString [])) fullContent)
      (fun _ => ret fullContent).

(** [v === s] for a string [s]. *)
Definition strictEqualsString (v : JSValue) (s : jsstring) : bool :=
  match v with
  | JSString t => jsstring_eqb t s
  | _ => false
  end.

(** The body of the loop over the lines in [_processAnthropicStream]. *)
Definition anthropicLine (onChunk : bool) (line fullContent : jsstring)
  : Action jsstring :=
  let data := dataOf line in
  tryCatch
    (let* parsed := lift (JSON.parse data) in
     let* type := lift (getField parsed "type") in
     if strictEqualsString type (lit "content_block_delta") then
       let* d := lift (getField parsed "delta") in
       let* t := lift (optField d "text") in
       deliver onChunk (orElse t (JSString [])) fullContent
     else ret fullContent)
    (fun _ => ret fullContent).

(** [for (const line of lines) { ... }], for either body. *)
Fixpoint forDataLines (lineBody : jsstring -> jsstring -> Action jsstring)
  (lines : list jsstring) (fullContent : jsstring) : Action jsstring :=
  match lines with
  | [] => ret fullContent
  | line :: rest =>
      let* fullContent' := lineBody line fullContent in
      forDataLines lineBody rest fullContent'
  end.

(** The [while (true)] loop over [reader.read()] and the [return] after it;
    [reader.releaseLock()] in the [finally] block acts on nothing the state
    holds. *)
Fixpoint readAll (env : Env) (lineBody : jsstring -> jsstring -> Action jsstring)
  (sig : option nat) (i : nat) (pending : list jsstring)
  (ending : option JSError) (fullContent : jsstring) : Action JSValue :=
  match pending with
  | [] =>
      awaitRead env sig i ;;
      match ending with
      | None =>
          ret (messageObject (JSString (lit "assistant")) (JSString fullContent))
      | Some e => throw e
      end
  | value :: rest =>
      awaitRead env sig i ;;
      let text := value in
      let lines := List.filter isDataLine (split_lines text) in
      let* fullContent' := forDataLines lineBody lines fullContent in
      readAll env lineBody sig (S i) rest ending fullContent'
  end.

Definition processWith (env : Env)
  (lineBody : jsstring -> jsstring -> Action jsstring) (response : Response)
  : Action JSValue :=
  match body response with
  | None => throw (Error_ (lit "No response body"))
  | Some b =>
      readAll env lineBody (signal response) 0 (chunks b) (ending b) []
  end.

Definition _processOpenAIStream (env : Env) (response : Response)
  (onChunk : bool) : Action JSValue :=
  processWith env (openAILine onChunk) response.

Definition _processAnthropicStream (env : Env) (response : Response)
  (onChunk : bool) : Action JSValue :=
  processWith env (anthropicLine onChunk) response.

End Decoders.
End Providers.

(** A line of a server-sent event stream as both revisions of the client
    read it alike: a blank line, or the marker [data: ] followed by a
    payload without white space at either end. *)
Definition sseLine (line : jsstring) : Prop :=
  trim line = [] \/ exists p, line = lit "data: " ++ p /\ trim p = p.

(** ** What a line and a body contribute in the multi-provider decoders *)

(** Which of the two decoders. *)
Inductive ProviderStream : Type := OpenAIStream | AnthropicStream.

Section ProviderDeltas.
Context {nm : NumberModel}.

(** Read off [deliver]: the value handed to the callback and the text
    appended to [fullContent], when the [try] block reaches them. *)
Definition delivered (content : JSValue) : option (JSValue * jsstring) :=
  if toBoolean content then
    match toStringJS content with
    | Some t => Some (content, t)
    | None => None
    end
  else None.

(** Read off [openAILine]. *)
Definition openAILineDelta (line : jsstring) : option (JSValue * jsstring) :=
  let data := Providers.dataOf line in
  if jsstring_eqb data (lit "[DONE]") then None
  else
    match JSON.parse data with
    | Throw _ => None
    | Normal parsed =>
        match (let! cs := getField parsed "choices" in
               let! c0 := optIndex0 cs in
               let! d := optField c0 "delta" in
               optField d "content") with
        | Normal c => delivered (orElse c (JSString []))
        | Throw _ => None
        end
    end.

(** Read off [anthropicLine]. *)
Definition anthropicLineDelta (line : jsstring) : option (JSValue * jsstring) :=
  match JSON.parse (Providers.dataOf line) with
  | Throw _ => None
  | Normal parsed =>
      match getField parsed "type" with
      | Throw _ => None
      | Normal type =>
          if Providers.strictEqualsString type (lit "content_block_delta") then
            match (let! d := getField parsed "delta" in optField d "text") with
            | Normal t => delivered (orElse t (JSString []))
            | Throw _ => None
            end
          else None
      end
  end.

Definition providerLineDelta (kind : ProviderStream) (line : jsstring)
  : option (JSValue * jsstring) :=
  match kind with
  | OpenAIStream => openAILineDelta line
  | AnthropicStream => anthropicLineDelta line
  end.

(** The deltas of a body, in the order the decoder meets them: chunk by
    chunk, and in a chunk line by line. *)
Definition providerDeltas (kind : ProviderStream) (values : list jsstring)
  : list (JSValue * jsstring) :=
  concat (map (fun value =>
                 omap (providerLineDelta kind)
                      (List.filter Providers.isDataLine (split_lines value)))
              values).

(** The decoder of each kind. *)
Definition providerStream (kind : ProviderStream)
  : Env -> Response -> bool -> Action JSValue :=
  match kind with
  | OpenAIStream => Providers._processOpenAIStream
  | AnthropicStream => Providers._processAnthropicStream
  end.

(** A line handler that does what [lineDelta] says of each line. *)
Definition decodesAs (onChunk : bool)
  (lineBody : jsstring -> jsstring -> Action jsstring)
  (lineDelta : jsstring -> option (JSValue * jsstring)) : Prop :=
  forall line fullContent w,
    lineBody line fullContent w
    = match lineDelta line with
      | Some (d, t) => (Normal (fullContent ++ t), addTokens onChunk [d] w)
      | None => (Normal fullContent, w)
      end.

End ProviderDeltas.

Definition anthropicDelta : jsstring :=
  jsn "data: {'type':'content_block_delta','index':0,'delta':{'type':'text_delta','text':'Hel'}}".
Definition anthropicDeltaLo : jsstring :=
  jsn "data: {'type':'content_block_delta','index':0,'delta':{'type':'text_delta','text':'lo'}}".
Definition anthropicStop : jsstring :=
  jsn "data: {'type':'content_block_stop','index':0}".

(** [sseLine], as a test. *)
Definition sseLineb (line : jsstring) : bool :=
  bool_decide (trim line = [])
  || (startsWith line (lit "data: ")
      && bool_decide (trim (drop 6 line) = drop 6 line)).

(** A message as [_parseExistingContent] pushes them: of the user or of
    the assistant, with a text without white space at either end. *)
Definition parsedMessage (m : Message) : Prop :=
  (role m = user \/ role m = assistant) /\ trim (content m) = content m.

(** * Properties *)

(** ** Strings *)

Lemma startsWith_app_sep (x : N) (s t p : jsstring) :
  x ∉ p -> startsWith (s ++ x :: t) p = startsWith s p.
Proof.
  revert p. induction s as [|a s IH]; intros p Hx.
  - destruct p as [|c p]; [reflexivity|]. simpl.
    apply not_elem_of_cons in Hx as [Hx _].
    destruct (N.eqb_spec x c); [congruence | reflexivity].
  - destruct p as [|c p]; [reflexivity|]. simpl.
    apply not_elem_of_cons in Hx as [_ Hx]. by rewrite IH.
Qed.

Lemma startsWith_length (s p : jsstring) :
  startsWith s p = true -> (length p <= length s)%nat.
Proof.
  revert s. induction p as [|c p IH]; intros s H; simpl; [lia|].
  destruct s as [|a s]; simpl in *; [discriminate|].
  apply andb_true_iff in H as [_ H]. apply IH in H. lia.
Qed.

Lemma includes_short (t p : jsstring) :
  (length t < length p)%nat -> includes t p = false.
Proof.
  induction t as [|a t IH]; intros Hlen.
  - destruct p; simpl in *; [lia | reflexivity].
  - cbn [includes]. rewrite IH by (simpl in Hlen; lia). rewrite orb_false_r.
    destruct (startsWith (a :: t) p) eqn:E; [|reflexivity].
    apply startsWith_length in E. lia.
Qed.

Lemma includes_app_sep (x : N) (s t p : jsstring) :
  x ∉ p -> (length t < length p)%nat ->
  includes (s ++ x :: t) p = includes s p.
Proof.
  intros Hx Hlen. induction s as [|a s IH].
  - change ([] ++ x :: t) with (x :: t).
    cbn [includes]. rewrite (includes_short t p Hlen).
    f_equal. exact (startsWith_app_sep x [] t p Hx).
  - change ((a :: s) ++ x :: t) with (a :: (s ++ x :: t)).
    cbn [includes]. rewrite IH.
    f_equal. exact (startsWith_app_sep x (a :: s) t p Hx).
Qed.

Lemma startsWith_app (p t : jsstring) : startsWith (p ++ t) p = true.
Proof.
  induction p as [|c p IH]; [by destruct t|]. simpl.
  by rewrite N.eqb_refl, IH.
Qed.

Lemma includes_app_r (s p : jsstring) : includes (s ++ p) p = true.
Proof.
  induction s as [|a s IH].
  - simpl. destruct p; [reflexivity|].
    cbn [includes]. rewrite <- (app_nil_r (n :: p)) at 1.
    by rewrite startsWith_app.
  - change ((a :: s) ++ p) with (a :: (s ++ p)). cbn [includes].
    rewrite IH. apply orb_true_r.
Qed.

Lemma trimStart_length (x : jsstring) : (length (trimStart x) <= length x)%nat.
Proof.
  induction x as [|c x IH]; simpl; [lia|].
  destruct (isTrimSpace c); simpl; lia.
Qed.

Lemma trimStart_head (x : jsstring) :
  trimStart x = x ->
  match x with [] => True | c :: _ => isTrimSpace c = false end.
Proof.
  destruct x as [|c x]; [done|]. simpl.
  destruct (isTrimSpace c) eqn:E; [|done].
  intros H. pose proof (trimStart_length x) as L. rewrite H in L.
  simpl in L. lia.
Qed.

Lemma trimStart_id (c : N) (x : jsstring) :
  isTrimSpace c = false -> trimStart (c :: x) = c :: x.
Proof. intros H. simpl. by rewrite H. Qed.

Lemma trimEnd_length (x : jsstring) : (length (trimEnd x) <= length x)%nat.
Proof.
  unfold trimEnd. rewrite length_rev.
  pose proof (trimStart_length (rev x)) as L. by rewrite length_rev in L.
Qed.

Lemma trimStart_same_length (x : jsstring) :
  length (trimStart x) = length x -> trimStart x = x.
Proof.
  destruct x as [|c x]; [done|]. simpl.
  destruct (isTrimSpace c); [|done].
  pose proof (trimStart_length x). simpl. lia.
Qed.

(** A trimmed string starts with no white space. *)
Lemma trim_fixed_head (x : jsstring) :
  trim x = x ->
  match x with [] => True | c :: _ => isTrimSpace c = false end.
Proof.
  intros H. apply trimStart_head, trimStart_same_length.
  pose proof (trimStart_length x) as L1.
  pose proof (trimEnd_length (trimStart x)) as L2.
  unfold trim in H. rewrite H in L2. lia.
Qed.

Lemma trimEnd_snoc (x : jsstring) (c : N) :
  isTrimSpace c = false -> trimEnd (x ++ [c]) = x ++ [c].
Proof.
  intros H. unfold trimEnd. rewrite rev_app_distr. simpl.
  rewrite H. simpl. by rewrite rev_involutive.
Qed.

(** Appending text that neither starts nor ends with white space to a
    trimmed string gives a trimmed string. *)
Lemma trim_app_edges (x t : jsstring) (a b : N) :
  trim x = x -> isTrimSpace a = false -> isTrimSpace b = false ->
  trim (x ++ a :: t ++ [b]) = x ++ a :: t ++ [b].
Proof.
  intros Hx Ha Hb. unfold trim.
  assert (trimStart (x ++ a :: t ++ [b]) = x ++ a :: t ++ [b]) as ->.
  { apply trim_fixed_head in Hx. destruct x as [|c x]; simpl.
    - by rewrite Ha.
    - by rewrite Hx. }
  change (x ++ a :: t ++ [b]) with (x ++ (a :: t) ++ [b]).
  rewrite app_assoc. by apply trimEnd_snoc.
Qed.

Lemma trim_snoc (x : jsstring) (a : N) :
  trim x = x -> isTrimSpace a = false -> trim (x ++ [a]) = x ++ [a].
Proof.
  intros Hx Ha. unfold trim.
  assert (trimStart (x ++ [a]) = x ++ [a]) as ->.
  { apply trim_fixed_head in Hx. destruct x as [|c x]; simpl.
    - by rewrite Ha.
    - by rewrite Hx. }
  by apply trimEnd_snoc.
Qed.

Lemma endsWith1_snoc (x : jsstring) (c d : N) :
  endsWith1 (x ++ [c]) d = (c =? d).
Proof. unfold endsWith1. by rewrite last_snoc. Qed.

(** ** Endpoint resolution *)

Lemma slash_not_in_markers :
  (slash ∉ lit "localhost") /\ (slash ∉ lit "127.0.0.1") /\ (slash ∉ lit "11434").
Proof. repeat split; apply (bool_decide_unpack _); vm_compute; exact I. Qed.

(** Text appended after a slash, shorter than every marker, does not change
    the dialect. *)
Lemma isOllama_app_sep (s : OllamaSettings) (t : jsstring) :
  (length t < 5)%nat ->
  _isOllama (withEndpoint s (apiEndpoint s ++ slash :: t)) = _isOllama s.
Proof.
  intros Hlen. destruct slash_not_in_markers as (H1 & H2 & H3).
  unfold _isOllama, withEndpoint; cbn [apiEndpoint].
  rewrite !includes_app_sep; try assumption; reflexivity || (simpl; lia).
Qed.

Lemma getBaseUrl_trimmed (s : OllamaSettings) :
  trim (apiEndpoint s) = apiEndpoint s ->
  endsWith1 (apiEndpoint s) slash = false ->
  _getBaseUrl s = apiEndpoint s.
Proof. intros Ht He. unfold _getBaseUrl. rewrite Ht. cbn zeta. by rewrite He. Qed.

Lemma getBaseUrl_slash (s : OllamaSettings) (b : jsstring) :
  trim b = b -> _getBaseUrl (withEndpoint s (b ++ [slash])) = b.
Proof.
  intros Ht. unfold _getBaseUrl, withEndpoint; cbn [apiEndpoint].
  rewrite trim_snoc by done. cbn zeta.
  rewrite endsWith1_snoc, N.eqb_refl.
  unfold slice_0_m1. apply removelast_last.
Qed.

Lemma getBaseUrl_version (s : OllamaSettings) (b : jsstring) :
  trim b = b ->
  _getBaseUrl (withEndpoint s (b ++ lit "/v1")) = b ++ lit "/v1".
Proof.
  intros Ht. unfold _getBaseUrl, withEndpoint; cbn [apiEndpoint].
  change (lit "/v1") with (slash :: [118] ++ [49]).
  rewrite trim_app_edges by done. cbn zeta.
  change (b ++ slash :: [118] ++ [49]) with (b ++ [slash; 118] ++ [49]).
  rewrite app_assoc, endsWith1_snoc. reflexivity.
Qed.

(** C8 (as amended): for a configured base URL that is trimmed and does not
    end with a slash, the base URL used is that URL itself; configuring the
    same URL followed by a slash resolves to the same chat and model-listing
    endpoints; and, under the OpenAI-compatible dialect, when the URL does
    not contain the versioned segment, configuring the URL followed by the
    versioned segment resolves to the same endpoints, which carry the
    segment exactly once. *)
Theorem endpoint_resolution_absorbs_slash_and_version (s : OllamaSettings) :
  trim (apiEndpoint s) = apiEndpoint s ->
  endsWith1 (apiEndpoint s) slash = false ->
  let b := apiEndpoint s in
  _getBaseUrl s = b
  /\ (_getChatEndpoint (withEndpoint s (b ++ [slash])) = _getChatEndpoint s
      /\ _getModelsEndpoint (withEndpoint s (b ++ [slash])) = _getModelsEndpoint s)
  /\ (_isOllama s = false -> includes b (lit "/v1") = false ->
      _getChatEndpoint s = b ++ lit "/v1/chat/completions"
      /\ _getModelsEndpoint s = b ++ lit "/v1/models"
      /\ _getChatEndpoint (withEndpoint s (b ++ lit "/v1")) = _getChatEndpoint s
      /\ _getModelsEndpoint (withEndpoint s (b ++ lit "/v1")) = _getModelsEndpoint s).
Proof.
  intros Ht He b.
  pose proof (getBaseUrl_trimmed s Ht He) as Hb.
  pose proof (getBaseUrl_slash s b Ht) as Hs.
  pose proof (isOllama_app_sep s [] ltac:(simpl; lia)) as Ho.
  fold b in Ho.
  split; [exact Hb|]. split.
  - unfold _getChatEndpoint, _getModelsEndpoint. rewrite Hs, Ho, Hb. by fold b.
  - intros Hd Hv.
    pose proof (getBaseUrl_version s b Ht) as Hbv.
    pose proof (isOllama_app_sep s (lit "v1") ltac:(simpl; lia)) as Hov.
    fold b in Hov. change (b ++ slash :: lit "v1") with (b ++ lit "/v1") in Hov.
    unfold _getChatEndpoint, _getModelsEndpoint.
    rewrite Hbv, Hov, Hb, Hd. fold b. rewrite Hv, includes_app_r.
    rewrite <- !app_assoc. repeat split; reflexivity.
Qed.

Lemma endpoint_resolution_absorbs_slash_and_version_witness :
  _getChatEndpoint (withEndpoint openaiSettings (lit "https://api.openai.com/"))
  = lit "https://api.openai.com/v1/chat/completions"
  /\ _getChatEndpoint (withEndpoint openaiSettings (lit "https://api.openai.com/v1"))
     = lit "https://api.openai.com/v1/chat/completions".
Proof.
  destruct (endpoint_resolution_absorbs_slash_and_version openaiSettings
              ltac:(reflexivity) ltac:(reflexivity))
    as (_ & (H1 & _) & H2).
  destruct (H2 ltac:(reflexivity) ltac:(reflexivity)) as (H3 & _ & H4 & _).
  split.
  - exact (eq_trans H1 H3).
  - exact (eq_trans H4 H3).
Defined.

(** C8 (as stated) fails: resolving an already resolved endpoint appends the
    path once more, under both dialects and for both endpoints. *)
Lemma endpoint_resolution_not_idempotent :
  _getChatEndpoint (withEndpoint localSettings (_getChatEndpoint localSettings))
  = lit "http://localhost:11434/api/chat/api/chat"
  /\ _getChatEndpoint localSettings = lit "http://localhost:11434/api/chat"
  /\ _getModelsEndpoint (withEndpoint localSettings (_getModelsEndpoint localSettings))
     = lit "http://localhost:11434/api/tags/api/tags"
  /\ _getChatEndpoint (withEndpoint openaiSettings (_getChatEndpoint openaiSettings))
     = lit "https://api.openai.com/v1/chat/completions/chat/completions"
  /\ _getChatEndpoint openaiSettings = lit "https://api.openai.com/v1/chat/completions"
  /\ _getModelsEndpoint (withEndpoint openaiSettings (_getModelsEndpoint openaiSettings))
     = lit "https://api.openai.com/v1/models/models".
Proof. repeat split; vm_compute; reflexivity. Qed.

(** ** Conversation context *)

Lemma Array_slice_last {A : Type} (k : Z) (l : list A) :
  (0 < k <= Z.of_nat (length l))%Z ->
  Array_slice (- k) l = lastN (Z.to_nat k) l.
Proof.
  intros Hk. unfold Array_slice, lastN.
  destruct (Z.ltb_spec (- k) 0); [|lia].
  f_equal. lia.
Qed.

Lemma getMessages_unknown (h : ConversationHistory) (id : jsstring) :
  _conversations h !! id = None -> getMessages h id = [].
Proof. intros H. unfold getMessages. by rewrite H. Qed.

Lemma getConversationContext_cases
  (h : ConversationHistory) (id : jsstring) (cap : Z) :
  (0 < cap)%Z ->
  let msgs := getMessages h id in
  ((Z.of_nat (length msgs) <= cap)%Z -> getConversationContext h id cap = msgs)
  /\ ((cap < Z.of_nat (length msgs))%Z ->
      getConversationContext h id cap = lastN (Z.to_nat cap) msgs
      /\ length (getConversationContext h id cap) = Z.to_nat cap
      /\ getConversationContext h id cap `suffix_of` msgs)
  /\ (_conversations h !! id = None -> getConversationContext h id cap = []).
Proof.
  intros Hcap msgs. unfold getConversationContext. fold msgs.
  repeat split.
  - intros Hle. destruct (Z.leb_spec (Z.of_nat (length msgs)) cap); [reflexivity|lia].
  - destruct (Z.leb_spec (Z.of_nat (length msgs)) cap); [lia|].
    apply Array_slice_last. lia.
  - destruct (Z.leb_spec (Z.of_nat (length msgs)) cap); [lia|].
    rewrite Array_slice_last by lia. unfold lastN. rewrite length_drop. lia.
  - destruct (Z.leb_spec (Z.of_nat (length msgs)) cap); [lia|].
    rewrite Array_slice_last by lia. apply suffix_drop.
  - intros Hn. subst msgs. rewrite (getMessages_unknown h id Hn).
    change (Z.of_nat (length [])) with 0%Z.
    destruct (Z.leb_spec 0 cap); [reflexivity|lia].
Qed.

(** X1: for a cap of at least one, [getConversationContext] returns the whole
    stored list when it has at most [cap] messages and otherwise its last
    [cap] messages in stored order; for an unknown note it returns the empty
    list. *)
Theorem getConversationContext_positive_cap
  (h : ConversationHistory) (id : jsstring) (cap : Z) :
  (0 < cap)%Z ->
  let msgs := getMessages h id in
  ((Z.of_nat (length msgs) <= cap)%Z -> getConversationContext h id cap = msgs)
  /\ ((cap < Z.of_nat (length msgs))%Z ->
      getConversationContext h id cap = lastN (Z.to_nat cap) msgs
      /\ length (getConversationContext h id cap) = Z.to_nat cap
      /\ getConversationContext h id cap `suffix_of` msgs)
  /\ (_conversations h !! id = None -> getConversationContext h id cap = []).
Proof. exact (getConversationContext_cases h id cap). Qed.

Lemma getConversationContext_positive_cap_witness :
  getConversationContext sampleHistory (lit "note.md") 1
  = [{| role := assistant; content := lit "hi" |}].
Proof.
  destruct (getConversationContext_positive_cap sampleHistory (lit "note.md") 1
              ltac:(lia)) as (_ & H & _).
  destruct (H ltac:(vm_compute; reflexivity)) as (H1 & _).
  exact H1.
Defined.

(** With the default cap (20) the same holds. *)
Lemma getConversationContext_default_cap
  (h : ConversationHistory) (id : jsstring) :
  let msgs := getMessages h id in
  ((length msgs <= 20)%nat -> getConversationContext h id defaultMaxMessages = msgs)
  /\ ((20 < length msgs)%nat ->
      getConversationContext h id defaultMaxMessages = lastN 20 msgs).
Proof.
  intros msgs.
  destruct (getConversationContext_cases h id defaultMaxMessages
              ltac:(unfold defaultMaxMessages; lia)) as (H1 & H2 & _).
  fold msgs in H1, H2. unfold defaultMaxMessages in *. split.
  - intros H. apply H1. lia.
  - intros H. destruct H2 as (H2 & _); [lia|]. exact H2.
Qed.

(** C10 at a cap of zero: the guard fails for a non-empty conversation and
    [slice(-0)] is [slice(0)], so the whole list comes back, not the last
    zero messages. *)
Lemma getConversationContext_cap_zero :
  getMessages sampleHistory (lit "note.md")
  = [{| role := user; content := lit "hello" |};
     {| role := assistant; content := lit "hi" |}]
  /\ getConversationContext sampleHistory (lit "note.md") 0
     = [{| role := user; content := lit "hello" |};
        {| role := assistant; content := lit "hi" |}]
  /\ lastN 0 (getMessages sampleHistory (lit "note.md")) = [].
Proof. repeat split; vm_compute; reflexivity. Qed.

(** ** Frames of the monadic steps *)

Section Frame.
Context {A B : Type}.
Variable R : World -> World -> Prop.
Hypothesis R_refl : forall w, R w w.
Hypothesis R_trans : forall a b c, R a b -> R b c -> R a c.

Lemma keeps_ret (a : A) : keeps R (ret a).
Proof. intros w. apply R_refl. Qed.

Lemma keeps_throw (e : JSError) : keeps R (@throw A e).
Proof. intros w. apply R_refl. Qed.

Lemma keeps_lift (c : Completion A) : keeps R (lift c).
Proof. intros w. apply R_refl. Qed.

Lemma keeps_bind (m : Action A) (k : A -> Action B) :
  keeps R m -> (forall a, keeps R (k a)) -> keeps R (bind m k).
Proof.
  intros Hm Hk w. unfold bind. specialize (Hm w).
  destruct (m w) as [[a|e] w1]; simpl in *; [|assumption].
  eapply R_trans; [exact Hm | apply Hk].
Qed.

Lemma keeps_tryCatch (m : Action A) (h : JSError -> Action A) :
  keeps R m -> (forall e, keeps R (h e)) -> keeps R (tryCatch m h).
Proof.
  intros Hm Hh w. unfold tryCatch. specialize (Hm w).
  destruct (m w) as [[a|e] w1]; simpl in *; [assumption|].
  eapply R_trans; [exact Hm | apply Hh].
Qed.

End Frame.

Lemma abortsOwn_refl (w : World) : abortsOwn w w.
Proof. intros h Hh. by left. Qed.

Lemma abortsOwn_trans (a b c : World) :
  _abortController (client b) = _abortController (client a) ->
  abortsOwn a b -> abortsOwn b c -> abortsOwn a c.
Proof.
  intros Hc Hab Hbc h Hh. destruct (Hbc h Hh) as [H|H].
  - by apply Hab.
  - right. congruence.
Qed.

Lemma quietStep_refl (w : World) : quietStep w w.
Proof. repeat split. apply abortsOwn_refl. Qed.

Lemma quietStep_trans (a b c : World) :
  quietStep a b -> quietStep b c -> quietStep a c.
Proof.
  unfold quietStep. intros (?&?&?&?&?) (?&?&?&?&?).
  repeat split; try congruence. eapply abortsOwn_trans; eassumption.
Qed.

Lemma streamStep_refl (w : World) : streamStep w w.
Proof. repeat split. apply abortsOwn_refl. Qed.

Lemma streamStep_trans (a b c : World) :
  streamStep a b -> streamStep b c -> streamStep a c.
Proof.
  unfold streamStep. intros (?&?&?&?) (?&?&?&?).
  repeat split; try congruence. eapply abortsOwn_trans; eassumption.
Qed.

Lemma quietStep_streamStep (a b : World) : quietStep a b -> streamStep a b.
Proof. unfold quietStep, streamStep. tauto. Qed.

Lemma runCall_quiet (c : Call) (w : World) : quietStep w (runCall c w).
Proof.
  destruct c; simpl.
  - repeat split. intros h Hh. by left.
  - unfold abort. destruct (_abortController (client w)) as [h0|] eqn:E.
    + repeat split; try assumption. intros h Hh. cbn in Hh.
      apply elem_of_union in Hh as [Hh|Hh]; [|by left].
      apply elem_of_singleton in Hh. right. by subst.
    + apply quietStep_refl.
Qed.

Lemma runCalls_quiet (calls : list Call) (w : World) :
  quietStep w (foldl (fun w' c => runCall c w') w calls).
Proof.
  revert w. induction calls as [|c calls IH]; intros w; simpl.
  - apply quietStep_refl.
  - eapply quietStep_trans; [apply runCall_quiet | apply IH].
Qed.

Lemma runCalls_settings (calls : list Call) (w : World) :
  _settings (client (foldl (fun w' c => runCall c w') w calls))
  = settingsAfter calls (_settings (client w)).
Proof.
  unfold settingsAfter. revert w.
  induction calls as [|c calls IH]; intros w; simpl; [reflexivity|].
  rewrite IH. f_equal. destruct c; simpl; [reflexivity|].
  unfold abort. by destruct (_abortController (client w)).
Qed.

Lemma interleave_quiet (calls : list Call) : keeps quietStep (interleave calls).
Proof. intros w. apply runCalls_quiet. Qed.

Lemma checkSignal_quiet (sig : option nat) : keeps quietStep (checkSignal sig).
Proof.
  intros w. unfold checkSignal.
  destruct (signalAborted sig w); apply quietStep_refl.
Qed.

Lemma checkSignal_world {sig : option nat} {w w' : World} {c : Completion unit} :
  checkSignal sig w = (c, w') -> w' = w.
Proof.
  unfold checkSignal. destruct (signalAborted sig w);
    intros [= _ <-]; reflexivity.
Qed.

Create HintDb frames.

#[local] Hint Resolve quietStep_refl quietStep_trans streamStep_refl
  streamStep_trans : frames.

Lemma awaitRead_quiet (env : Env) (sig : option nat) (i : nat) :
  keeps quietStep (awaitRead env sig i).
Proof.
  unfold awaitRead. apply keeps_bind; eauto with frames.
  - apply interleave_quiet.
  - intros _. apply checkSignal_quiet.
Qed.

Lemma responseJson_quiet (env : Env) (response : Response) :
  keeps quietStep (responseJson env response).
Proof.
  unfold responseJson. apply keeps_bind; eauto with frames.
  { apply interleave_quiet. }
  intros _. apply keeps_bind; eauto with frames.
  { apply checkSignal_quiet. }
  intros _. apply keeps_lift; eauto with frames.
Qed.

(** ** The stream decoder *)

Lemma addTokens_nil (onChunk : bool) (w : World) : addTokens onChunk [] w = w.
Proof. destruct onChunk, w; simpl; [|reflexivity]. by rewrite app_nil_r. Qed.

Lemma addTokens_app (onChunk : bool) (a b : list JSValue) (w : World) :
  addTokens onChunk b (addTokens onChunk a w) = addTokens onChunk (a ++ b) w.
Proof. destruct onChunk; simpl; [|reflexivity]. by rewrite app_assoc. Qed.

Lemma addTokens_tokens (onChunk : bool) (ds : list JSValue) (w : World) :
  tokens (addTokens onChunk ds w) = tokens w ++ (if onChunk then ds else []).
Proof. destruct onChunk; simpl; [reflexivity|]. by rewrite app_nil_r. Qed.

Lemma addTokens_streamStep (onChunk : bool) (ds : list JSValue) (w : World) :
  streamStep w (addTokens onChunk ds w).
Proof. destruct onChunk; repeat split; intros h Hh; by left. Qed.

Lemma addTokens_aborted (onChunk : bool) (ds : list JSValue) (w : World) :
  abortedSignals (addTokens onChunk ds w) = abortedSignals w.
Proof. by destruct onChunk. Qed.

Lemma addTokens_client (onChunk : bool) (ds : list JSValue) (w : World) :
  client (addTokens onChunk ds w) = client w.
Proof. by destruct onChunk. Qed.

Section Stream.
Context {nm : NumberModel}.

(** One turn of the [for] loop: the [try] block with its [catch]. *)
Lemma tryLine_spec (isOllama onChunk : bool) (line content : jsstring) (w : World) :
  tryCatch (lineBody isOllama onChunk line content) (fun _ => ret content) w
  = match lineDelta isOllama line with
    | Some (d, t) => (Normal (content ++ t), addTokens onChunk [d] w)
    | None => (Normal content, w)
    end.
Proof.
  unfold lineBody, lineDelta, tryCatch.
  destruct (lineData line) as [data|]; [|reflexivity].
  unfold bind, lift at 1.
  destruct (JSON.parse data) as [json|e]; [|reflexivity].
  unfold lift at 1.
  destruct (eventChunk isOllama json) as [chunk|e]; [|reflexivity].
  destruct (toBoolean chunk); [|reflexivity].
  unfold bind, liftOpt.
  destruct (toStringJS chunk) as [text|]; reflexivity.
Qed.

Lemma forLines_spec (isOllama onChunk : bool) (lines : list jsstring)
  (content : jsstring) (w : World) :
  forLines isOllama onChunk lines content w
  = (Normal (content ++ concat (map snd (linesDeltas isOllama lines))),
     addTokens onChunk (map fst (linesDeltas isOllama lines)) w).
Proof.
  revert content w. induction lines as [|line lines IH]; intros content w.
  - simpl. by rewrite app_nil_r, addTokens_nil.
  - cbn [forLines]. unfold bind at 1. rewrite tryLine_spec.
    unfold linesDeltas. cbn [omap list_omap].
    fold (linesDeltas isOllama lines).
    destruct (lineDelta isOllama line) as [[d t]|]; rewrite IH.
    + cbn [map fst snd concat]. rewrite addTokens_app, app_assoc. reflexivity.
    + reflexivity.
Qed.

Lemma linesDeltas_app (isOllama : bool) (a b : list jsstring) :
  linesDeltas isOllama (a ++ b) = linesDeltas isOllama a ++ linesDeltas isOllama b.
Proof. unfold linesDeltas. apply omap_app. Qed.

Lemma streamDeltas_cons (isOllama : bool) (v : jsstring) (vs : list jsstring) :
  streamDeltas isOllama (v :: vs)
  = chunkDeltas isOllama v ++ streamDeltas isOllama vs.
Proof. reflexivity. Qed.

(** A read loop that resolves: the stream ended without a failing read,
    the callback was invoked with exactly the deltas of the chunks, in
    order, and the message holds the concatenation of their texts. *)
Lemma readLoop_normal (env : Env) (isOllama onChunk : bool) (sig : option nat)
  (pending : list jsstring) (ending : option JSError) :
  forall (i : nat) (content : jsstring) (w w' : World) (v : JSValue),
    readLoop env isOllama onChunk sig i pending ending content w = (Normal v, w') ->
    ending = None
    /\ v = assistantMessage
             (content ++ concat (map snd (streamDeltas isOllama pending)))
    /\ tokens w' = tokens w
         ++ (if onChunk then map fst (streamDeltas isOllama pending) else []).
Proof.
  induction pending as [|value rest IH]; intros i content w w' v H.
  - cbn [readLoop] in H. unfold bind in H.
    pose proof (awaitRead_quiet env sig i w) as (Ht & _).
    destruct (awaitRead env sig i w) as [[[]|e] w1]; [|discriminate].
    simpl in Ht. destruct ending as [e|]; [discriminate|].
    injection H as <- <-. cbn [streamDeltas map concat].
    rewrite app_nil_r, Ht.
    split; [reflexivity|]. split; [reflexivity|].
    destruct onChunk; by rewrite app_nil_r.
  - cbn [readLoop] in H. unfold bind at 1 in H.
    pose proof (awaitRead_quiet env sig i w) as (Ht & _).
    destruct (awaitRead env sig i w) as [[[]|e] w1]; [|discriminate].
    simpl in Ht. cbn zeta in H. unfold bind at 1 in H.
    rewrite forLines_spec in H.
    apply IH in H as (He & Hv & Htok).
    rewrite streamDeltas_cons, map_app, concat_app, map_app.
    unfold chunkDeltas.
    split; [exact He|]. split.
    + rewrite Hv. by rewrite <- app_assoc.
    + rewrite Htok, addTokens_tokens, Ht.
      destruct onChunk; rewrite <- ?app_assoc; reflexivity.
Qed.

Lemma forLines_streamStep (isOllama onChunk : bool) (lines : list jsstring)
  (content : jsstring) : keeps streamStep (forLines isOllama onChunk lines content).
Proof. intros w. rewrite forLines_spec. apply addTokens_streamStep. Qed.

Lemma readLoop_streamStep (env : Env) (isOllama onChunk : bool)
  (sig : option nat) (pending : list jsstring) (ending : option JSError) :
  forall (i : nat) (content : jsstring),
    keeps streamStep (readLoop env isOllama onChunk sig i pending ending content).
Proof.
  induction pending as [|value rest IH]; intros i content; cbn [readLoop].
  - apply keeps_bind; eauto with frames.
    + intros w. apply quietStep_streamStep, awaitRead_quiet.
    + intros _. destruct ending; [apply keeps_throw | apply keeps_ret];
        eauto with frames.
  - apply keeps_bind; eauto with frames.
    + intros w. apply quietStep_streamStep, awaitRead_quiet.
    + intros _. apply keeps_bind; eauto with frames.
      apply forLines_streamStep.
Qed.

Lemma processStream_streamStep (env : Env) (response : Response) (onChunk : bool) :
  keeps streamStep (_processStream env response onChunk).
Proof.
  unfold _processStream. destruct (body response) as [b|].
  - apply keeps_bind; eauto with frames.
    + intros w. apply streamStep_refl.
    + intros s. apply readLoop_streamStep.
  - apply keeps_throw; eauto with frames.
Qed.

(** [_processStream] that resolves. *)
Lemma processStream_normal (env : Env) (response : Response) (onChunk : bool)
  (w w' : World) (v : JSValue) :
  _processStream env response onChunk w = (Normal v, w') ->
  exists b,
    body response = Some b /\ ending b = None
    /\ let ds := streamDeltas (_isOllama (_settings (client w))) (chunks b) in
       v = assistantMessage (concat (map snd ds))
       /\ tokens w' = tokens w ++ (if onChunk then map fst ds else []).
Proof.
  unfold _processStream. destruct (body response) as [b|]; [|discriminate].
  unfold bind, getSettings. intros H.
  apply readLoop_normal in H as (He & Hv & Ht).
  exists b. repeat split; assumption.
Qed.

End Stream.

(** ** Line-aligned chunks *)

Lemma split_lines_line (l rest : jsstring) :
  noLF l -> split_lines (l ++ LF :: rest) = l :: split_lines rest.
Proof.
  unfold noLF. induction l as [|c l IH]; intros Hl.
  - simpl. reflexivity.
  - apply not_elem_of_cons in Hl as [Hc Hl].
    change ((c :: l) ++ LF :: rest) with (c :: (l ++ LF :: rest)).
    cbn [split_lines]. rewrite (IH Hl).
    destruct (N.eqb_spec c LF); [congruence | reflexivity].
Qed.

Lemma split_lines_chunk (g : list jsstring) :
  Forall noLF g -> split_lines (chunkOfLines g) = g ++ [[]].
Proof.
  unfold chunkOfLines. induction 1 as [|l g Hl Hg IH]; [reflexivity|].
  cbn [map concat]. rewrite <- app_assoc. cbn [app].
  rewrite split_lines_line by assumption. by rewrite IH.
Qed.

Lemma nonBlank_nil : nonBlank [] = false.
Proof. reflexivity. Qed.

Lemma filter_nonBlank_chunk (g : list jsstring) :
  Forall noLF g ->
  List.filter nonBlank (split_lines (chunkOfLines g)) = List.filter nonBlank g.
Proof.
  intros Hg. rewrite split_lines_chunk by assumption.
  rewrite List.filter_app. simpl. by rewrite app_nil_r.
Qed.

Section QuietStream.
Context {nm : NumberModel}.

Lemma chunkDeltas_lines (isOllama : bool) (g : list jsstring) :
  Forall noLF g ->
  chunkDeltas isOllama (chunkOfLines g)
  = linesDeltas isOllama (List.filter nonBlank g).
Proof. intros Hg. unfold chunkDeltas. by rewrite filter_nonBlank_chunk. Qed.

(** The deltas of line-aligned chunks are those of the lines, whatever
    the grouping. *)
Lemma streamDeltas_groups (isOllama : bool) (groups : list (list jsstring)) :
  Forall (Forall noLF) groups ->
  streamDeltas isOllama (map chunkOfLines groups)
  = linesDeltas isOllama (List.filter nonBlank (concat groups)).
Proof.
  induction 1 as [|g groups Hg Hgs IH]; [reflexivity|].
  cbn [map concat]. rewrite streamDeltas_cons, IH, chunkDeltas_lines by assumption.
  by rewrite List.filter_app, linesDeltas_app.
Qed.

Lemma awaitRead_quietReads (env : Env) (sig : option nat) (i : nat) (w : World) :
  quietReads env ->
  awaitRead env sig i w
  = if signalAborted sig w then (Throw AbortError, w) else (Normal tt, w).
Proof.
  intros Hq. unfold awaitRead, bind, interleave, checkSignal.
  rewrite (Hq i). reflexivity.
Qed.

Lemma signalAborted_addTokens (sig : option nat) (onChunk : bool)
  (ds : list JSValue) (w : World) :
  signalAborted sig (addTokens onChunk ds w) = signalAborted sig w.
Proof. unfold signalAborted. by rewrite addTokens_aborted. Qed.

(** With no interleaved calls the read loop is: fail at the first read if
    the signal is already aborted, otherwise process every chunk and end as
    the body ends. *)
Lemma readLoop_quietReads (env : Env) (isOllama onChunk : bool)
  (sig : option nat) (ending : option JSError) (pending : list jsstring) :
  quietReads env ->
  forall (i : nat) (content : jsstring) (w : World),
    readLoop env isOllama onChunk sig i pending ending content w
    = if signalAborted sig w then (Throw AbortError, w)
      else
        let ds := streamDeltas isOllama pending in
        finishStream ending (content ++ concat (map snd ds))
          (addTokens onChunk (map fst ds) w).
Proof.
  intros Hq. induction pending as [|value rest IH]; intros i content w.
  - cbn [readLoop]. unfold bind. rewrite awaitRead_quietReads by assumption.
    destruct (signalAborted sig w); [reflexivity|].
    cbn. rewrite app_nil_r, addTokens_nil. by destruct ending.
  - cbn [readLoop]. unfold bind at 1. rewrite awaitRead_quietReads by assumption.
    destruct (signalAborted sig w) eqn:Hs; [reflexivity|].
    cbn zeta. unfold bind at 1. rewrite forLines_spec, IH.
    rewrite signalAborted_addTokens, Hs. cbn zeta.
    rewrite streamDeltas_cons, !map_app, concat_app, addTokens_app.
    unfold chunkDeltas. by rewrite <- app_assoc.
Qed.

Lemma processStream_quietReads (env : Env) (okFlag : bool) (st : N)
  (values : list jsstring) (fin : option JSError) (sig : option nat)
  (onChunk : bool) (w : World) :
  quietReads env ->
  _processStream env (streamResponse okFlag st values fin sig) onChunk w
  = if signalAborted sig w then (Throw AbortError, w)
    else
      let ds := streamDeltas (_isOllama (_settings (client w))) values in
      finishStream fin (concat (map snd ds))
        (addTokens onChunk (map fst ds) w).
Proof.
  intros Hq. unfold _processStream, streamResponse.
  cbn [body chunks signal ending].
  unfold bind, getSettings. by rewrite readLoop_quietReads.
Qed.

End QuietStream.

(** ** Blank lines and JSON *)

Lemma trimStart_nil_all (s : jsstring) :
  trimStart s = [] -> forallb isTrimSpace s = true.
Proof.
  induction s as [|c s IH]; [reflexivity|]. simpl.
  destruct (isTrimSpace c); [exact IH | discriminate].
Qed.

Lemma trimStart_all (s : jsstring) :
  forallb isTrimSpace (trimStart s) = true -> forallb isTrimSpace s = true.
Proof.
  induction s as [|c s IH]; [reflexivity|]. simpl.
  destruct (isTrimSpace c) eqn:E; [exact IH|]. simpl. by rewrite E.
Qed.

Lemma forallb_rev {A : Type} (f : A -> bool) (l : list A) :
  forallb f (rev l) = forallb f l.
Proof.
  induction l as [|a l IH]; [reflexivity|]. simpl.
  rewrite forallb_app, IH. simpl. rewrite andb_true_r. apply andb_comm.
Qed.

Lemma trim_nil_all (s : jsstring) :
  trim s = [] -> forallb isTrimSpace s = true.
Proof.
  unfold trim, trimEnd. intros H.
  apply trimStart_all. rewrite <- forallb_rev.
  apply trimStart_nil_all.
  apply (f_equal (@rev N)) in H. rewrite rev_involutive in H. exact H.
Qed.

(** A code unit that [trim] strips and JSON does not skip starts no JSON
    value. *)
Lemma trimSpace_not_json (c : N) :
  isTrimSpace c = true -> JSON.isWS c = false ->
  c <> 123 /\ c <> 91 /\ c <> dquote /\ c <> 116 /\ c <> 102 /\ c <> 110
  /\ c <> 45 /\ JSON.isDigit c = false /\ c <> 100.
Proof.
  unfold isTrimSpace, JSON.isWS, JSON.isDigit, dquote. intros H1 H2.
  repeat rewrite ?orb_true_iff, ?andb_true_iff, ?orb_false_iff,
    ?N.eqb_eq, ?N.eqb_neq, ?N.leb_le in *.
  assert (c = 11 \/ c = 12 \/ 160 <= c) as Hc by lia.
  repeat split; try lia.
  apply andb_false_iff. rewrite !N.leb_gt. lia.
Qed.

Lemma skipWS_all (s : jsstring) :
  forallb isTrimSpace s = true ->
  match JSON.skipWS s with
  | [] => True
  | c :: _ => isTrimSpace c = true /\ JSON.isWS c = false
  end.
Proof.
  induction s as [|c s IH]; [done|]. simpl. intros H.
  apply andb_true_iff in H as [Hc Hs].
  destruct (JSON.isWS c) eqn:E; [by apply IH | by split].
Qed.

Lemma parseValue_all_space (fuel : nat) (s : jsstring) :
  forallb isTrimSpace s = true -> JSON.parseValue fuel s = None.
Proof.
  intros H. destruct fuel as [|fuel]; [reflexivity|]. cbn [JSON.parseValue].
  pose proof (skipWS_all s H) as Hs.
  destruct (JSON.skipWS s) as [|c r]; [reflexivity|].
  destruct Hs as [Ht Hw].
  destruct (trimSpace_not_json c Ht Hw) as (H1&H2&H3&H4&H5&H6&H7&H8&_).
  apply N.eqb_neq in H1, H2, H3, H4, H5, H6, H7.
  rewrite H1, H2, H3, H4, H5, H6.
  unfold JSON.parseNumber. rewrite H7. cbn [JSON.takeDigits]. rewrite H8.
  reflexivity.
Qed.

Lemma parse_all_space (s : jsstring) :
  forallb isTrimSpace s = true -> JSON.parse s = Throw SyntaxError.
Proof. intros H. unfold JSON.parse. by rewrite parseValue_all_space. Qed.

Lemma lineData_all_space (s : jsstring) :
  forallb isTrimSpace s = true -> lineData s = Some s.
Proof.
  intros H. unfold lineData.
  destruct s as [|c s]; [reflexivity|].
  simpl in H. apply andb_true_iff in H as [Hc _].
  assert (c <> 100) as Hd.
  { intros ->. vm_compute in Hc. discriminate. }
  apply N.eqb_neq in Hd.
  change (lit "data: ") with (100 :: lit "ata: ").
  cbn [startsWith]. by rewrite Hd.
Qed.

(** A line whose payload parses is not blank: the filter keeps it. *)
Lemma parsed_line_nonBlank (line data : jsstring) (json : JSValue) :
  lineData line = Some data -> JSON.parse data = Normal json ->
  nonBlank line = true.
Proof.
  intros Hd Hp. unfold nonBlank.
  destruct (bool_decide (trim line = [])) eqn:E; [|reflexivity].
  apply bool_decide_eq_true in E. apply trim_nil_all in E.
  rewrite (lineData_all_space line E) in Hd. injection Hd as <-.
  rewrite (parse_all_space line E) in Hp. discriminate.
Qed.

(** ** Segmentation of the body (C2) and malformed lines (C5) *)

Section Segmentation.
Context {nm : NumberModel}.

(** C2 (as amended): when every chunk of the body consists of whole lines
    (each ended by a line feed), the outcome of [_processStream] (the
    callback invocations, the resolved message or the failure, and the final
    state) depends only on the sequence of lines, not on how the lines are
    grouped into chunks: one line per chunk, several lines per chunk, and
    all lines in one chunk give the same outcome. *)
Theorem processStream_line_aligned_segmentation
  (env : Env) (groups1 groups2 : list (list jsstring))
  (okFlag : bool) (st : N) (fin : option JSError) (sig : option nat)
  (onChunk : bool) (w : World) :
  quietReads env ->
  Forall (Forall noLF) groups1 -> Forall (Forall noLF) groups2 ->
  concat groups1 = concat groups2 ->
  _processStream env
    (streamResponse okFlag st (map chunkOfLines groups1) fin sig) onChunk w
  = _processStream env
      (streamResponse okFlag st (map chunkOfLines groups2) fin sig) onChunk w.
Proof.
  intros Hq H1 H2 Heq.
  rewrite !processStream_quietReads by assumption.
  rewrite !streamDeltas_groups by assumption.
  by rewrite Heq.
Qed.

Lemma deltaLine_lineDelta (isOllama : bool) (line : jsstring) (d : JSValue)
  (t : jsstring) :
  deltaLine isOllama line d t -> lineDelta isOllama line = Some (d, t).
Proof.
  intros (data & json & Hd & Hp & He & Hb & Ht).
  unfold lineDelta. by rewrite Hd, Hp, He, Hb, Ht.
Qed.

Lemma deltaLine_nonBlank (isOllama : bool) (line : jsstring) (d : JSValue)
  (t : jsstring) :
  deltaLine isOllama line d t -> nonBlank line = true.
Proof.
  intros (data & json & Hd & Hp & _). eapply parsed_line_nonBlank; eassumption.
Qed.

Lemma linesDeltas_deltaLine (isOllama : bool) (line : jsstring) (d : JSValue)
  (t : jsstring) :
  deltaLine isOllama line d t ->
  linesDeltas isOllama (List.filter nonBlank [line]) = [(d, t)].
Proof.
  intros H. cbn [List.filter]. rewrite (deltaLine_nonBlank _ _ _ _ H).
  unfold linesDeltas. cbn [omap list_omap].
  by rewrite (deltaLine_lineDelta _ _ _ _ H).
Qed.

Lemma carries_lineData (line payload : jsstring) :
  carries line payload ->
  lineData line = (if jsstring_eqb payload (lit "[DONE]") then None
                   else Some payload)
  \/ lineData line = Some payload.
Proof.
  unfold lineData. intros [->|[-> Hs]].
  - left. rewrite startsWith_app. reflexivity.
  - right. by rewrite Hs.
Qed.

Lemma eventHolds_eventChunk (isOllama : bool) (json d : JSValue) :
  eventHolds isOllama json d -> toBoolean d = true ->
  eventChunk isOllama json = Normal d.
Proof.
  unfold eventHolds, eventChunk, orElse, optField, optIndex0.
  intros H Hb. destruct isOllama.
  - destruct H as (props & mprops & -> & Hm & Hc).
    cbn [getField]. rewrite Hm.
    cbn [default from_option id cbind isNullish getField]. rewrite Hc.
    cbn [default from_option id cbind]. by rewrite Hb.
  - destruct H as (props & cprops & rest & dprops & -> & Hcs & Hd & Hc).
    cbn [getField]. rewrite Hcs.
    cbn [default from_option id cbind isNullish getIndex0 head getField].
    rewrite Hd. cbn [default from_option id cbind isNullish getField].
    rewrite Hc. cbn [default from_option id cbind]. by rewrite Hb.
Qed.

(** The decoder reads a valid delta-bearing line as bearing its delta. *)
Lemma deltaBearingLine_deltaLine (isOllama : bool) (line : jsstring)
  (d : JSValue) (t : jsstring) :
  deltaBearingLine isOllama line d t -> deltaLine isOllama line d t.
Proof.
  intros (payload & json & Hc & Hp & He & Hb & Ht).
  exists payload, json. split; [|split; [exact Hp|]].
  - destruct (carries_lineData line payload Hc) as [->| ->]; [|reflexivity].
    unfold jsstring_eqb. rewrite bool_decide_false; [reflexivity|].
    intros ->. vm_compute in Hp. discriminate.
  - split; [by apply eventHolds_eventChunk|]. by split.
Qed.

(** The decoder gets nothing from a line whose payload is not valid JSON. *)
Lemma invalidJsonLine_lineDelta (isOllama : bool) (line : jsstring) :
  invalidJsonLine line -> lineDelta isOllama line = None.
Proof.
  intros (payload & Hc & Hp). unfold lineDelta.
  destruct (carries_lineData line payload Hc) as [->| ->].
  - destruct (jsstring_eqb payload (lit "[DONE]")); [reflexivity|].
    by rewrite Hp.
  - by rewrite Hp.
Qed.

Lemma linesDeltas_invalid (isOllama : bool) (line : jsstring) :
  invalidJsonLine line ->
  linesDeltas isOllama (List.filter nonBlank [line]) = [].
Proof.
  intros H. cbn [List.filter]. destruct (nonBlank line); [|reflexivity].
  unfold linesDeltas. cbn [omap list_omap].
  by rewrite (invalidJsonLine_lineDelta _ _ H).
Qed.

(** C5 (as amended): a body delivered in chunks of whole lines in which a
    line that is not valid JSON stands between two valid delta-bearing
    lines.  The decoder delivers the delta of the line before and the delta
    of the line after and nothing for the invalid line, keeps processing
    the lines that follow, and resolves with the concatenated text; no
    error is raised.  A valid line is one whose payload (after the marker
    [data: ], if any) is the JSON text of an event holding a truthy delta,
    under either dialect. *)
Theorem processStream_skips_malformed_line
  (env : Env) (groups : list (list jsstring))
  (before after : list jsstring) (l1 bad l2 : jsstring)
  (d1 d2 : JSValue) (t1 t2 : jsstring)
  (okFlag : bool) (st : N) (sig : option nat) (onChunk : bool) (w : World) :
  let isOllama := _isOllama (_settings (client w)) in
  quietReads env -> signalAborted sig w = false ->
  Forall (Forall noLF) groups ->
  concat groups = before ++ [l1; bad; l2] ++ after ->
  deltaBearingLine isOllama l1 d1 t1 -> invalidJsonLine bad ->
  deltaBearingLine isOllama l2 d2 t2 ->
  let pre := linesDeltas isOllama (List.filter nonBlank before) in
  let post := linesDeltas isOllama (List.filter nonBlank after) in
  _processStream env
    (streamResponse okFlag st (map chunkOfLines groups) None sig) onChunk w
  = (Normal (assistantMessage
               (concat (map snd pre) ++ t1 ++ t2 ++ concat (map snd post))),
     addTokens onChunk (map fst pre ++ [d1; d2] ++ map fst post) w).
Proof.
  intros isOllama Hq Hs Hg Hc H1 Hb H2 pre post.
  apply deltaBearingLine_deltaLine in H1, H2.
  rewrite processStream_quietReads by assumption. rewrite Hs. cbn zeta.
  fold isOllama. rewrite streamDeltas_groups by assumption. rewrite Hc.
  change [l1; bad; l2] with ([l1] ++ [bad] ++ [l2]).
  rewrite !List.filter_app, !linesDeltas_app.
  rewrite (linesDeltas_deltaLine _ _ _ _ H1), (linesDeltas_deltaLine _ _ _ _ H2),
    (linesDeltas_invalid _ _ Hb).
  fold pre post. rewrite !map_app, !concat_app. cbn [map fst snd concat app].
  rewrite app_nil_r, <- !app_assoc. reflexivity.
Qed.

End Segmentation.

Lemma quietEnv_quietReads (t : FetchRequest -> FetchOutcome) : quietReads (quietEnv t).
Proof. intros i. reflexivity. Qed.

Lemma processStream_line_aligned_segmentation_witness :
  _processStream (nm := literalNumbers) (quietEnv (serves true 200 []))
    (streamResponse true 200 (map chunkOfLines [[lineHel]; [lineLo]]) None None)
    true (sampleWorld localSettings)
  = _processStream (nm := literalNumbers) (quietEnv (serves true 200 []))
      (streamResponse true 200 (map chunkOfLines [[lineHel; lineLo]]) None None)
      true (sampleWorld localSettings).
Proof.
  apply (processStream_line_aligned_segmentation (nm := literalNumbers)).
  - apply quietEnv_quietReads.
  - apply (bool_decide_unpack _). vm_compute. exact I.
  - apply (bool_decide_unpack _). vm_compute. exact I.
  - reflexivity.
Defined.

(** C2 (as stated) fails: the same bytes, delivered with a chunk boundary
    inside the first line, lose that line's delta. *)
Lemma processStream_split_line_loses_delta :
  let whole := [lineHel ++ [LF] ++ lineLo ++ [LF]] in
  let split := [take 20 lineHel; drop 20 lineHel ++ [LF] ++ lineLo ++ [LF]] in
  let run values :=
    _processStream (nm := literalNumbers) (quietEnv (serves true 200 values))
      (streamResponse true 200 values None None) true (sampleWorld localSettings) in
  concat whole = concat split
  /\ fst (run whole) = Normal (assistantMessage (lit "Hello"))
  /\ tokens (snd (run whole)) = [JSString (lit "Hel"); JSString (lit "lo")]
  /\ fst (run split) = Normal (assistantMessage (lit "lo"))
  /\ tokens (snd (run split)) = [JSString (lit "lo")].
Proof. repeat split; vm_compute; reflexivity. Qed.

Lemma lineHel_bears_delta :
  deltaBearingLine (nm := literalNumbers) true lineHel (JSString (lit "Hel"))
    (lit "Hel").
Proof.
  exists lineHel. eexists. split; [right; split; reflexivity|].
  split; [vm_compute; reflexivity|].
  split; [|split; reflexivity].
  eexists _, _. repeat split; vm_compute; reflexivity.
Qed.

Lemma lineLo_bears_delta :
  deltaBearingLine (nm := literalNumbers) true lineLo (JSString (lit "lo"))
    (lit "lo").
Proof.
  exists lineLo. eexists. split; [right; split; reflexivity|].
  split; [vm_compute; reflexivity|].
  split; [|split; reflexivity].
  eexists _, _. repeat split; vm_compute; reflexivity.
Qed.

Lemma lineBroken_invalid : invalidJsonLine lineBroken.
Proof.
  exists lineBroken. split; [right; split; reflexivity | vm_compute; reflexivity].
Qed.

Lemma sseHel_bears_delta :
  deltaBearingLine (nm := literalNumbers) false sseHel (JSString (lit "Hel"))
    (lit "Hel").
Proof.
  exists (drop 6 sseHel). eexists. split; [left; vm_compute; reflexivity|].
  split; [vm_compute; reflexivity|].
  split; [|split; reflexivity].
  eexists _, _, _, _. repeat split; vm_compute; reflexivity.
Qed.

Lemma sseLo_bears_delta :
  deltaBearingLine (nm := literalNumbers) false sseLo (JSString (lit "lo"))
    (lit "lo").
Proof.
  exists (drop 6 sseLo). eexists. split; [left; vm_compute; reflexivity|].
  split; [vm_compute; reflexivity|].
  split; [|split; reflexivity].
  eexists _, _, _, _. repeat split; vm_compute; reflexivity.
Qed.

Lemma sseBroken_invalid : invalidJsonLine sseBroken.
Proof.
  exists (drop 6 sseBroken).
  split; [left; vm_compute; reflexivity | vm_compute; reflexivity].
Qed.

(** The amended C5 at a body of each dialect: three lines of the local
    dialect in two chunks, and three marked lines of the OpenAI-compatible
    dialect followed by the sentinel in one chunk. *)
Lemma processStream_skips_malformed_line_witness :
  _processStream (nm := literalNumbers) (quietEnv (serves true 200 []))
    (streamResponse true 200
       (map chunkOfLines [[lineHel; lineBroken]; [lineLo]]) None None)
    true (sampleWorld localSettings)
  = (Normal (assistantMessage (lit "Hello")),
     addTokens true [JSString (lit "Hel"); JSString (lit "lo")]
       (sampleWorld localSettings))
  /\ _processStream (nm := literalNumbers) (quietEnv (serves true 200 []))
       (streamResponse true 200
          (map chunkOfLines [[sseHel; sseBroken; sseLo; sseDone]]) None None)
       true (sampleWorld openaiSettings)
     = (Normal (assistantMessage (lit "Hello")),
        addTokens true [JSString (lit "Hel"); JSString (lit "lo")]
          (sampleWorld openaiSettings)).
Proof.
  split.
  - apply (processStream_skips_malformed_line (nm := literalNumbers)
             (quietEnv (serves true 200 [])) [[lineHel; lineBroken]; [lineLo]]
             [] [] lineHel lineBroken lineLo
             (JSString (lit "Hel")) (JSString (lit "lo")) (lit "Hel") (lit "lo")).
    + apply quietEnv_quietReads.
    + reflexivity.
    + apply (bool_decide_unpack _). vm_compute. exact I.
    + reflexivity.
    + exact lineHel_bears_delta.
    + exact lineBroken_invalid.
    + exact lineLo_bears_delta.
  - apply (processStream_skips_malformed_line (nm := literalNumbers)
             (quietEnv (serves true 200 [])) [[sseHel; sseBroken; sseLo; sseDone]]
             [] [sseDone] sseHel sseBroken sseLo
             (JSString (lit "Hel")) (JSString (lit "lo")) (lit "Hel") (lit "lo")).
    + apply quietEnv_quietReads.
    + reflexivity.
    + apply (bool_decide_unpack _). vm_compute. exact I.
    + reflexivity.
    + exact sseHel_bears_delta.
    + exact sseBroken_invalid.
    + exact sseLo_bears_delta.
Defined.

(** C5 (as stated) fails for a body whose chunk boundary falls inside a
    valid line: the body holds a valid line, an invalid line and a valid
    line, and the decoder yields the delta of the last line only. *)
Lemma processStream_malformed_line_after_cut_line :
  let values :=
    [take 20 lineHel;
     drop 20 lineHel ++ [LF] ++ lineBroken ++ [LF] ++ lineLo ++ [LF]] in
  let run :=
    _processStream (nm := literalNumbers) (quietEnv (serves true 200 values))
      (streamResponse true 200 values None None) true (sampleWorld localSettings) in
  concat values = chunkOfLines [lineHel; lineBroken; lineLo]
  /\ deltaBearingLine (nm := literalNumbers) true lineHel (JSString (lit "Hel"))
       (lit "Hel")
  /\ invalidJsonLine lineBroken
  /\ deltaBearingLine (nm := literalNumbers) true lineLo (JSString (lit "lo"))
       (lit "lo")
  /\ fst run = Normal (assistantMessage (lit "lo"))
  /\ tokens (snd run) = [JSString (lit "lo")]
  /\ tokens (snd run) <> [JSString (lit "Hel"); JSString (lit "lo")].
Proof.
  split; [vm_compute; reflexivity|].
  split; [exact lineHel_bears_delta|].
  split; [exact lineBroken_invalid|].
  split; [exact lineLo_bears_delta|].
  split; [vm_compute; reflexivity|].
  split; [vm_compute; reflexivity|].
  vm_compute. discriminate.
Qed.

(** ** [chat], step by step *)

Lemma fetch_inv (env : Env) (req : FetchRequest) (w w' : World)
  (r : Completion Response) :
  fetch env req w = (r, w') ->
  requests w' = requests w ++ [req]
  /\ tokens w' = tokens w
  /\ nextController w' = nextController w
  /\ _abortController (client w') = _abortController (client w)
  /\ abortsOwn w w'
  /\ _settings (client w') = settingsAfter (duringFetch env) (_settings (client w))
  /\ (forall resp, r = Normal resp ->
      exists o st b,
        transport env req = Resolves o st b
        /\ resp = {| ok := o; status := st; body := b; signal := req_signal req |}).
Proof.
  unfold fetch, bind, logRequest, interleave.
  set (wl := {| client := client w; nextController := nextController w;
                abortedSignals := abortedSignals w;
                requests := requests w ++ [req]; tokens := tokens w |}).
  set (wi := foldl (fun w' c => runCall c w') wl (duringFetch env)).
  pose proof (runCalls_quiet (duringFetch env) wl) as (Ht & Hr & Hn & Ha & Hg).
  pose proof (runCalls_settings (duringFetch env) wl) as Hs.
  fold wi in Ht, Hr, Hn, Ha, Hg, Hs.
  assert (abortsOwn w wi) as Hg' by exact Hg.
  unfold checkSignal. destruct (signalAborted (req_signal req) wi).
  - intros [= <- <-]. repeat split; try assumption. discriminate.
  - destruct (transport env req) as [e|o st b] eqn:Htr.
    + intros [= <- <-]. repeat split; try assumption. discriminate.
    + intros [= <- <-]. repeat split; try assumption.
      intros resp [= <-]. by exists o, st, b.
Qed.

Lemma settingsAfter_app (a b : list Call) (s : OllamaSettings) :
  settingsAfter (a ++ b) s = settingsAfter b (settingsAfter a s).
Proof. unfold settingsAfter. apply foldl_app. Qed.

Lemma responseJson_inv (env : Env) (response : Response) (w w' : World)
  (data : JSValue) :
  responseJson env response w = (Normal data, w') ->
  bodyJson response = Normal data
  /\ _settings (client w') = settingsAfter (duringJson env) (_settings (client w)).
Proof.
  unfold responseJson, bind, interleave.
  set (wi := foldl (fun w' c => runCall c w') w (duringJson env)).
  pose proof (runCalls_settings (duringJson env) w) as Hs. fold wi in Hs.
  unfold checkSignal. destruct (signalAborted (signal response) wi); [discriminate|].
  unfold lift. intros [= -> <-]. by split.
Qed.

Section Chat.
Context {nm : NumberModel}.

Lemma chat_unfold (env : Env) (options : ChatOptions) (onChunk : bool) (w : World) :
  chat env options onChunk w
  = bind (fetch env (chatRequest (_settings (client w)) options (nextController w)))
         (chatContinue env options onChunk) (allocated w).
Proof. reflexivity. Qed.

Lemma throwError_throws (v : JSValue) (w : World) :
  exists e, throwError (A := JSValue) v w = (Throw e, w).
Proof. unfold throwError. destruct (toStringJS v); eexists; reflexivity. Qed.

(** The branch for a non-success status never resolves. *)
Lemma failWithApiError_throws (env : Env) (response : Response) (w : World) :
  exists e w', failWithApiError env response w = (Throw e, w').
Proof.
  unfold failWithApiError, bind, tryCatch.
  assert (forall error w1, exists e w',
    match lift (getField error "error") w1 with
    | (Normal e1, w2) =>
        match lift (optField e1 "message") w2 with
        | (Normal m1, w3) =>
            match (if toBoolean m1 then ret m1
                   else lift (getField error "message")) w3 with
            | (Normal m2, w4) =>
                throwError (A := JSValue)
                  (orElse m2 (JSString (lit "API error: "
                                        ++ decimal (status response)))) w4
            | (Throw e, w4) => (Throw e, w4)
            end
        | (Throw e, w3) => (Throw e, w3)
        end
    | (Throw e, w2) => (Throw e, w2)
    end = (Throw e, w')) as Hrest.
  { intros error w1. unfold lift.
    destruct (getField error "error") as [e1|]; [|eauto].
    destruct (optField e1 "message") as [m1|]; [|eauto].
    destruct (toBoolean m1); cbn [ret].
    - destruct (throwError_throws (orElse m1
        (JSString (lit "API error: " ++ decimal (status response)))) w1) as [e He].
      rewrite He. eauto.
    - destruct (getField error "message") as [m2|]; [|eauto].
      destruct (throwError_throws (orElse m2
        (JSString (lit "API error: " ++ decimal (status response)))) w1) as [e He].
      rewrite He. eauto. }
  destruct (responseJson env response w) as [[error|e0] w1];
    cbn [ret]; apply Hrest.
Qed.

Lemma failWithApiError_quiet (env : Env) (response : Response) :
  keeps quietStep (failWithApiError env response).
Proof.
  unfold failWithApiError.
  apply keeps_bind; eauto with frames.
  { apply keeps_tryCatch; eauto with frames.
    - apply responseJson_quiet.
    - intros _. apply keeps_ret; eauto with frames. }
  intros error. apply keeps_bind; eauto with frames.
  { apply keeps_lift; eauto with frames. }
  intros e1. apply keeps_bind; eauto with frames.
  { apply keeps_lift; eauto with frames. }
  intros m1. apply keeps_bind; eauto with frames.
  { destruct (toBoolean m1); [apply keeps_ret | apply keeps_lift];
      eauto with frames. }
  intros m2 w. destruct (throwError_throws (orElse m2
        (JSString (lit "API error: " ++ decimal (status response)))) w) as [e He].
  rewrite He. apply quietStep_refl.
Qed.

Lemma decodeWhole_quiet (env : Env) (response : Response) :
  keeps quietStep (decodeWhole env response).
Proof.
  unfold decodeWhole.
  apply keeps_bind; eauto with frames.
  { apply responseJson_quiet. }
  intros data. apply keeps_bind; eauto with frames.
  { intros w. apply quietStep_refl. }
  intros s'. apply keeps_lift; eauto with frames.
Qed.

Lemma chatContinue_streamStep (env : Env) (options : ChatOptions)
  (onChunk : bool) (response : Response) :
  keeps streamStep (chatContinue env options onChunk response).
Proof.
  unfold chatContinue. destruct (negb (ok response)).
  - intros w. apply quietStep_streamStep, failWithApiError_quiet.
  - destruct (negb (opt_stream options)).
    + intros w. apply quietStep_streamStep, decodeWhole_quiet.
    + apply processStream_streamStep.
Qed.

(** Whatever the outcome, [chat] calls the transport exactly once, with the
    request built from the settings and options it started with, and leaves
    the controller it allocated in the client. *)
Lemma chat_inv (env : Env) (options : ChatOptions) (onChunk : bool)
  (w w' : World) (r : Completion JSValue) :
  chat env options onChunk w = (r, w') ->
  requests w'
    = requests w ++ [chatRequest (_settings (client w)) options (nextController w)]
  /\ nextController w' = S (nextController w)
  /\ _abortController (client w') = Some (nextController w).
Proof.
  rewrite chat_unfold. unfold bind.
  destruct (fetch env _ (allocated w)) as [rf w1] eqn:Hf.
  apply fetch_inv in Hf as (Hr & _ & Hn & Ha & _).
  cbn in Hr, Hn, Ha.
  destruct rf as [resp|e].
  - intros H.
    pose proof (chatContinue_streamStep env options onChunk resp w1)
      as (Kr & Kn & Ka & _).
    rewrite H in Kr, Kn, Ka. cbn [snd] in Kr, Kn, Ka.
    repeat split; congruence.
  - intros [= <- <-]. repeat split; assumption.
Qed.

End Chat.

(** ** Handles stay below the allocation counter *)

Lemma wellFormed_step (a b : World) :
  wellFormed a ->
  nextController b = nextController a ->
  _abortController (client b) = _abortController (client a) ->
  abortsOwn a b ->
  wellFormed b.
Proof.
  intros [H1 H2] Hn Hc Hg. split.
  - intros h Hh. rewrite Hn. destruct (Hg h Hh) as [H|H]; [by apply H1 | by apply H2].
  - intros h Hh. rewrite Hn. apply H2. congruence.
Qed.

Lemma wellFormed_allocated (w : World) : wellFormed w -> wellFormed (allocated w).
Proof.
  intros [H1 H2]. split; cbn.
  - intros h Hh. specialize (H1 h Hh). lia.
  - intros h [= <-]. lia.
Qed.

Lemma wellFormed_sampleWorld (s : OllamaSettings) : wellFormed (sampleWorld s).
Proof. split; cbn; [intros h Hh; by apply not_elem_of_empty in Hh | discriminate]. Qed.

Section ChatProperties.
Context {nm : NumberModel}.

Lemma chat_wellFormed (env : Env) (options : ChatOptions) (onChunk : bool)
  (w : World) :
  wellFormed w -> wellFormed (snd (chat env options onChunk w)).
Proof.
  intros Hw. rewrite chat_unfold. unfold bind.
  apply wellFormed_allocated in Hw.
  destruct (fetch env _ (allocated w)) as [rf w1] eqn:Hf.
  apply fetch_inv in Hf as (_ & _ & Hn & Ha & Hg & _).
  pose proof (wellFormed_step _ _ Hw Hn Ha Hg) as Hw1.
  destruct rf as [resp|e]; [|exact Hw1].
  pose proof (chatContinue_streamStep env options onChunk resp w1)
    as (_ & Kn & Ka & Kg).
  exact (wellFormed_step _ _ Hw1 Kn Ka Kg).
Qed.

Lemma lineDelta_text (isOllama : bool) (line : jsstring) (d : JSValue)
  (t : jsstring) :
  lineDelta isOllama line = Some (d, t) -> toStringJS d = Some t.
Proof.
  unfold lineDelta. destruct (lineData line) as [data|]; [|discriminate].
  destruct (JSON.parse data) as [json|]; [|discriminate].
  destruct (eventChunk isOllama json) as [chunk|]; [|discriminate].
  destruct (toBoolean chunk); [|discriminate].
  destruct (toStringJS chunk) as [text|] eqn:E; [|discriminate].
  by intros [= <- <-].
Qed.

Lemma linesDeltas_text (isOllama : bool) (lines : list jsstring) :
  Forall (fun p => toStringJS (fst p) = Some (snd p)) (linesDeltas isOllama lines).
Proof.
  unfold linesDeltas. induction lines as [|l lines IH]; [constructor|].
  cbn [omap list_omap]. destruct (lineDelta isOllama l) as [[d t]|] eqn:E; [|exact IH].
  constructor; [|exact IH]. by apply (lineDelta_text isOllama l).
Qed.

Lemma streamDeltas_text (isOllama : bool) (values : list jsstring) :
  Forall (fun p => toStringJS (fst p) = Some (snd p)) (streamDeltas isOllama values).
Proof.
  induction values as [|v values IH]; [constructor|].
  rewrite streamDeltas_cons. apply Forall_app. split; [|exact IH].
  apply linesDeltas_text.
Qed.

Lemma Forall2_fst_snd {X Y : Type} (R : X -> Y -> Prop) (l : list (X * Y)) :
  Forall (fun p => R (fst p) (snd p)) l -> Forall2 R (map fst l) (map snd l).
Proof. induction 1; constructor; assumption. Qed.

Lemma decodeWhole_inv (env : Env) (response : Response) (w w' : World)
  (v : JSValue) :
  decodeWhole env response w = (Normal v, w') ->
  exists data,
    bodyJson response = Normal data
    /\ decodePayload
         (_isOllama (settingsAfter (duringJson env) (_settings (client w)))) data
       = Normal v.
Proof.
  unfold decodeWhole, bind.
  destruct (responseJson env response w) as [[data|e] w1] eqn:Hj; [|discriminate].
  apply responseJson_inv in Hj as [Hb Hs].
  unfold getSettings, lift. rewrite Hs. intros [= H _]. by exists data.
Qed.

(** A call that resolves went through the success branch. *)
Lemma chat_normal_inv (env : Env) (options : ChatOptions) (onChunk : bool)
  (w w' : World) (v : JSValue) :
  chat env options onChunk w = (Normal v, w') ->
  exists st body w1,
    transport env (chatRequest (_settings (client w)) options (nextController w))
      = Resolves true st body
    /\ tokens w1 = tokens w
    /\ _settings (client w1)
       = settingsAfter (duringFetch env) (_settings (client w))
    /\ (if negb (opt_stream options)
        then decodeWhole env
        else fun r => _processStream env r onChunk)
         {| ok := true; status := st; body := body;
            signal := Some (nextController w) |} w1
       = (Normal v, w').
Proof.
  intros H. rewrite chat_unfold in H. unfold bind in H.
  destruct (fetch env _ (allocated w)) as [rf w1] eqn:Hf.
  apply fetch_inv in Hf as (_ & Ht & _ & _ & _ & Hs & Hresp).
  destruct rf as [resp|e]; [|discriminate].
  destruct (Hresp resp eq_refl) as (o & st & b0 & Htr & ->).
  unfold chatContinue in H. cbn [ok] in H. destruct o; cbn [negb] in H.
  - exists st, b0, w1. split; [exact Htr|]. split; [exact Ht|]. split; [exact Hs|].
    cbn [chatRequest req_signal] in H. by destruct (negb (opt_stream options)).
  - destruct (failWithApiError_throws env
                {| ok := false; status := st; body := b0;
                   signal := req_signal
                     (chatRequest (_settings (client w)) options (nextController w)) |}
                w1) as (e & w2 & He).
    rewrite He in H. discriminate.
Qed.

(** A streaming call that resolves. *)
Lemma chat_stream_inv (env : Env) (options : ChatOptions) (onChunk : bool)
  (w w' : World) (msg : JSValue) :
  opt_stream options = true ->
  chat env options onChunk w = (Normal msg, w') ->
  exists st b,
    transport env (chatRequest (_settings (client w)) options (nextController w))
      = Resolves true st (Some b)
    /\ ending b = None
    /\ (let ds :=
           streamDeltas
             (_isOllama (settingsAfter (duringFetch env) (_settings (client w))))
             (chunks b) in
         msg = assistantMessage (concat (map snd ds))
         /\ tokens w' = tokens w ++ (if onChunk then map fst ds else [])).
Proof.
  intros Hstream H.
  apply chat_normal_inv in H as (st & bd & w1 & Htr & Ht & Hs & H).
  rewrite Hstream in H. cbn [negb] in H.
  apply processStream_normal in H as (b & Hb & He & Hv & Htok).
  cbn [body] in Hb. subst bd. rewrite Hs in Hv, Htok. rewrite Ht in Htok.
  exists st, b. by repeat split.
Qed.

(** A non-streaming call that resolves. *)
Lemma chat_whole_inv (env : Env) (options : ChatOptions) (onChunk : bool)
  (w w' : World) (v : JSValue) :
  opt_stream options = false ->
  chat env options onChunk w = (Normal v, w') ->
  exists st body data,
    transport env (chatRequest (_settings (client w)) options (nextController w))
      = Resolves true st body
    /\ bodyJson {| ok := true; status := st; body := body;
                   signal := Some (nextController w) |} = Normal data
    /\ decodePayload
         (_isOllama (settingsAfter (duringFetch env ++ duringJson env)
                       (_settings (client w)))) data
       = Normal v.
Proof.
  intros Hstream H.
  apply chat_normal_inv in H as (st & bd & w1 & Htr & Ht & Hs & H).
  rewrite Hstream in H. cbn [negb] in H.
  apply decodeWhole_inv in H as (data & Hb & Hd).
  rewrite Hs, <- settingsAfter_app in Hd.
  by exists st, bd, data.
Qed.

(** C1: a streaming [chat] call that resolves.  The response was a success
    whose body ended normally; the callback was invoked, before the call
    resolved (the invocations are in the state the call resolves in), once
    per delta and in the order the deltas were decoded from the chunks of
    the body; the returned message has role [assistant] and its content is
    the concatenation, in invocation order, of the string forms of the
    callback arguments. *)
Theorem chat_stream_tokens_reassemble
  (env : Env) (options : ChatOptions) (w w' : World) (msg : JSValue) :
  opt_stream options = true ->
  chat env options true w = (Normal msg, w') ->
  exists (st : N) (b : BodyStream) (calls : list JSValue) (texts : list jsstring),
    transport env (chatRequest (_settings (client w)) options (nextController w))
      = Resolves true st (Some b)
    /\ ending b = None
    /\ (let ds :=
          streamDeltas
            (_isOllama (settingsAfter (duringFetch env) (_settings (client w))))
            (chunks b) in
        calls = map fst ds /\ texts = map snd ds)
    /\ tokens w' = tokens w ++ calls
    /\ Forall2 (fun d t => toStringJS d = Some t) calls texts
    /\ msg = messageObject (JSString (lit "assistant")) (JSString (concat texts)).
Proof.
  intros Hstream H.
  destruct (chat_stream_inv env options true w w' msg Hstream H)
    as (st & b & Htr & He & Hv & Htok).
  eexists st, b, _, _. split; [exact Htr|]. split; [exact He|].
  split; [split; reflexivity|]. split; [exact Htok|].
  split; [|exact Hv].
  apply Forall2_fst_snd, streamDeltas_text.
Qed.

(** C3 (as amended): [chat] validates neither the model identifier nor the
    message list.  Whatever the options (an empty model and an empty message
    list included) and whatever the outcome, the call invokes the transport
    exactly once, with a POST to the chat endpoint whose body carries the
    model and the messages as given. *)
Theorem chat_issues_one_request_unvalidated
  (env : Env) (options : ChatOptions) (onChunk : bool) (w : World) :
  exists req body,
    requests (snd (chat env options onChunk w)) = requests w ++ [req]
    /\ req_url req = _getChatEndpoint (_settings (client w))
    /\ req_method req = POST
    /\ req_body req = Some body
    /\ getField body "model" = Normal (JSString (opt_model options))
    /\ getField body "messages"
       = Normal (JSArray (map messageValue (opt_messages options))).
Proof.
  destruct (chat env options onChunk w) as [r w'] eqn:H.
  apply chat_inv in H as (Hr & _).
  eexists _, _. split; [exact Hr|]. cbn [chatRequest req_url req_method req_body].
  repeat split.
  - unfold buildBody. by destruct (_isOllama (_settings (client w))).
  - unfold buildBody. by destruct (_isOllama (_settings (client w))).
Qed.

End ChatProperties.

(** ** Sample runs *)

Lemma chat_stream_tokens_reassemble_witness :
  exists (st : N) (b : BodyStream) (calls : list JSValue) (texts : list jsstring),
    transport streamingEnv
      (chatRequest localSettings (sampleOptions true) 0) = Resolves true st (Some b)
    /\ ending b = None
    /\ (let ds := streamDeltas (nm := literalNumbers)
                    (_isOllama (settingsAfter [] localSettings)) (chunks b) in
        calls = map fst ds /\ texts = map snd ds)
    /\ tokens (snd (chat (nm := literalNumbers) streamingEnv (sampleOptions true)
                      true (sampleWorld localSettings)))
       = [] ++ calls
    /\ Forall2 (fun d t => toStringJS (nm := literalNumbers) d = Some t) calls texts
    /\ assistantMessage (lit "Hello")
       = messageObject (JSString (lit "assistant")) (JSString (concat texts)).
Proof.
  exact (chat_stream_tokens_reassemble (nm := literalNumbers)
           streamingEnv (sampleOptions true) (sampleWorld localSettings)
           (snd (chat (nm := literalNumbers) streamingEnv (sampleOptions true)
                   true (sampleWorld localSettings)))
           (assistantMessage (lit "Hello"))
           eq_refl ltac:(vm_compute; reflexivity)).
Defined.

(** C3 (as stated) fails: with an empty model identifier, and with an empty
    message list, [chat] calls the transport and resolves with the
    response's message. *)
Lemma chat_empty_model_or_messages_reaches_transport :
  let env := quietEnv (serves true 200 [localPayload]) in
  let noModel :=
    {| opt_model := []; opt_messages := [{| role := user; content := lit "hi" |}];
       opt_stream := false; opt_temperature := JSUndefined;
       opt_maxTokens := JSUndefined |} in
  let noMessages :=
    {| opt_model := lit "x"; opt_messages := [];
       opt_stream := false; opt_temperature := JSUndefined;
       opt_maxTokens := JSUndefined |} in
  let run options :=
    chat (nm := literalNumbers) env options false (sampleWorld localSettings) in
  fst (run noModel)
  = Normal (messageObject (JSString (lit "assistant")) (JSString (lit "Hello")))
  /\ length (requests (snd (run noModel))) = 1%nat
  /\ fst (run noMessages)
     = Normal (messageObject (JSString (lit "assistant")) (JSString (lit "Hello")))
  /\ length (requests (snd (run noMessages))) = 1%nat.
Proof. repeat split; vm_compute; reflexivity. Qed.

(** C7 (as stated) fails: after a call that resolved, after a call that
    failed, and after a call that was aborted while its request was pending,
    the client still holds the handle of that call. *)
Lemma chat_settled_handle_not_cleared :
  let run env :=
    chat (nm := literalNumbers) env (sampleOptions false) false
      (sampleWorld localSettings) in
  let resolved := run (quietEnv (serves true 200 [localPayload])) in
  let failed := run (quietEnv (fun _ => Rejects (NetworkError (lit "refused")))) in
  let aborted :=
    run {| transport := serves true 200 [localPayload];
           duringFetch := [CallAbort]; duringJson := [];
           duringRead := fun _ => [] |} in
  fst resolved
  = Normal (messageObject (JSString (lit "assistant")) (JSString (lit "Hello")))
  /\ _abortController (client (snd resolved)) = Some 0%nat
  /\ fst failed = Throw (NetworkError (lit "refused"))
  /\ _abortController (client (snd failed)) = Some 0%nat
  /\ fst aborted = Throw AbortError
  /\ _abortController (client (snd aborted)) = Some 0%nat
  /\ _abortController (client (snd (abort (snd resolved)))) = Some 0%nat.
Proof. repeat split; vm_compute; reflexivity. Qed.

(** ** Non-streaming decode (C4) *)

Lemma responseJson_undisturbed (env : Env) (response : Response) (w : World) :
  duringJson env = [] -> signalAborted (signal response) w = false ->
  responseJson env response w = (bodyJson response, w).
Proof.
  intros Hj Hs. unfold responseJson, bind, interleave, checkSignal.
  rewrite Hj. cbn [foldl]. by rewrite Hs.
Qed.

Lemma fetch_undisturbed (env : Env) (req : FetchRequest) (w : World) :
  duringFetch env = [] -> signalAborted (req_signal req) w = false ->
  fetch env req w
  = (match transport env req with
     | Rejects e => Throw e
     | Resolves o st b =>
         Normal {| ok := o; status := st; body := b; signal := req_signal req |}
     end, snd (logRequest req w)).
Proof.
  intros Hf Hs. unfold fetch, bind, interleave, checkSignal.
  rewrite Hf. cbn [logRequest foldl snd].
  change (signalAborted (req_signal req) _) with (signalAborted (req_signal req) w).
  rewrite Hs. by destruct (transport env req).
Qed.

Lemma signalAborted_fresh (w : World) :
  wellFormed w -> signalAborted (Some (nextController w)) (allocated w) = false.
Proof.
  intros [H1 _]. cbn. apply bool_decide_eq_false. intros Hc.
  specialize (H1 _ Hc). lia.
Qed.

Section Decode.
Context {nm : NumberModel}.

(** A non-streaming call with no interleaved calls, answered with a success
    whose body is the JSON text of [data]. *)
Lemma chat_non_streaming_run (env : Env) (options : ChatOptions) (onChunk : bool)
  (w : World) (st : N) (b : BodyStream) (data : JSValue) :
  wellFormed w ->
  duringFetch env = [] -> duringJson env = [] ->
  opt_stream options = false ->
  transport env (chatRequest (_settings (client w)) options (nextController w))
    = Resolves true st (Some b) ->
  ending b = None ->
  JSON.parse (concat (chunks b)) = Normal data ->
  fst (chat env options onChunk w)
  = decodePayload (_isOllama (_settings (client w))) data.
Proof.
  intros Hw Hf Hj Hs Htr He Hp. rewrite chat_unfold. unfold bind.
  rewrite fetch_undisturbed; [|assumption|by apply signalAborted_fresh].
  rewrite Htr. unfold chatContinue. cbn [ok negb]. rewrite Hs. cbn [negb].
  unfold decodeWhole, bind.
  rewrite responseJson_undisturbed; [|assumption|by apply signalAborted_fresh].
  unfold bodyJson. cbn [body]. rewrite He, Hp. reflexivity.
Qed.

(** C4: a non-streaming [chat] call that receives a success response whose
    body is the JSON text of [data].  Under the local dialect the call
    resolves to the value of the payload's [message] field; under the
    OpenAI-compatible dialect it resolves to a message with role
    [assistant] whose content is the value of
    [choices[0].message.content], unchanged. *)
Theorem chat_non_streaming_decodes
  (env : Env) (options : ChatOptions) (onChunk : bool) (w : World)
  (st : N) (b : BodyStream) (data : JSValue) :
  wellFormed w ->
  duringFetch env = [] -> duringJson env = [] ->
  opt_stream options = false ->
  transport env (chatRequest (_settings (client w)) options (nextController w))
    = Resolves true st (Some b) ->
  ending b = None ->
  JSON.parse (concat (chunks b)) = Normal data ->
  (_isOllama (_settings (client w)) = true ->
   forall m, getField data "message" = Normal m ->
             fst (chat env options onChunk w) = Normal m)
  /\ (_isOllama (_settings (client w)) = false ->
      forall cs c0 m c,
        getField data "choices" = Normal cs ->
        getIndex0 cs = Normal c0 ->
        getField c0 "message" = Normal m ->
        getField m "content" = Normal c ->
        fst (chat env options onChunk w)
        = Normal (messageObject (JSString (lit "assistant")) c)).
Proof.
  intros Hw Hf Hj Hs Htr He Hp.
  rewrite (chat_non_streaming_run env options onChunk w st b data) by assumption.
  split.
  - intros -> m Hm. exact Hm.
  - intros -> cs c0 m c H1 H2 H3 H4. unfold decodePayload.
    rewrite H1. cbn [cbind]. rewrite H2. cbn [cbind]. rewrite H3. cbn [cbind].
    rewrite H4. reflexivity.
Qed.

End Decode.

Lemma chat_non_streaming_decodes_witness :
  fst (chat (nm := literalNumbers) (quietEnv (serves true 200 [localPayload]))
         (sampleOptions false) false (sampleWorld localSettings))
  = Normal (messageObject (JSString (lit "assistant")) (JSString (lit "Hello")))
  /\ fst (chat (nm := literalNumbers) (quietEnv (serves true 200 [openaiPayload]))
            (sampleOptions false) false (sampleWorld openaiSettings))
     = Normal (messageObject (JSString (lit "assistant")) (JSString (lit "Hello"))).
Proof.
  split.
  - destruct (chat_non_streaming_decodes (nm := literalNumbers)
                (quietEnv (serves true 200 [localPayload]))
                (sampleOptions false) false (sampleWorld localSettings) 200
                {| chunks := [localPayload]; ending := None |}
                (match JSON.parse localPayload with
                 | Normal d => d
                 | Throw _ => JSUndefined
                 end)
                (wellFormed_sampleWorld _) eq_refl eq_refl eq_refl eq_refl
                eq_refl ltac:(vm_compute; reflexivity)) as [H _].
    apply (H ltac:(vm_compute; reflexivity)). vm_compute. reflexivity.
  - destruct (chat_non_streaming_decodes (nm := literalNumbers)
                (quietEnv (serves true 200 [openaiPayload]))
                (sampleOptions false) false (sampleWorld openaiSettings) 200
                {| chunks := [openaiPayload]; ending := None |}
                (match JSON.parse openaiPayload with
                 | Normal d => d
                 | Throw _ => JSUndefined
                 end)
                (wellFormed_sampleWorld _) eq_refl eq_refl eq_refl eq_refl
                eq_refl ltac:(vm_compute; reflexivity)) as [_ H].
    eapply (H ltac:(vm_compute; reflexivity)); vm_compute; reflexivity.
Defined.

(** ** Runs that settle alike *)

Section Simulation.
Context {A B : Type}.
Variable R : World -> World -> Prop.

Lemma sim_ret (a : A) : sim R (ret a) (ret a).
Proof. intros w1 w2 H. by split. Qed.

Lemma sim_throw (e : JSError) : sim R (@throw A e) (@throw A e).
Proof. intros w1 w2 H. by split. Qed.

Lemma sim_lift (c : Completion A) : sim R (lift c) (lift c).
Proof. intros w1 w2 H. by split. Qed.

Lemma sim_bind (m1 m2 : Action A) (k1 k2 : A -> Action B) :
  sim R m1 m2 -> (forall a, sim R (k1 a) (k2 a)) -> sim R (bind m1 k1) (bind m2 k2).
Proof.
  intros Hm Hk w1 w2 H. unfold bind. destruct (Hm w1 w2 H) as [He Hw].
  destruct (m1 w1) as [[a1|e1] u1], (m2 w2) as [[a2|e2] u2]; cbn [fst snd] in *;
    try discriminate.
  - injection He as <-. by apply Hk.
  - injection He as <-. by split.
Qed.

Lemma sim_tryCatch (m1 m2 : Action A) (h1 h2 : JSError -> Action A) :
  sim R m1 m2 -> (forall e, sim R (h1 e) (h2 e)) ->
  sim R (tryCatch m1 h1) (tryCatch m2 h2).
Proof.
  intros Hm Hh w1 w2 H. unfold tryCatch. destruct (Hm w1 w2 H) as [He Hw].
  destruct (m1 w1) as [[a1|e1] u1], (m2 w2) as [[a2|e2] u2]; cbn [fst snd] in *;
    try discriminate.
  - by split.
  - injection He as <-. by apply Hh.
Qed.

End Simulation.

Lemma sim_addTokens (R : World -> World -> Prop) (onChunk : bool)
  (ds : list JSValue) :
  (forall w1 w2, R w1 w2 -> R (addTokens onChunk ds w1) (addTokens onChunk ds w2)) ->
  forall {nm : NumberModel} (isOllama : bool) (lines : list jsstring)
         (content : jsstring),
    ds = map fst (linesDeltas isOllama lines) ->
    sim R (forLines isOllama onChunk lines content)
          (forLines isOllama onChunk lines content).
Proof.
  intros HR nm isOllama lines content -> w1 w2 H.
  rewrite !forLines_spec. cbn [fst snd]. split; [reflexivity | by apply HR].
Qed.

(** *** Updates of the settings while a body is read *)

Lemma sameButSettings_refl (w : World) : sameButSettings w w.
Proof. by repeat split. Qed.

Lemma sameButSettings_addTokens (onChunk : bool) (ds : list JSValue)
  (w1 w2 : World) :
  sameButSettings w1 w2 ->
  sameButSettings (addTokens onChunk ds w1) (addTokens onChunk ds w2).
Proof.
  intros (H1 & H2 & H3 & H4 & H5).
  destruct onChunk; cbn; repeat split; try assumption. by rewrite H5.
Qed.

Lemma sameButSettings_calls (calls : list Call) (w1 w2 : World) :
  sameButSettings w1 w2 ->
  sameButSettings (foldl (fun w' c => runCall c w') w1 calls)
                  (foldl (fun w' c => runCall c w') w2
                         (List.filter isAbortCall calls)).
Proof.
  revert w1 w2. induction calls as [|c calls IH]; intros w1 w2 H; [exact H|].
  destruct c as [s|]; cbn [List.filter isAbortCall foldl].
  - apply IH. destruct H as (H1 & H2 & H3 & H4 & H5). by repeat split.
  - apply IH. destruct H as (H1 & H2 & H3 & H4 & H5).
    cbn [runCall]. unfold abort. rewrite H1.
    destruct (_abortController (client w2)) eqn:E; unfold sameButSettings; cbn;
      repeat split; congruence.
Qed.

Lemma sim_awaitRead_updates (env : Env) (sig : option nat) (i : nat) :
  sim sameButSettings (awaitRead env sig i)
      (awaitRead (withoutUpdatesDuringReads env) sig i).
Proof.
  intros w1 w2 H. unfold awaitRead, bind, interleave, checkSignal.
  cbn [withoutUpdatesDuringReads duringRead].
  pose proof (sameButSettings_calls (duringRead env i) w1 w2 H) as H'.
  assert (signalAborted sig (foldl (fun w' c => runCall c w') w1 (duringRead env i))
          = signalAborted sig (foldl (fun w' c => runCall c w') w2
                                 (List.filter isAbortCall (duringRead env i)))) as ->.
  { unfold signalAborted. destruct H' as (_ & _ & -> & _). reflexivity. }
  destruct (signalAborted sig _); by split.
Qed.

Section UpdatesDuringReads.
Context {nm : NumberModel}.

Lemma sim_readLoop_updates (env : Env) (isOllama onChunk : bool)
  (sig : option nat) (fin : option JSError) (pending : list jsstring) :
  forall (i : nat) (content : jsstring),
    sim sameButSettings
      (readLoop env isOllama onChunk sig i pending fin content)
      (readLoop (withoutUpdatesDuringReads env) isOllama onChunk sig i pending
         fin content).
Proof.
  induction pending as [|value rest IH]; intros i content; cbn [readLoop].
  - apply sim_bind; [apply sim_awaitRead_updates|]. intros _.
    destruct fin; [apply sim_throw | apply sim_ret].
  - apply sim_bind; [apply sim_awaitRead_updates|]. intros _.
    apply sim_bind; [|intros c; apply IH].
    eapply sim_addTokens; [|reflexivity].
    intros w1 w2. apply sameButSettings_addTokens.
Qed.

(** [updateSettings] calls made while the body of a response is read leave
    the outcome of [chat] and the callback invocations as they are. *)
Lemma chat_ignores_updates_during_reads (env : Env) (options : ChatOptions)
  (onChunk : bool) (w : World) :
  fst (chat env options onChunk w)
  = fst (chat (withoutUpdatesDuringReads env) options onChunk w)
  /\ tokens (snd (chat env options onChunk w))
     = tokens (snd (chat (withoutUpdatesDuringReads env) options onChunk w)).
Proof.
  rewrite !chat_unfold. unfold bind.
  change (fetch (withoutUpdatesDuringReads env)) with (fetch env).
  destruct (fetch env _ (allocated w)) as [[resp|e] w1]; [|by split].
  unfold chatContinue.
  change (failWithApiError (withoutUpdatesDuringReads env))
    with (failWithApiError env).
  change (decodeWhole (withoutUpdatesDuringReads env)) with (decodeWhole env).
  destruct (negb (ok resp)); [by split|].
  destruct (negb (opt_stream options)); [by split|].
  unfold _processStream. destruct (body resp) as [b|]; [|by split].
  unfold bind, getSettings.
  destruct (sim_readLoop_updates env (_isOllama (_settings (client w1))) onChunk
              (signal resp) (ending b) (chunks b) 0 [] w1 w1
              (sameButSettings_refl w1)) as [He (_ & _ & _ & _ & Ht)].
  by split.
Qed.

End UpdatesDuringReads.

(** *** Handles aborted before a call began *)

Lemma sim_bind_post {A B : Type} (R : World -> World -> Prop) (P : A -> Prop)
  (m1 m2 : Action A) (k1 k2 : A -> Action B) :
  sim R m1 m2 ->
  (forall w a, fst (m1 w) = Normal a -> P a) ->
  (forall a, P a -> sim R (k1 a) (k2 a)) ->
  sim R (bind m1 k1) (bind m2 k2).
Proof.
  intros Hm HP Hk w1 w2 H. unfold bind. destruct (Hm w1 w2 H) as [He Hw].
  specialize (HP w1).
  destruct (m1 w1) as [[a1|e1] u1], (m2 w2) as [[a2|e2] u2]; cbn [fst snd] in *;
    try discriminate.
  - injection He as <-. apply Hk; [by apply HP | exact Hw].
  - injection He as <-. by split.
Qed.

Section AgreeFrom.
Variable n : nat.

Lemma agreeFrom_addTokens (onChunk : bool) (ds : list JSValue) (w1 w2 : World) :
  agreeFrom n w1 w2 ->
  agreeFrom n (addTokens onChunk ds w1) (addTokens onChunk ds w2).
Proof.
  intros (H1 & H2 & H3 & H4 & H5 & H6).
  destruct onChunk; unfold agreeFrom; cbn; repeat split;
    try congruence; try apply H6; assumption.
Qed.

Lemma agreeFrom_runCall (c : Call) (w1 w2 : World) :
  agreeFrom n w1 w2 -> agreeFrom n (runCall c w1) (runCall c w2).
Proof.
  intros (H1 & H2 & H3 & H4 & H5 & H6). destruct c as [s|]; cbn [runCall].
  - unfold agreeFrom; cbn. rewrite H1. repeat split; try assumption; apply H6;
      assumption.
  - unfold abort. rewrite H1.
    destruct (_abortController (client w2)) as [h0|]; unfold agreeFrom; cbn.
    + repeat split; try assumption;
        rewrite !elem_of_union; intros [Hh|Hh]; (by left) || (right; by apply (H6 h)).
    + repeat split; try assumption; apply H6; assumption.
Qed.

Lemma sim_interleave_agree (calls : list Call) :
  sim (agreeFrom n) (interleave calls) (interleave calls).
Proof.
  intros w1 w2 H. unfold interleave. cbn [fst snd]. split; [reflexivity|].
  revert w1 w2 H. induction calls as [|c calls IH]; intros w1 w2 H; [exact H|].
  cbn [foldl]. apply IH. by apply agreeFrom_runCall.
Qed.

Lemma sim_checkSignal_agree (sig : option nat) :
  signalFrom n sig -> sim (agreeFrom n) (checkSignal sig) (checkSignal sig).
Proof.
  intros Hs w1 w2 H. unfold checkSignal.
  assert (signalAborted sig w1 = signalAborted sig w2) as ->.
  { destruct sig as [h|]; [|reflexivity]. cbn. apply bool_decide_ext.
    destruct H as (_ & _ & _ & _ & _ & H6). by apply H6. }
  destruct (signalAborted sig w2); by split.
Qed.

Lemma sim_getSettings_agree : sim (agreeFrom n) getSettings getSettings.
Proof.
  intros w1 w2 H. unfold getSettings. cbn [fst snd]. split; [|exact H].
  destruct H as (-> & _). reflexivity.
Qed.

Lemma sim_fetch_agree (env : Env) (req : FetchRequest) :
  signalFrom n (req_signal req) ->
  sim (agreeFrom n) (fetch env req) (fetch env req).
Proof.
  intros Hs. unfold fetch. apply sim_bind.
  { intros w1 w2 (H1 & H2 & H3 & H4 & H5 & H6). unfold logRequest, agreeFrom; cbn.
    repeat split; try congruence; apply H6; assumption. }
  intros _. apply sim_bind; [apply sim_interleave_agree|].
  intros _. apply sim_bind; [by apply sim_checkSignal_agree|].
  intros _. destruct (transport env req); [apply sim_throw | apply sim_ret].
Qed.

Lemma sim_responseJson_agree (env : Env) (response : Response) :
  signalFrom n (signal response) ->
  sim (agreeFrom n) (responseJson env response) (responseJson env response).
Proof.
  intros Hs. unfold responseJson. apply sim_bind; [apply sim_interleave_agree|].
  intros _. apply sim_bind; [by apply sim_checkSignal_agree|].
  intros _. apply sim_lift.
Qed.

Lemma sim_awaitRead_agree (env : Env) (sig : option nat) (i : nat) :
  signalFrom n sig ->
  sim (agreeFrom n) (awaitRead env sig i) (awaitRead env sig i).
Proof.
  intros Hs. unfold awaitRead. apply sim_bind; [apply sim_interleave_agree|].
  intros _. by apply sim_checkSignal_agree.
Qed.

Context {nm : NumberModel}.

Lemma sim_readLoop_agree (env : Env) (isOllama onChunk : bool)
  (sig : option nat) (fin : option JSError) (pending : list jsstring) :
  signalFrom n sig ->
  forall (i : nat) (content : jsstring),
    sim (agreeFrom n)
      (readLoop env isOllama onChunk sig i pending fin content)
      (readLoop env isOllama onChunk sig i pending fin content).
Proof.
  intros Hs. induction pending as [|value rest IH]; intros i content;
    cbn [readLoop].
  - apply sim_bind; [by apply sim_awaitRead_agree|]. intros _.
    destruct fin; [apply sim_throw | apply sim_ret].
  - apply sim_bind; [by apply sim_awaitRead_agree|]. intros _.
    apply sim_bind; [|intros c; apply IH].
    eapply sim_addTokens; [|reflexivity].
    intros w1 w2. apply agreeFrom_addTokens.
Qed.

Lemma sim_processStream_agree (env : Env) (response : Response) (onChunk : bool) :
  signalFrom n (signal response) ->
  sim (agreeFrom n) (_processStream env response onChunk)
      (_processStream env response onChunk).
Proof.
  intros Hs. unfold _processStream. destruct (body response) as [b|].
  - apply sim_bind; [apply sim_getSettings_agree|].
    intros s. by apply sim_readLoop_agree.
  - apply sim_throw.
Qed.

Lemma sim_throwError_agree (v : JSValue) :
  sim (agreeFrom n) (throwError (A := JSValue) v) (throwError v).
Proof. unfold throwError. destruct (toStringJS v); apply sim_throw. Qed.

Lemma sim_failWithApiError_agree (env : Env) (response : Response) :
  signalFrom n (signal response) ->
  sim (agreeFrom n) (failWithApiError env response) (failWithApiError env response).
Proof.
  intros Hs. unfold failWithApiError. apply sim_bind.
  { apply sim_tryCatch; [by apply sim_responseJson_agree|].
    intros _. apply sim_ret. }
  intros error. apply sim_bind; [apply sim_lift|].
  intros e1. apply sim_bind; [apply sim_lift|].
  intros m1. apply sim_bind.
  { destruct (toBoolean m1); [apply sim_ret | apply sim_lift]. }
  intros m2. apply sim_throwError_agree.
Qed.

Lemma sim_decodeWhole_agree (env : Env) (response : Response) :
  signalFrom n (signal response) ->
  sim (agreeFrom n) (decodeWhole env response) (decodeWhole env response).
Proof.
  intros Hs. unfold decodeWhole.
  apply sim_bind; [by apply sim_responseJson_agree|].
  intros data. apply sim_bind; [apply sim_getSettings_agree|].
  intros s. apply sim_lift.
Qed.

Lemma sim_chatContinue_agree (env : Env) (options : ChatOptions)
  (onChunk : bool) (response : Response) :
  signalFrom n (signal response) ->
  sim (agreeFrom n) (chatContinue env options onChunk response)
      (chatContinue env options onChunk response).
Proof.
  intros Hs. unfold chatContinue.
  destruct (negb (ok response)); [by apply sim_failWithApiError_agree|].
  destruct (negb (opt_stream options)); [by apply sim_decodeWhole_agree|].
  by apply sim_processStream_agree.
Qed.

(** Which of the handles allocated before a call were aborted makes no
    difference to the call. *)
Lemma sim_chat_agree (env : Env) (options : ChatOptions) (onChunk : bool) :
  sim (agreeFrom n) (chat env options onChunk) (chat env options onChunk).
Proof.
  intros w1 w2 H. rewrite !chat_unfold.
  pose proof H as (H1 & H2 & H3 & H4 & H5 & H6).
  rewrite <- H1, <- H2.
  assert (signalFrom n (req_signal (chatRequest (_settings (client w1)) options
                                      (nextController w1)))) as Hs by exact H3.
  apply (sim_bind_post (agreeFrom n) (fun r => signalFrom n (signal r))).
  - by apply sim_fetch_agree.
  - intros w r Hr. destruct (fetch env _ w) as [rf w'] eqn:Hf.
    apply fetch_inv in Hf as (_ & _ & _ & _ & _ & _ & Hresp).
    destruct (Hresp r Hr) as (o & st & b & _ & ->). exact Hs.
  - intros r Hr. by apply sim_chatContinue_agree.
  - unfold allocated, newAbortController, agreeFrom; cbn. rewrite H1.
    repeat split; try congruence; try lia; apply H6; assumption.
Qed.

End AgreeFrom.

(** [abort] on a client whose last call has settled marks only the handle
    of that call; a later [chat] call settles, calls the transport and
    invokes the callback as if [abort] had not been called. *)
Lemma chat_after_stale_abort {nm : NumberModel} (env : Env)
  (options : ChatOptions) (onChunk : bool) (w : World) :
  wellFormed w ->
  let w1 := snd (chat env options onChunk (snd (abort w))) in
  let w2 := snd (chat env options onChunk w) in
  fst (chat env options onChunk (snd (abort w))) = fst (chat env options onChunk w)
  /\ client w1 = client w2 /\ requests w1 = requests w2 /\ tokens w1 = tokens w2.
Proof.
  intros [Hw1 Hw2] w1 w2.
  assert (agreeFrom (nextController w) (snd (abort w)) w) as H.
  { unfold abort. destruct (_abortController (client w)) as [h0|] eqn:E;
      unfold agreeFrom; cbn [snd client nextController requests tokens abortedSignals].
    - repeat split; try lia.
      + rewrite elem_of_union, elem_of_singleton. intros [->|Hh]; [|exact Hh].
        specialize (Hw2 _ eq_refl). lia.
      + intros Hh. apply elem_of_union. by right.
    - repeat split; try lia; trivial. }
  destruct (sim_chat_agree (nextController w) env options onChunk _ _ H)
    as (He & Hc & _ & _ & Hr & Ht & _).
  by repeat split.
Qed.

(** ** The cancellation handle (C7) *)

(** C7 (as amended): every [chat] call allocates a new handle, numbered by
    the allocation counter and therefore different from every handle known
    before, and stores it in the client, replacing the previous one; when
    the call settles, however it settles and whatever [abort] and
    [updateSettings] calls were interleaved, the client still holds that
    handle.  [abort] never changes the client: on a client that holds no
    handle it changes nothing at all, and called between two calls it only
    marks the handle of the settled call, so that the next [chat] call
    settles, calls the transport and invokes the callback exactly as it
    would have without it. *)
Theorem chat_handle_allocated_and_kept {nm : NumberModel}
  (env : Env) (options : ChatOptions) (onChunk : bool) (w : World) :
  let w' := snd (chat env options onChunk w) in
  _abortController (client w') = Some (nextController w)
  /\ nextController w' = S (nextController w)
  /\ (wellFormed w ->
      _abortController (client w) <> Some (nextController w)
      /\ (nextController w ∉ abortedSignals w)
      /\ wellFormed w')
  /\ (_abortController (client w) = None -> abort w = (Normal tt, w))
  /\ client (snd (abort w)) = client w
  /\ (wellFormed w ->
      let wa := snd (chat env options onChunk (snd (abort w))) in
      fst (chat env options onChunk (snd (abort w))) = fst (chat env options onChunk w)
      /\ client wa = client w' /\ requests wa = requests w'
      /\ tokens wa = tokens w').
Proof.
  intros w'. subst w'.
  destruct (chat env options onChunk w) as [r w'] eqn:H.
  pose proof (chat_wellFormed env options onChunk w) as Hwf. rewrite H in Hwf.
  pose proof (chat_after_stale_abort env options onChunk w) as Hst.
  rewrite H in Hst.
  apply chat_inv in H as (_ & Hn & Ha). cbn [fst snd] in *.
  split; [exact Ha|]. split; [exact Hn|]. split; [|split; [|split]].
  - intros [H1 H2]. split; [|split].
    + intros Hc. specialize (H2 _ Hc). lia.
    + intros Hc. specialize (H1 _ Hc). lia.
    + by apply Hwf.
  - intros Hc. unfold abort. by rewrite Hc.
  - unfold abort. by destruct (_abortController (client w)).
  - intros Hw. by apply Hst.
Qed.

(** ** Settings read by a call in flight (C9) *)

Section Settings.
Context {nm : NumberModel}.

(** C9 (as amended): whatever [updateSettings] and [abort] calls other tasks
    make while a [chat] call is suspended, the request (endpoint, headers,
    body) is the one built from the settings in force when the call began.
    The dialect used to decode the response is read later: for a streaming
    call it is the dialect of the settings in force when the request
    resolved, and it stays the same for the whole stream; for a
    non-streaming call it is the dialect of the settings in force once the
    body was read.  [updateSettings] calls made while the body of a
    streaming response is read change neither the outcome of the call nor
    the callback invocations. *)
Theorem chat_settings_read_per_step
  (env : Env) (options : ChatOptions) (onChunk : bool) (w : World) :
  let s0 := _settings (client w) in
  let req := chatRequest s0 options (nextController w) in
  let out := chat env options onChunk w in
  requests (snd out) = requests w ++ [req]
  /\ (opt_stream options = true ->
      forall msg, fst out = Normal msg ->
        exists st b,
          transport env req = Resolves true st (Some b)
          /\ let ds := streamDeltas
                         (_isOllama (settingsAfter (duringFetch env) s0))
                         (chunks b) in
             msg = assistantMessage (concat (map snd ds))
             /\ tokens (snd out) = tokens w ++ (if onChunk then map fst ds else []))
  /\ (opt_stream options = false ->
      forall v, fst out = Normal v ->
        exists st bd data,
          transport env req = Resolves true st bd
          /\ bodyJson {| ok := true; status := st; body := bd;
                         signal := Some (nextController w) |} = Normal data
          /\ decodePayload
               (_isOllama (settingsAfter (duringFetch env ++ duringJson env) s0))
               data = Normal v)
  /\ (fst out = fst (chat (withoutUpdatesDuringReads env) options onChunk w)
      /\ tokens (snd out)
         = tokens (snd (chat (withoutUpdatesDuringReads env) options onChunk w))).
Proof.
  intros s0 req out. subst out.
  pose proof (chat_ignores_updates_during_reads env options onChunk w) as Hu.
  destruct (chat env options onChunk w) as [r w'] eqn:H. cbn [fst snd] in *.
  split; [|split; [|split; [|exact Hu]]].
  - by apply chat_inv in H as (Hr & _).
  - intros Hs msg ->.
    destruct (chat_stream_inv env options onChunk w w' msg Hs H)
      as (st & b & Htr & _ & Hv & Htok).
    by exists st, b.
  - intros Hs v ->. by apply (chat_whole_inv env options onChunk w w').
Qed.

End Settings.

(** C9 (as stated) fails: [updateSettings] called while the request is
    pending changes how the response is decoded.  The same request is sent
    in both runs; the OpenAI-shaped answer decodes to its message in the
    undisturbed run and, read under the local dialect, to [undefined]
    (non-streaming) or to no delta at all (streaming) in the other. *)
Lemma updateSettings_in_flight_changes_decoding :
  let racing values :=
    {| transport := serves true 200 values;
       duringFetch := [CallUpdateSettings localSettings];
       duringJson := []; duringRead := fun _ => [] |} in
  let run env stream :=
    chat (nm := literalNumbers) env (sampleOptions stream) true
      (sampleWorld openaiSettings) in
  let sse := [sseHel ++ [LF]; sseLo ++ [LF]; sseDone ++ [LF]] in
  fst (run (quietEnv (serves true 200 [openaiPayload])) false)
  = Normal (messageObject (JSString (lit "assistant")) (JSString (lit "Hello")))
  /\ fst (run (racing [openaiPayload]) false) = Normal JSUndefined
  /\ requests (snd (run (racing [openaiPayload]) false))
     = requests (snd (run (quietEnv (serves true 200 [openaiPayload])) false))
  /\ fst (run (quietEnv (serves true 200 sse)) true)
     = Normal (assistantMessage (lit "Hello"))
  /\ tokens (snd (run (quietEnv (serves true 200 sse)) true))
     = [JSString (lit "Hel"); JSString (lit "lo")]
  /\ fst (run (racing sse) true) = Normal (assistantMessage [])
  /\ tokens (snd (run (racing sse) true)) = [].
Proof. repeat split; vm_compute; reflexivity. Qed.

(** ** [fetchModels] (C6) *)

Section Models.
Context {nm : NumberModel}.

Lemma arrayMap_isArray (d v : JSValue) (f : JSValue -> Completion JSValue) :
  arrayMap d f = Normal v -> isArray v.
Proof.
  destruct d; try discriminate. cbn [arrayMap].
  destruct (mapCompletion f elems) as [r|]; [|discriminate].
  intros [= <-]. by exists r.
Qed.

End Models.

(** C6 (as stated) fails for a payload of the wrong shape: under the local
    dialect a [models] field holding a string is handed back as the result,
    which is then not a collection of model descriptors. *)
Lemma fetchModels_returns_non_collection :
  fst (fetchModels (nm := literalNumbers)
         (quietEnv (serves true 200 [jsn "{'models':'none'}"]))
         (sampleWorld localSettings))
  = Normal (JSString (lit "none"))
  /\ ~ isArray (JSString (lit "none")).
Proof. split; [vm_compute; reflexivity | intros [elems H]; discriminate]. Qed.

(** ** Further properties of the stream and of failed exchanges *)

Section Further.
Context {nm : NumberModel}.

Lemma linesDeltas_sentinel (isOllama : bool) :
  linesDeltas isOllama (List.filter nonBlank [sseDone]) = [].
Proof. reflexivity. Qed.

(** X2, the termination sentinel: a body of whole-line chunks whose last line
    is [data: [DONE]] resolves normally, and the sentinel line contributes
    no delta: the callback invocations and the content are those of the
    lines before it. *)
Theorem processStream_done_sentinel
  (env : Env) (groups : list (list jsstring)) (before : list jsstring)
  (okFlag : bool) (st : N) (sig : option nat) (onChunk : bool) (w : World) :
  quietReads env -> signalAborted sig w = false ->
  Forall (Forall noLF) groups ->
  concat groups = before ++ [sseDone] ->
  let ds := linesDeltas (_isOllama (_settings (client w)))
              (List.filter nonBlank before) in
  _processStream env
    (streamResponse okFlag st (map chunkOfLines groups) None sig) onChunk w
  = (Normal (assistantMessage (concat (map snd ds))),
     addTokens onChunk (map fst ds) w).
Proof.
  intros Hq Hs Hg Hc ds.
  rewrite processStream_quietReads by assumption. rewrite Hs. cbn zeta.
  rewrite streamDeltas_groups by assumption. rewrite Hc.
  rewrite List.filter_app, linesDeltas_app, linesDeltas_sentinel, app_nil_r.
  reflexivity.
Qed.

(** X3: a response whose status is not a success makes [chat] reject, whatever
    its body holds and whether the call streams or not; the callback is not
    invoked. *)
Theorem chat_rejects_on_error_status
  (env : Env) (options : ChatOptions) (onChunk : bool) (w : World)
  (st : N) (bd : option BodyStream) :
  transport env (chatRequest (_settings (client w)) options (nextController w))
    = Resolves false st bd ->
  (exists e, fst (chat env options onChunk w) = Throw e)
  /\ tokens (snd (chat env options onChunk w)) = tokens w.
Proof.
  intros Htr. rewrite chat_unfold. unfold bind.
  destruct (fetch env _ (allocated w)) as [rf w1] eqn:Hf.
  apply fetch_inv in Hf as (_ & Ht & _ & _ & _ & _ & Hresp).
  destruct rf as [resp|e]; [|split; [by exists e | exact Ht]].
  destruct (Hresp resp eq_refl) as (o & st' & b' & Htr' & ->).
  rewrite Htr in Htr'. injection Htr' as <- <- <-.
  unfold chatContinue. cbn [ok negb].
  pose proof (failWithApiError_quiet env
                {| ok := false; status := st; body := bd;
                   signal := req_signal
                     (chatRequest (_settings (client w)) options (nextController w)) |}
                w1) as (Hq & _).
  destruct (failWithApiError_throws env
              {| ok := false; status := st; body := bd;
                 signal := req_signal
                   (chatRequest (_settings (client w)) options (nextController w)) |}
              w1) as (e & w2 & He).
  rewrite He in Hq |- *. cbn [fst snd] in *.
  change (tokens (allocated w)) with (tokens w) in Ht.
  split; [by exists e | congruence].
Qed.

End Further.

Lemma processStream_done_sentinel_witness :
  _processStream (nm := literalNumbers) (quietEnv (serves true 200 []))
    (streamResponse true 200 (map chunkOfLines [[sseHel]; [sseLo; sseDone]]) None None)
    true (sampleWorld openaiSettings)
  = (Normal (assistantMessage (lit "Hello")),
     addTokens true [JSString (lit "Hel"); JSString (lit "lo")]
       (sampleWorld openaiSettings)).
Proof.
  apply (processStream_done_sentinel (nm := literalNumbers)
           (quietEnv (serves true 200 [])) [[sseHel]; [sseLo; sseDone]]
           [sseHel; sseLo]).
  - apply quietEnv_quietReads.
  - reflexivity.
  - apply (bool_decide_unpack _). vm_compute. exact I.
  - reflexivity.
Defined.

Lemma chat_rejects_on_error_status_witness :
  (exists e,
     fst (chat (nm := literalNumbers)
            (quietEnv (serves false 404 [jsn "{'error':{'message':'model not found'}}"]))
            (sampleOptions true) true (sampleWorld openaiSettings)) = Throw e)
  /\ tokens (snd (chat (nm := literalNumbers)
                    (quietEnv (serves false 404
                                 [jsn "{'error':{'message':'model not found'}}"]))
                    (sampleOptions true) true (sampleWorld openaiSettings)))
     = tokens (sampleWorld openaiSettings).
Proof.
  exact (chat_rejects_on_error_status (nm := literalNumbers)
           (quietEnv (serves false 404 [jsn "{'error':{'message':'model not found'}}"]))
           (sampleOptions true) true (sampleWorld openaiSettings) 404 _ eq_refl).
Defined.

(** The message of the error is the provider's [error.message] when the
    body carries one, and the generic text with the status otherwise. *)
Lemma chat_error_messages :
  fst (chat (nm := literalNumbers)
         (quietEnv (serves false 404 [jsn "{'error':{'message':'model not found'}}"]))
         (sampleOptions true) true (sampleWorld openaiSettings))
  = Throw (Error_ (lit "model not found"))
  /\ fst (chat (nm := literalNumbers)
            (quietEnv (serves false 500 [lit "<html>"]))
            (sampleOptions true) true (sampleWorld openaiSettings))
     = Throw (Error_ (lit "API error: 500")).
Proof. split; vm_compute; reflexivity. Qed.

(** * Further properties of the code *)

(** ** The conversation store *)

Lemma getMessages_addMessage_same (h : ConversationHistory) (id : jsstring)
  (m : Message) (created now : N) :
  getMessages (addMessage h id m created now) id = getMessages h id ++ [m].
Proof.
  unfold getMessages, addMessage. cbn [_conversations].
  rewrite lookup_insert_eq. cbn [messages].
  by destruct (_conversations h !! id).
Qed.

Lemma getMessages_addMessage_other (h : ConversationHistory) (id id' : jsstring)
  (m : Message) (created now : N) :
  id <> id' ->
  getMessages (addMessage h id m created now) id' = getMessages h id'.
Proof.
  intros Hne. unfold getMessages, addMessage. cbn [_conversations].
  by rewrite lookup_insert_ne.
Qed.

(** X4: [addMessage] appends to the conversation of its note and to no
    other.  After [addMessage(noteId, message)] the messages of [noteId] are
    the former ones followed by [message] (the conversation is created when
    the note had none), the note has a conversation, an existing entry
    keeps its creation time, a new entry has the first clock value as
    creation time, either has the last clock value as update time, and the
    messages of every other note are unchanged. *)
Theorem addMessage_appends_to_its_note
  (h : ConversationHistory) (id : jsstring) (m : Message) (created now : N) :
  let h' := addMessage h id m created now in
  getMessages h' id = getMessages h id ++ [m]
  /\ hasConversation h' id = true
  /\ (forall e, _conversations h !! id = Some e ->
                exists e', _conversations h' !! id = Some e'
                           /\ createdAt e' = createdAt e /\ updatedAt e' = now)
  /\ (_conversations h !! id = None ->
      exists e', _conversations h' !! id = Some e'
                 /\ createdAt e' = created /\ updatedAt e' = now)
  /\ (forall id', id <> id' ->
        getMessages h' id' = getMessages h id'
        /\ hasConversation h' id' = hasConversation h id').
Proof.
  intros h'. subst h'. split; [apply getMessages_addMessage_same|].
  split; [|split; [|split]].
  - unfold hasConversation, addMessage. cbn [_conversations].
    rewrite lookup_insert_eq. by apply bool_decide_eq_true.
  - intros e He. unfold addMessage. cbn [_conversations].
    rewrite lookup_insert_eq, He. by eexists.
  - intros He. unfold addMessage. cbn [_conversations].
    rewrite lookup_insert_eq, He. by eexists.
  - intros id' Hne. split; [by apply getMessages_addMessage_other|].
    unfold hasConversation, addMessage. cbn [_conversations].
    by rewrite lookup_insert_ne.
Qed.

(** X5: [clearConversation] forgets the conversation of its note and of no
    other: afterwards the note has no conversation and no messages, and
    every other note keeps its messages; clearing a note that has no
    conversation changes nothing. *)
Theorem clearConversation_forgets_its_note
  (h : ConversationHistory) (id : jsstring) :
  let h' := clearConversation h id in
  getMessages h' id = []
  /\ hasConversation h' id = false
  /\ (forall id', id <> id' ->
        getMessages h' id' = getMessages h id'
        /\ hasConversation h' id' = hasConversation h id')
  /\ (hasConversation h id = false -> _conversations h' = _conversations h).
Proof.
  intros h'. subst h'. unfold getMessages, hasConversation, clearConversation.
  cbn [_conversations]. rewrite lookup_delete_eq.
  split; [reflexivity|]. split; [|split].
  - apply bool_decide_eq_false. by intros [x Hx].
  - intros id' Hne. by rewrite lookup_delete_ne.
  - intros Hn. apply bool_decide_eq_false in Hn.
    apply delete_id. destruct (_conversations h !! id) eqn:E; [|done].
    exfalso. apply Hn. by eexists.
Qed.

(** X6: the message just added is the one the context ends with.  For a
    cap of at least one, [getConversationContext] called after [addMessage]
    returns at most [cap] messages, the last of which is the added one: the
    prompt a caller has just stored is always sent. *)
Theorem context_ends_with_added_message
  (h : ConversationHistory) (id : jsstring) (m : Message) (created now : N)
  (cap : Z) :
  (0 < cap)%Z ->
  let ctx := getConversationContext (addMessage h id m created now) id cap in
  last ctx = Some m /\ (Z.of_nat (length ctx) <= cap)%Z
  /\ ctx `suffix_of` (getMessages h id ++ [m]).
Proof.
  intros Hcap ctx. subst ctx. unfold getConversationContext.
  rewrite getMessages_addMessage_same.
  set (msgs := getMessages h id ++ [m]).
  assert (length msgs = S (length (getMessages h id))) as Hlen.
  { unfold msgs. rewrite length_app. simpl. lia. }
  destruct (Z.leb_spec (Z.of_nat (length msgs)) cap).
  - split; [unfold msgs; apply last_snoc|]. split; [lia | done].
  - rewrite Array_slice_last by lia. unfold lastN.
    split; [|split].
    + rewrite Hlen. unfold msgs. rewrite drop_app_le by lia.
      apply last_snoc.
    + rewrite length_drop. lia.
    + apply suffix_drop.
Qed.

Lemma context_ends_with_added_message_witness :
  last (getConversationContext
          (addMessage sampleHistory (lit "note.md")
             {| role := user; content := lit "more" |} 3 3)
          (lit "note.md") defaultMaxMessages)
  = Some {| role := user; content := lit "more" |}.
Proof.
  destruct (context_ends_with_added_message sampleHistory (lit "note.md")
              {| role := user; content := lit "more" |} 3 3 defaultMaxMessages
              ltac:(unfold defaultMaxMessages; lia)) as (H & _).
  exact H.
Defined.

Lemma persist_settings (st : Store) :
  store_settings st <> None ->
  store_settings (_persist st)
  = Some (Some (historyObject (_conversations (store_history (_persist st)))))
  /\ store_history (_persist st) = store_history st
  /\ store_saves (_persist st) = S (store_saves st).
Proof.
  intros Hs. unfold _persist. by destruct (store_settings st).
Qed.

Lemma mutate_settings (st : Store) (op : Mutation) :
  store_settings st <> None ->
  store_settings (mutate st op)
  = Some (Some (historyObject (_conversations (store_history (mutate st op)))))
  /\ store_saves (mutate st op) = S (store_saves st).
Proof.
  intros Hs. destruct op; cbn [mutate];
    unfold addMessageAndPersist, clearConversationAndPersist, clearAll;
    match goal with
    | |- context [_persist ?x] =>
        destruct (persist_settings x) as (H1 & _ & H3); [exact Hs|];
        split; [exact H1 | exact H3]
    end.
Qed.

Lemma restore_lookup (saved : gmap jsstring ConversationEntry) (id : jsstring) :
  getMessages (store_history (initialize newStore (Some saved))) id
  = match saved !! id with Some e => messages e | None => [] end.
Proof.
  unfold getMessages, initialize, newStore. cbn [store_history _conversations].
  by rewrite (right_id_L ∅ (∪)).
Qed.

(** X7: what is saved mirrors the history.  On a history that was
    initialised, after any non-empty sequence of [addMessage],
    [clearConversation] and [clearAll] calls the save callback was invoked
    once per call, and a new history initialised from the saved
    [chatHistory] has the messages of every note, except those of a note
    named [__proto__], which are not saved. *)
Theorem saved_history_restores
  (st : Store) (ops : list Mutation) :
  store_settings st <> None -> ops <> [] ->
  let st' := foldl mutate st ops in
  store_saves st' = (store_saves st + length ops)%nat
  /\ exists saved,
       store_settings st' = Some (Some saved)
       /\ (forall id, id <> lit "__proto__" ->
             getMessages (store_history (initialize newStore (Some saved))) id
             = getMessages (store_history st') id)
       /\ getMessages (store_history (initialize newStore (Some saved)))
            (lit "__proto__") = [].
Proof.
  intros Hs Hops st'. subst st'.
  assert (forall l, store_settings (foldl mutate st l) <> None
                    /\ store_saves (foldl mutate st l)
                       = (store_saves st + length l)%nat) as Hall.
  { induction l as [|op l IH] using rev_ind; [split; [exact Hs | simpl; lia]|].
    rewrite foldl_snoc, length_app. destruct IH as (IH1 & IH2).
    destruct (mutate_settings (foldl mutate st l) op IH1) as (H1 & H2).
    split; [by rewrite H1 | rewrite H2, IH2; simpl; lia]. }
  split; [apply Hall|].
  destruct ops as [|op ops _] using rev_ind; [done|].
  rewrite foldl_snoc.
  destruct (mutate_settings (foldl mutate st ops) op) as (H1 & _);
    [apply Hall|].
  eexists. split; [exact H1|]. split.
  - intros id Hid. rewrite restore_lookup. unfold historyObject.
    by rewrite lookup_delete_ne.
  - rewrite restore_lookup. unfold historyObject. by rewrite lookup_delete_eq.
Qed.

Lemma saved_history_restores_witness :
  let st' := foldl mutate sampleStore sampleMutations in
  store_saves st' = (store_saves sampleStore + length sampleMutations)%nat
  /\ exists saved,
       store_settings st' = Some (Some saved)
       /\ (forall id, id <> lit "__proto__" ->
             getMessages (store_history (initialize newStore (Some saved))) id
             = getMessages (store_history st') id)
       /\ getMessages (store_history (initialize newStore (Some saved)))
            (lit "__proto__") = [].
Proof.
  apply (saved_history_restores sampleStore sampleMutations); discriminate.
Defined.

(** A history that was never initialised saves nothing. *)
Lemma uninitialised_store_saves_nothing (st : Store) (op : Mutation) :
  store_settings st = None ->
  store_settings (mutate st op) = None
  /\ store_saves (mutate st op) = store_saves st.
Proof.
  intros Hs. destruct op; cbn [mutate];
    unfold addMessageAndPersist, clearConversationAndPersist, clearAll,
      _persist, withHistory; cbn [store_settings]; by rewrite Hs.
Qed.

(** ** The note as the record of a chat *)

Lemma split_lines_nonempty (s : jsstring) : split_lines s <> [].
Proof.
  destruct s as [|c s]; [done|]. cbn [split_lines].
  destruct (c =? LF); [done|]. by destruct (split_lines s).
Qed.

Lemma split_lines_noLF (s : jsstring) : Forall noLF (split_lines s).
Proof.
  induction s as [|c s IH]; cbn [split_lines].
  - constructor; [|constructor]. unfold noLF. apply not_elem_of_nil.
  - destruct (N.eqb_spec c LF) as [->|Hc].
    + constructor; [|exact IH]. unfold noLF. apply not_elem_of_nil.
    + destruct (split_lines s) as [|l ls].
      * constructor; [|constructor]. unfold noLF.
        apply not_elem_of_cons. split; [congruence | apply not_elem_of_nil].
      * inversion IH as [|? ? Hl Hls]; subst. constructor; [|exact Hls].
        unfold noLF in *. apply not_elem_of_cons. split; [congruence | exact Hl].
Qed.

Lemma joinWith_cons2 (sep a b : jsstring) (l : list jsstring) :
  joinWith sep (a :: b :: l) = a ++ sep ++ joinWith sep (b :: l).
Proof. cbn [joinWith map concat]. by rewrite <- app_assoc. Qed.

Lemma joinWith_split_lines (s : jsstring) : joinWith [LF] (split_lines s) = s.
Proof.
  induction s as [|c s IH]; [reflexivity|]. cbn [split_lines].
  destruct (N.eqb_spec c LF) as [->|Hc].
  - destruct (split_lines s) as [|l ls] eqn:E;
      [by apply split_lines_nonempty in E|].
    rewrite joinWith_cons2, IH. reflexivity.
  - destruct (split_lines s) as [|l ls] eqn:E;
      [by apply split_lines_nonempty in E|].
    rewrite <- IH. reflexivity.
Qed.

Lemma split_lines_join (l : jsstring) (ls : list jsstring) (rest : jsstring) :
  Forall noLF (l :: ls) ->
  split_lines (joinWith [LF] (l :: ls) ++ LF :: rest)
  = (l :: ls) ++ split_lines rest.
Proof.
  revert l. induction ls as [|l2 ls IH]; intros l Hall;
    inversion Hall as [|? ? Hl Hls]; subst.
  - cbn [joinWith map concat]. rewrite app_nil_r.
    by rewrite split_lines_line.
  - rewrite joinWith_cons2, <- app_assoc. cbn [app].
    rewrite split_lines_line by assumption.
    by rewrite (IH l2 Hls).
Qed.

Lemma saveToNote_concat (msgs : list Message) :
  _saveToNote msgs = concat (map noteBlock msgs).
Proof.
  unfold _saveToNote.
  assert (forall acc, foldl (fun c m => c ++ noteBlock m) acc msgs
                      = acc ++ concat (map noteBlock msgs)) as H.
  { induction msgs as [|m msgs IH]; intros acc; cbn [foldl map concat].
    - by rewrite app_nil_r.
    - by rewrite IH, <- app_assoc. }
  exact (H []).
Qed.

Lemma quoted_noLF (l : jsstring) : noLF l -> noLF (lit "> " ++ l).
Proof.
  unfold noLF. intros Hl Hin. apply elem_of_app in Hin as [Hin|Hin]; [|done].
  revert Hin. vm_compute. intros Hin.
  repeat (apply elem_of_cons in Hin as [Hin|Hin]; [discriminate|]).
  by apply elem_of_nil in Hin.
Qed.

Lemma blockHeader_noLF (m : Message) : noLF (blockHeader m).
Proof.
  unfold blockHeader.
  destruct (role m); apply (bool_decide_unpack (noLF _)); by vm_compute.
Qed.

Lemma split_lines_noteBlock (m : Message) (rest : jsstring) :
  split_lines (noteBlock m ++ rest) = blockLines m ++ split_lines rest.
Proof.
  unfold noteBlock, blockLines.
  set (quoted := map (fun line => lit "> " ++ line) (split_lines (content m))).
  assert (Forall noLF quoted) as Hq.
  { unfold quoted. apply Forall_map. eapply Forall_impl;
      [apply split_lines_noLF|]. intros l Hl. by apply quoted_noLF. }
  assert (quoted <> []) as Hne.
  { unfold quoted. intros E. apply map_eq_nil in E.
    by apply split_lines_nonempty in E. }
  destruct quoted as [|q qs]; [done|].
  replace ((lit "> " ++ match role m with
                        | user => lit "**You:**"
                        | _ => lit "**AI:**"
                        end ++ [LF] ++ joinWith [LF] (q :: qs) ++ [LF; LF])
           ++ rest)
    with (blockHeader m ++ LF :: (joinWith [LF] (q :: qs) ++ LF :: (LF :: rest))).
  2:{ unfold blockHeader. destruct (role m);
        repeat rewrite <- app_assoc; reflexivity. }
  rewrite split_lines_line by apply blockHeader_noLF.
  rewrite split_lines_join by assumption.
  cbn [split_lines]. rewrite N.eqb_refl.
  cbn [app]. rewrite <- app_assoc. reflexivity.
Qed.

Lemma split_lines_saveToNote (msgs : list Message) :
  split_lines (_saveToNote msgs) = concat (map blockLines msgs) ++ [[]].
Proof.
  rewrite saveToNote_concat.
  induction msgs as [|m msgs IH]; [reflexivity|].
  cbn [map concat]. rewrite split_lines_noteBlock, IH.
  by rewrite <- app_assoc.
Qed.

Lemma quoted_startsWith (l p : jsstring) :
  startsWith (lit "> " ++ l) (lit "> " ++ p) = startsWith l p.
Proof. reflexivity. Qed.

Lemma parseLine_quoted (r : Role) (cc : list jsstring) (acc : list Message)
  (l : jsstring) :
  plainLine l ->
  parseLine {| currentRole := Some r; currentContent := cc; parsed := acc |}
            (lit "> " ++ l)
  = {| currentRole := Some r; currentContent := cc ++ [l]; parsed := acc |}.
Proof.
  intros [Hy Ha]. unfold parseLine.
  change (lit "> **You:**") with (lit "> " ++ lit "**You:**").
  change (lit "> **AI:**") with (lit "> " ++ lit "**AI:**").
  rewrite !quoted_startsWith, Hy, Ha. cbn [currentRole currentContent parsed].
  replace (startsWith (lit "> " ++ l) (lit "> ")) with true
    by (by destruct l).
  reflexivity.
Qed.

Lemma parse_quoted_lines (r : Role) (acc : list Message) (ls cc : list jsstring) :
  Forall plainLine ls ->
  foldl parseLine
    {| currentRole := Some r; currentContent := cc; parsed := acc |}
    (map (fun line => lit "> " ++ line) ls)
  = {| currentRole := Some r; currentContent := cc ++ ls; parsed := acc |}.
Proof.
  intros Hls. revert cc. induction Hls as [|l ls Hl Hls IH]; intros cc.
  - by rewrite app_nil_r.
  - cbn [map foldl]. rewrite parseLine_quoted by assumption.
    rewrite IH, <- app_assoc. reflexivity.
Qed.

Lemma parseLine_header (acc : list Message) (m : Message) :
  parseLine {| currentRole := None; currentContent := []; parsed := acc |}
            (blockHeader m)
  = {| currentRole := Some (role (savedAs m)); currentContent := [[]];
       parsed := acc |}.
Proof. unfold blockHeader, savedAs. by destruct (role m). Qed.

Lemma trim_LF (s : jsstring) : trim (LF :: s) = trim s.
Proof. reflexivity. Qed.

Lemma parseLine_blank (r : Role) (acc : list Message) (s : jsstring) :
  parseLine {| currentRole := Some r;
               currentContent := [] :: split_lines s; parsed := acc |} []
  = {| currentRole := None; currentContent := [];
       parsed := acc ++ [{| role := r; content := trim s |}] |}.
Proof.
  unfold parseLine. cbn [startsWith lit currentRole].
  change (startsWith [] (lit "> **You:**")) with false.
  change (startsWith [] (lit "> **AI:**")) with false.
  change (startsWith [] (lit "> ")) with false.
  cbn match. unfold jsstring_eqb.
  rewrite (bool_decide_false ([] = lit ">")) by discriminate.
  rewrite (bool_decide_true (trim [] = [])) by reflexivity.
  unfold pushCurrent. cbn [currentRole currentContent parsed].
  destruct (split_lines s) as [|l ls] eqn:E;
    [by apply split_lines_nonempty in E|].
  rewrite joinWith_cons2. cbn [app]. rewrite trim_LF.
  by rewrite <- E, joinWith_split_lines.
Qed.

Lemma parse_block (acc : list Message) (m : Message) :
  storable m ->
  foldl parseLine
    {| currentRole := None; currentContent := []; parsed := acc |}
    (blockLines m)
  = {| currentRole := None; currentContent := [];
       parsed := acc ++ [savedAs m] |}.
Proof.
  intros [Htrim Hplain]. unfold blockLines. cbn [foldl].
  rewrite parseLine_header, foldl_app.
  rewrite parse_quoted_lines by assumption.
  cbn [foldl app]. rewrite parseLine_blank, Htrim. reflexivity.
Qed.

(** X8: a chat written to its note is read back from it.  For messages
    whose text has no white space at either end and no line that starts
    with [**You:**] or [**AI:**], [_parseExistingContent] on the text
    [_saveToNote] wrote yields the same messages in the same order, a
    message of any role other than [user] being read back as the
    assistant's. *)
Theorem note_round_trip (msgs : list Message) :
  Forall storable msgs ->
  _parseExistingContent [] (_saveToNote msgs) = map savedAs msgs.
Proof.
  intros Hall. unfold _parseExistingContent.
  rewrite split_lines_saveToNote, foldl_app.
  assert (forall acc,
            foldl parseLine
              {| currentRole := None; currentContent := []; parsed := acc |}
              (concat (map blockLines msgs))
            = {| currentRole := None; currentContent := [];
                 parsed := acc ++ map savedAs msgs |}) as H.
  { induction Hall as [|m msgs Hm Hmsgs IH]; intros acc.
    - by rewrite app_nil_r.
    - cbn [map concat]. rewrite foldl_app, parse_block by assumption.
      rewrite IH, <- app_assoc. reflexivity. }
  rewrite H. reflexivity.
Qed.

Lemma note_round_trip_witness :
  _parseExistingContent [] (_saveToNote sampleChat) = map savedAs sampleChat.
Proof.
  apply (note_round_trip sampleChat).
  repeat constructor.
Defined.

(** ** Failures of the transport and of the body *)

Section Failures.
Context {nm : NumberModel}.

Lemma chat_stream_run (env : Env) (options : ChatOptions) (onChunk : bool)
  (w : World) (st : N) (values : list jsstring) (fin : option JSError) :
  wellFormed w -> duringFetch env = [] -> quietReads env ->
  opt_stream options = true ->
  transport env (chatRequest (_settings (client w)) options (nextController w))
    = Resolves true st (Some {| chunks := values; ending := fin |}) ->
  let ds := streamDeltas (_isOllama (_settings (client w))) values in
  chat env options onChunk w
  = finishStream fin (concat (map snd ds))
      (addTokens onChunk (map fst ds)
         (snd (logRequest
                 (chatRequest (_settings (client w)) options (nextController w))
                 (allocated w)))).
Proof.
  intros Hw Hf Hq Hs Htr ds. rewrite chat_unfold. unfold bind.
  rewrite fetch_undisturbed; [|assumption|by apply signalAborted_fresh].
  rewrite Htr. unfold chatContinue. cbn [ok negb]. rewrite Hs. cbn [negb].
  change {| ok := true; status := st;
            body := Some {| chunks := values; ending := fin |};
            signal := req_signal
              (chatRequest (_settings (client w)) options (nextController w)) |}
    with (streamResponse true st values fin (Some (nextController w))).
  rewrite processStream_quietReads by assumption.
  change (signalAborted (Some (nextController w)) (snd (logRequest _ (allocated w))))
    with (signalAborted (Some (nextController w)) (allocated w)).
  rewrite signalAborted_fresh by assumption. reflexivity.
Qed.

(** X9: [chat] hands on the failures of the transport as they are.  With no
    other call made meanwhile, a rejection of the transport makes [chat]
    reject with the same error before any callback invocation; and in
    streaming mode a body that fails after some chunks makes [chat] reject
    with the error of the body, after the callback was invoked with the
    deltas of all the chunks that arrived: the text received so far is not
    returned. *)
Theorem chat_propagates_failures
  (env : Env) (options : ChatOptions) (onChunk : bool) (w : World) :
  wellFormed w -> duringFetch env = [] -> quietReads env ->
  let request := chatRequest (_settings (client w)) options (nextController w) in
  (forall e, transport env request = Rejects e ->
     fst (chat env options onChunk w) = Throw e
     /\ tokens (snd (chat env options onChunk w)) = tokens w)
  /\ (forall st values e,
        opt_stream options = true ->
        transport env request
          = Resolves true st (Some {| chunks := values; ending := Some e |}) ->
        fst (chat env options onChunk w) = Throw e
        /\ tokens (snd (chat env options onChunk w))
           = tokens w
             ++ (if onChunk
                 then map fst (streamDeltas (_isOllama (_settings (client w))) values)
                 else [])).
Proof.
  intros Hw Hf Hq request. split.
  - intros e Htr. rewrite chat_unfold. unfold bind.
    rewrite fetch_undisturbed; [|assumption|by apply signalAborted_fresh].
    fold request. rewrite Htr. split; reflexivity.
  - intros st values e Hs Htr.
    rewrite (chat_stream_run env options onChunk w st values (Some e))
      by assumption.
    cbn [finishStream throw fst snd]. split; [reflexivity|].
    by rewrite addTokens_tokens.
Qed.

End Failures.

Lemma chat_propagates_failures_witness :
  fst (chat (nm := literalNumbers)
         (quietEnv (servesEnding [lineHel ++ [LF]]
                      (Some (NetworkError (lit "connection reset")))))
         (sampleOptions true) true (sampleWorld localSettings))
  = Throw (NetworkError (lit "connection reset"))
  /\ tokens (snd (chat (nm := literalNumbers)
                    (quietEnv (servesEnding [lineHel ++ [LF]]
                                 (Some (NetworkError (lit "connection reset")))))
                    (sampleOptions true) true (sampleWorld localSettings)))
     = [JSString (lit "Hel")].
Proof.
  destruct (chat_propagates_failures (nm := literalNumbers)
              (quietEnv (servesEnding [lineHel ++ [LF]]
                           (Some (NetworkError (lit "connection reset")))))
              (sampleOptions true) true (sampleWorld localSettings)
              (wellFormed_sampleWorld _) eq_refl (quietEnv_quietReads _))
    as [_ H].
  exact (H 200 [lineHel ++ [LF]] (NetworkError (lit "connection reset"))
           eq_refl eq_refl).
Defined.

(** ** Cancellation while the body is read *)

Lemma runCalls_aborted_mono (calls : list Call) (w : World) (h : nat) :
  h ∈ abortedSignals w ->
  h ∈ abortedSignals (foldl (fun w' c => runCall c w') w calls).
Proof.
  revert w. induction calls as [|c calls IH]; intros w Hh; [exact Hh|].
  cbn [foldl]. apply IH. destruct c; cbn [runCall]; [exact Hh|].
  unfold abort. destruct (_abortController (client w)); [|exact Hh].
  cbn. apply elem_of_union. by right.
Qed.

Lemma runCalls_abort (calls : list Call) (w : World) (h : nat) :
  CallAbort ∈ calls -> _abortController (client w) = Some h ->
  h ∈ abortedSignals (foldl (fun w' c => runCall c w') w calls).
Proof.
  revert w. induction calls as [|c calls IH]; intros w Hin Hh.
  - by apply elem_of_nil in Hin.
  - cbn [foldl]. apply elem_of_cons in Hin as [<-|Hin].
    + apply runCalls_aborted_mono. cbn [runCall]. unfold abort. rewrite Hh.
      cbn. apply elem_of_union. left. by apply elem_of_singleton.
    + apply IH; [exact Hin|].
      destruct (runCall_quiet c w) as (_ & _ & _ & Hc & _). congruence.
Qed.

Lemma awaitRead_aborted (env : Env) (h : nat) (i : nat) (w : World) :
  CallAbort ∈ duringRead env i -> _abortController (client w) = Some h ->
  exists w', awaitRead env (Some h) i w = (Throw AbortError, w')
             /\ tokens w' = tokens w.
Proof.
  intros Hin Hh. unfold awaitRead, bind, interleave, checkSignal.
  set (wi := foldl (fun w' c => runCall c w') w (duringRead env i)).
  assert (signalAborted (Some h) wi = true) as ->.
  { cbn. apply bool_decide_eq_true. by apply runCalls_abort. }
  exists wi. split; [reflexivity|].
  by destruct (runCalls_quiet (duringRead env i) w) as (Ht & _).
Qed.

Lemma awaitRead_undisturbed (env : Env) (sig : option nat) (i : nat) (w : World) :
  duringRead env i = [] -> signalAborted sig w = false ->
  awaitRead env sig i w = (Normal tt, w).
Proof.
  intros Hq Hs. unfold awaitRead, bind, interleave, checkSignal.
  rewrite Hq. cbn [foldl]. by rewrite Hs.
Qed.

Section Cancellation.
Context {nm : NumberModel}.

Lemma readLoop_aborted (env : Env) (isOllama onChunk : bool) (h : nat)
  (fin : option JSError) (post : list jsstring) :
  forall (pre : list jsstring) (i : nat) (content : jsstring) (w : World),
    (forall j, (j < length pre)%nat -> duringRead env (i + j) = []) ->
    CallAbort ∈ duringRead env (i + length pre) ->
    _abortController (client w) = Some h ->
    signalAborted (Some h) w = false ->
    exists w',
      readLoop env isOllama onChunk (Some h) i (pre ++ post) fin content w
      = (Throw AbortError, w')
      /\ tokens w'
         = tokens (addTokens onChunk (map fst (streamDeltas isOllama pre)) w).
Proof.
  induction pre as [|value pre IH]; intros i content w Hq Hin Hh Hs.
  - cbn [length] in Hin. rewrite Nat.add_0_r in Hin.
    destruct (awaitRead_aborted env h i w Hin Hh) as (w' & Hr & Ht).
    exists w'. cbn [app streamDeltas map concat]. rewrite addTokens_nil.
    split; [|exact Ht].
    destruct post; cbn [readLoop]; unfold bind; by rewrite Hr.
  - cbn [app readLoop]. unfold bind at 1.
    rewrite awaitRead_undisturbed;
      [|rewrite <- (Nat.add_0_r i); apply Hq; cbn; lia | exact Hs].
    cbn zeta. unfold bind at 1. rewrite forLines_spec.
    destruct (IH (S i)
                (content ++ concat (map snd (linesDeltas isOllama
                   (List.filter nonBlank (split_lines value)))))
                (addTokens onChunk (map fst (linesDeltas isOllama
                   (List.filter nonBlank (split_lines value)))) w))
      as (w' & Hr & Ht).
    + intros j Hj. replace (S i + j)%nat with (i + S j)%nat by lia.
      apply Hq. cbn. lia.
    + replace (S i + length pre)%nat with (i + length (value :: pre))%nat
        by (cbn; lia).
      exact Hin.
    + by rewrite addTokens_client.
    + by rewrite signalAborted_addTokens.
    + exists w'. split; [exact Hr|]. rewrite Ht.
      rewrite streamDeltas_cons, map_app, addTokens_app. reflexivity.
Qed.

(** X10: [abort()] cancels the call whose body is being read.  When
    [abort()] is called while a streaming [chat] awaits a chunk, no other
    call having been made before, [chat] rejects with an [AbortError]; the
    callback was invoked with the deltas of the chunks read before, and is
    not invoked for any later chunk. *)
Theorem chat_abort_while_streaming
  (env : Env) (options : ChatOptions) (onChunk : bool) (w : World)
  (st : N) (pre post : list jsstring) (fin : option JSError) :
  wellFormed w -> duringFetch env = [] ->
  (forall j, (j < length pre)%nat -> duringRead env j = []) ->
  CallAbort ∈ duringRead env (length pre) ->
  opt_stream options = true ->
  transport env (chatRequest (_settings (client w)) options (nextController w))
    = Resolves true st (Some {| chunks := pre ++ post; ending := fin |}) ->
  fst (chat env options onChunk w) = Throw AbortError
  /\ tokens (snd (chat env options onChunk w))
     = tokens w
       ++ (if onChunk
           then map fst (streamDeltas (_isOllama (_settings (client w))) pre)
           else []).
Proof.
  intros Hw Hf Hq Hin Hs Htr. rewrite chat_unfold. unfold bind.
  rewrite fetch_undisturbed; [|assumption|by apply signalAborted_fresh].
  rewrite Htr. unfold chatContinue. cbn [ok negb]. rewrite Hs. cbn [negb].
  unfold _processStream. cbn [body chunks ending signal req_signal chatRequest].
  unfold bind, getSettings.
  set (w1 := snd (logRequest _ (allocated w))).
  destruct (readLoop_aborted env (_isOllama (_settings (client w1))) onChunk
              (nextController w) fin post pre 0 [] w1) as (w' & Hr & Ht).
  - exact Hq.
  - exact Hin.
  - reflexivity.
  - change (signalAborted (Some (nextController w)) w1)
      with (signalAborted (Some (nextController w)) (allocated w)).
    by apply signalAborted_fresh.
  - rewrite Hr. cbn [fst snd]. split; [reflexivity|].
    rewrite Ht, addTokens_tokens. reflexivity.
Qed.

End Cancellation.

Lemma chat_abort_while_streaming_witness :
  fst (chat (nm := literalNumbers)
         (abortingEnv (serves true 200 [lineHel ++ [LF]; lineLo ++ [LF]]))
         (sampleOptions true) true (sampleWorld localSettings))
  = Throw AbortError
  /\ tokens (snd (chat (nm := literalNumbers)
                    (abortingEnv (serves true 200 [lineHel ++ [LF]; lineLo ++ [LF]]))
                    (sampleOptions true) true (sampleWorld localSettings)))
     = [JSString (lit "Hel")].
Proof.
  apply (chat_abort_while_streaming (nm := literalNumbers)
           (abortingEnv (serves true 200 [lineHel ++ [LF]; lineLo ++ [LF]]))
           (sampleOptions true) true (sampleWorld localSettings)
           200 [lineHel ++ [LF]] [lineLo ++ [LF]] None).
  - apply wellFormed_sampleWorld.
  - reflexivity.
  - intros j Hj. cbn in Hj. by replace j with 0%nat by lia.
  - cbn. apply elem_of_cons. by left.
  - reflexivity.
  - reflexivity.
Defined.

(** ** [fetchModels]: its request, and what [abort()] does to it *)

Lemma fetch_unsignalled (env : Env) (req : FetchRequest) (w : World) :
  req_signal req = None ->
  fetch env req w
  = (match transport env req with
     | Rejects e => Throw e
     | Resolves o st b =>
         Normal {| ok := o; status := st; body := b; signal := None |}
     end,
     foldl (fun w' c => runCall c w') (snd (logRequest req w)) (duringFetch env)).
Proof.
  intros Hs. unfold fetch, bind, interleave, checkSignal. cbn [logRequest snd].
  rewrite Hs. cbn [signalAborted]. by destruct (transport env req).
Qed.

Lemma responseJson_unsignalled (env : Env) (response : Response) (w : World) :
  signal response = None ->
  responseJson env response w
  = (bodyJson response, foldl (fun w' c => runCall c w') w (duringJson env)).
Proof.
  intros Hs. unfold responseJson, bind, interleave, checkSignal, lift.
  rewrite Hs. reflexivity.
Qed.

Lemma settingsAfter_updates (calls : list Call) (s : OllamaSettings) :
  settingsAfter (List.filter isUpdateCall calls) s = settingsAfter calls s.
Proof.
  unfold settingsAfter. revert s.
  induction calls as [|c calls IH]; intros s; [reflexivity|].
  destruct c; cbn [List.filter isUpdateCall isAbortCall negb foldl]; apply IH.
Qed.

Section ModelsRequest.
Context {nm : NumberModel}.

(** What [fetchModels] does once [fetch] resolved. *)
Lemma fetchModelsBody_unfold (env : Env) (w : World) :
  fetchModelsBody env w
  = bind (fetch env (modelsRequest (_settings (client w))))
      (fun response =>
         if negb (ok response) then ret (JSArray [])
         else
           let* data := responseJson env response in
           let* s' := getSettings in
           if _isOllama s' then
             let* models := lift (getField data "models") in
             ret (orElse models (JSArray []))
           else
             let* d := lift (getField data "data") in
             if toBoolean d then lift (arrayMap d modelInfo)
             else ret (JSArray [])) w.
Proof. reflexivity. Qed.

(** The result of [fetchModels] is settled by the transport's answer and
    the settings in force once the body was read. *)
Lemma fetchModelsBody_result (env : Env) (w : World) :
  fst (fetchModelsBody env w)
  = match transport env (modelsRequest (_settings (client w))) with
    | Rejects e => Throw e
    | Resolves o st b =>
        if negb o then Normal (JSArray [])
        else
          let! data :=
            bodyJson {| ok := o; status := st; body := b; signal := None |} in
          if _isOllama (settingsAfter (duringFetch env ++ duringJson env)
                          (_settings (client w)))
          then
            let! models := getField data "models" in
            Normal (orElse models (JSArray []))
          else
            let! d := getField data "data" in
            if toBoolean d then arrayMap d modelInfo else Normal (JSArray [])
    end.
Proof.
  rewrite fetchModelsBody_unfold. unfold bind at 1.
  rewrite fetch_unsignalled by reflexivity.
  destruct (transport env _) as [e|o st b]; [reflexivity|].
  cbn [ok]. destruct o; cbn [negb]; [|reflexivity].
  unfold bind at 1. rewrite responseJson_unsignalled by reflexivity.
  destruct (bodyJson _) as [data|e]; [|reflexivity].
  cbn [cbind]. unfold bind at 1, getSettings.
  rewrite !runCalls_settings, <- settingsAfter_app. cbn [logRequest snd client].
  destruct (_isOllama _); unfold bind, lift.
  - by destruct (getField data "models").
  - destruct (getField data "data") as [d|]; [|reflexivity].
    cbn [cbind]. by destruct (toBoolean d).
Qed.

Lemma fetchModelsBody_frame (env : Env) (w : World) :
  let w' := snd (fetchModelsBody env w) in
  requests w' = requests w ++ [modelsRequest (_settings (client w))]
  /\ tokens w' = tokens w
  /\ nextController w' = nextController w
  /\ _abortController (client w') = _abortController (client w).
Proof.
  intros w'. subst w'.
  destruct (fetchModelsBody env w) as [r w2] eqn:H. cbn [snd].
  rewrite fetchModelsBody_unfold in H. unfold bind at 1 in H.
  destruct (fetch env _ w) as [rf w1] eqn:Hf.
  apply fetch_inv in Hf as (Hr & Ht & Hn & Ha & _).
  destruct rf as [resp|e]; [|injection H as <- <-; repeat split; assumption].
  assert (keeps quietStep
            (fun w0 =>
               (if negb (ok resp) then ret (JSArray [])
                else
                  let* data := responseJson env resp in
                  let* s' := getSettings in
                  if _isOllama s' then
                    let* models := lift (getField data "models") in
                    ret (orElse models (JSArray []))
                  else
                    let* d := lift (getField data "data") in
                    if toBoolean d then lift (arrayMap d modelInfo)
                    else ret (JSArray [])) w0)) as Hk.
  { destruct (negb (ok resp)); [apply keeps_ret; eauto with frames|].
    apply keeps_bind; eauto with frames. { apply responseJson_quiet. }
    intros data. apply keeps_bind; eauto with frames.
    { intros w0. apply quietStep_refl. }
    intros s'. destruct (_isOllama s').
    - apply keeps_bind; eauto with frames.
      { apply keeps_lift; eauto with frames. }
      intros models. apply keeps_ret; eauto with frames.
    - apply keeps_bind; eauto with frames.
      { apply keeps_lift; eauto with frames. }
      intros d. destruct (toBoolean d);
        [apply keeps_lift | apply keeps_ret]; eauto with frames. }
  destruct (Hk w1) as (Kt & Kr & Kn & Ka & _).
  rewrite H in Kt, Kr, Kn, Ka. cbn [snd] in Kt, Kr, Kn, Ka.
  repeat split; congruence.
Qed.

(** X11: [fetchModels] issues one request and cannot be cancelled.  Whatever
    the transport answers and whatever is called meanwhile, [fetchModels]
    hands the transport exactly one request, a [GET] to the models endpoint
    without body and without signal; it invokes no callback and leaves the
    controller of a [chat] call as it is; and the [abort()] calls made
    while it is suspended do not change what it resolves to. *)
Theorem fetchModels_one_request_not_cancellable (env : Env) (w : World) :
  let w' := snd (fetchModels env w) in
  requests w' = requests w ++ [modelsRequest (_settings (client w))]
  /\ tokens w' = tokens w
  /\ nextController w' = nextController w
  /\ _abortController (client w') = _abortController (client w)
  /\ fst (fetchModels env w) = fst (fetchModels (withoutAborts env) w).
Proof.
  intros w'. subst w'.
  assert (forall env0,
            fst (fetchModels env0 w)
            = match fst (fetchModelsBody env0 w) with
              | Normal v => Normal v
              | Throw _ => Normal (JSArray [])
              end) as Hfst.
  { intros env0. unfold fetchModels, tryCatch.
    by destruct (fetchModelsBody env0 w) as [[v|e] w1]. }
  assert (snd (fetchModels env w) = snd (fetchModelsBody env w)) as ->.
  { unfold fetchModels, tryCatch.
    by destruct (fetchModelsBody env w) as [[v|e] w1]. }
  destruct (fetchModelsBody_frame env w) as (Hr & Ht & Hn & Ha).
  repeat (split; [assumption|]).
  rewrite !Hfst, !fetchModelsBody_result.
  cbn [withoutAborts transport duringFetch duringJson].
  rewrite <- List.filter_app, settingsAfter_updates. reflexivity.
Qed.

(** C6 (as amended): [fetchModels] never rejects, whatever the transport
    does and whatever is called meanwhile, and what it resolves to is
    settled as follows.  It is the empty collection when the transport
    rejects, when the status is not a success, and whenever anything throws
    (the body does not parse, a property is read off [null]).  For a success
    whose body parses: under the local dialect it is the payload's [models]
    value as it is when that value is truthy, a collection or not, and the
    empty collection otherwise; under the OpenAI-compatible dialect it is
    always a collection: the descriptors mapped from the payload's [data]
    value, or the empty collection when that value is falsy or the mapping
    throws.  The dialect is the one of the settings in force once the body
    was read. *)
Theorem fetchModels_never_rejects (env : Env) (w : World) :
  let request := modelsRequest (_settings (client w)) in
  let isLocal :=
    _isOllama (settingsAfter (duringFetch env ++ duringJson env)
                 (_settings (client w))) in
  exists v w',
    fetchModels env w = (Normal v, w')
    /\ ((exists e, transport env request = Rejects e) -> v = JSArray [])
    /\ (forall st bd, transport env request = Resolves false st bd ->
                      v = JSArray [])
    /\ (forall st bd,
          transport env request = Resolves true st bd ->
          let payload :=
            bodyJson {| ok := true; status := st; body := bd; signal := None |} in
          ((exists e, payload = Throw e) -> v = JSArray [])
          /\ (forall data,
                payload = Normal data ->
                if isLocal then
                  match getField data "models" with
                  | Normal models =>
                      v = if toBoolean models then models else JSArray []
                  | Throw _ => v = JSArray []
                  end
                else
                  isArray v
                  /\ match getField data "data" with
                     | Normal d =>
                         if toBoolean d then
                           match arrayMap d modelInfo with
                           | Normal r => v = r
                           | Throw _ => v = JSArray []
                           end
                         else v = JSArray []
                     | Throw _ => v = JSArray []
                     end)).
Proof.
  intros request isLocal.
  pose proof (fetchModelsBody_result env w) as Hres.
  fold request isLocal in Hres.
  unfold fetchModels, tryCatch.
  destruct (fetchModelsBody env w) as [r w1]. cbn [fst] in Hres. subst r.
  destruct (transport env request) as [e|o st bd] eqn:Htr.
  { exists (JSArray []), w1. split; [reflexivity|].
    split; [reflexivity|]. split; discriminate. }
  destruct o; cbn [negb].
  2:{ exists (JSArray []), w1. split; [reflexivity|].
      split; [reflexivity|]. split; [reflexivity | discriminate]. }
  destruct (bodyJson {| ok := true; status := st; body := bd; signal := None |})
    as [data|e] eqn:Hb; cbn [cbind].
  2:{ exists (JSArray []), w1. split; [reflexivity|].
      split; [intros [e' He']; discriminate|]. split; [discriminate|].
      intros st' bd' [= <- <-]. cbn zeta. rewrite Hb.
      split; [reflexivity | discriminate]. }
  assert (forall v : JSValue,
            (if isLocal then
               match getField data "models" with
               | Normal models =>
                   v = if toBoolean models then models else JSArray []
               | Throw _ => v = JSArray []
               end
             else
               isArray v
               /\ match getField data "data" with
                  | Normal d =>
                      if toBoolean d then
                        match arrayMap d modelInfo with
                        | Normal r => v = r
                        | Throw _ => v = JSArray []
                        end
                      else v = JSArray []
                  | Throw _ => v = JSArray []
                  end) ->
            (Normal v, w1) = (Normal v, w1)
            /\ ((exists e, Resolves true st bd = Rejects e) -> v = JSArray [])
            /\ (forall st' bd', Resolves true st bd = Resolves false st' bd' ->
                                v = JSArray [])
            /\ (forall st' bd',
                  Resolves true st bd = Resolves true st' bd' ->
                  let payload :=
                    bodyJson {| ok := true; status := st'; body := bd';
                                signal := None |} in
                  ((exists e, payload = Throw e) -> v = JSArray [])
                  /\ (forall data',
                        payload = Normal data' ->
                        if isLocal then
                          match getField data' "models" with
                          | Normal models =>
                              v = if toBoolean models then models else JSArray []
                          | Throw _ => v = JSArray []
                          end
                        else
                          isArray v
                          /\ match getField data' "data" with
                             | Normal d =>
                                 if toBoolean d then
                                   match arrayMap d modelInfo with
                                   | Normal r => v = r
                                   | Throw _ => v = JSArray []
                                   end
                                 else v = JSArray []
                             | Throw _ => v = JSArray []
                             end))) as Hfin.
  { intros v Hv. split; [reflexivity|].
    split; [intros [e' He']; discriminate|]. split; [discriminate|].
    intros st' bd' [= <- <-]. cbn zeta. rewrite Hb.
    split; [intros [e' He']; discriminate|]. by intros data' [= <-]. }
  assert (isArray (JSArray [])) as Hnil by (by exists []).
  destruct isLocal.
  - destruct (getField data "models") as [models|e] eqn:Hm; cbn [cbind].
    + exists (orElse models (JSArray [])), w1. by apply Hfin.
    + exists (JSArray []), w1. by apply Hfin.
  - destruct (getField data "data") as [d|e] eqn:Hd; cbn [cbind].
    + destruct (toBoolean d) eqn:Hbd.
      * destruct (arrayMap d modelInfo) as [r|e] eqn:Hr.
        -- exists r, w1. apply Hfin.
           split; [by apply (arrayMap_isArray d r modelInfo) | reflexivity].
        -- exists (JSArray []), w1. by apply Hfin.
      * exists (JSArray []), w1. by apply Hfin.
    + exists (JSArray []), w1. by apply Hfin.
Qed.

(** What the callback of [map] makes of an entry. *)
Lemma modelInfo_fields (m d : JSValue) :
  modelInfo m = Normal d ->
  getField d "name" = getField m "id"
  /\ getField d "size" = Normal (JSNumber (lit "0")).
Proof.
  unfold modelInfo. destruct (getField m "id") as [name|]; [|discriminate].
  cbn [cbind]. destruct (getField m "created") as [created|]; [|discriminate].
  cbn [cbind].
  destruct (toBoolean created);
    [destruct (createdToISOString created); [|discriminate]|];
    cbn [cbind]; intros [= <-]; split; reflexivity.
Qed.

Lemma mapCompletion_Forall2 {A B : Type} (f : A -> Completion B) (l : list A)
  (r : list B) :
  mapCompletion f l = Normal r <-> Forall2 (fun a b => f a = Normal b) l r.
Proof.
  revert r. induction l as [|a l IH]; intros r; cbn [mapCompletion].
  - split; [intros [= <-]; constructor | inversion 1; reflexivity].
  - split.
    + destruct (f a) as [b|] eqn:Hb; [|discriminate]. cbn [cbind].
      destruct (mapCompletion f l) as [bs|] eqn:Hbs; [|discriminate].
      intros [= <-]. constructor; [exact Hb | by apply IH].
    + inversion 1 as [|? b ? bs Hb Hbs]; subst. rewrite Hb. cbn [cbind].
      apply IH in Hbs. rewrite Hbs. reflexivity.
Qed.

Lemma mapCompletion_throws {A B : Type} (f : A -> Completion B) (l : list A) :
  Exists (fun a => exists e, f a = Throw e) l ->
  exists e, mapCompletion f l = Throw e.
Proof.
  induction 1 as [a l [e He]|a l _ [e IH]]; cbn [mapCompletion].
  - rewrite He. by exists e.
  - destruct (f a) as [b|e']; [|by exists e']. cbn [cbind]. rewrite IH.
    by exists e.
Qed.

(** X12: the list of an OpenAI-compatible provider is mapped entry by entry,
    or not at all.  For a success response whose payload has an array in
    its [data] field, under the OpenAI-compatible dialect: when the callback
    of [map] succeeds on every entry, [fetchModels] resolves to as many
    descriptors in the same order, each with the [id] of its entry as
    [name] and the size 0; when it throws on one entry (an entry that is
    [null], say), [fetchModels] resolves to the empty collection and the
    other entries are lost. *)
Theorem fetchModels_openai_mapping
  (env : Env) (w : World) (st : N) (bd : option BodyStream)
  (data : JSValue) (entries : list JSValue) :
  transport env (modelsRequest (_settings (client w))) = Resolves true st bd ->
  bodyJson {| ok := true; status := st; body := bd; signal := None |}
    = Normal data ->
  _isOllama (settingsAfter (duringFetch env ++ duringJson env)
               (_settings (client w))) = false ->
  getField data "data" = Normal (JSArray entries) ->
  (forall descriptors,
     Forall2 (fun m d => modelInfo m = Normal d) entries descriptors ->
     fst (fetchModels env w) = Normal (JSArray descriptors)
     /\ length descriptors = length entries
     /\ Forall2 (fun m d => getField d "name" = getField m "id"
                            /\ getField d "size" = Normal (JSNumber (lit "0")))
          entries descriptors)
  /\ (Exists (fun m => exists e, modelInfo m = Throw e) entries ->
      fst (fetchModels env w) = Normal (JSArray [])).
Proof.
  intros Htr Hb Hd Hdata.
  assert (fst (fetchModels env w)
          = match mapCompletion modelInfo entries with
            | Normal r => Normal (JSArray r)
            | Throw _ => Normal (JSArray [])
            end) as Hrun.
  { unfold fetchModels, tryCatch.
    pose proof (fetchModelsBody_result env w) as H.
    rewrite Htr in H. cbn [negb] in H. rewrite Hb in H. cbn [cbind] in H.
    rewrite Hd, Hdata in H. cbn [cbind toBoolean arrayMap] in H.
    destruct (fetchModelsBody env w) as [r w1]. cbn [fst] in H. subst r.
    by destruct (mapCompletion modelInfo entries). }
  split.
  - intros descriptors Hall. split; [|split].
    + rewrite Hrun. apply mapCompletion_Forall2 in Hall. by rewrite Hall.
    + symmetry. by eapply Forall2_length.
    + eapply Forall2_impl; [exact Hall|]. intros m d. apply modelInfo_fields.
  - intros Hex. rewrite Hrun.
    destruct (mapCompletion_throws modelInfo entries Hex) as [e ->].
    reflexivity.
Qed.

(** X13: without streaming the callback is never invoked.  A [chat] call
    whose options do not ask for streaming invokes the callback it was
    given not once, whatever the transport answers and whatever is called
    meanwhile: a caller that assembles the response from the callback
    alone is left with nothing. *)
Theorem chat_non_streaming_never_calls_back
  (env : Env) (options : ChatOptions) (onChunk : bool) (w : World) :
  opt_stream options = false ->
  tokens (snd (chat env options onChunk w)) = tokens w.
Proof.
  intros Hs. rewrite chat_unfold. unfold bind.
  destruct (fetch env _ (allocated w)) as [rf w1] eqn:Hf.
  apply fetch_inv in Hf as (_ & Ht & _).
  change (tokens (allocated w)) with (tokens w) in Ht.
  destruct rf as [resp|e]; [|exact Ht].
  unfold chatContinue. rewrite Hs. cbn [negb].
  destruct (negb (ok resp)).
  - destruct (failWithApiError_quiet env resp w1) as (Kt & _). congruence.
  - destruct (decodeWhole_quiet env resp w1) as (Kt & _). congruence.
Qed.

End ModelsRequest.

Lemma fetchModels_openai_mapping_witness :
  fst (fetchModels (nm := literalNumbers)
         (abortedModelsEnv (serves true 200 [openaiModels]))
         (sampleWorld openaiSettings))
  = Normal (JSArray
      [JSObject [(lit "name", JSString (lit "gpt-4o"));
                 (lit "modified_at", JSString []);
                 (lit "size", JSNumber (lit "0"))];
       JSObject [(lit "name", JSString (lit "gpt-4o-mini"));
                 (lit "modified_at", JSString []);
                 (lit "size", JSNumber (lit "0"))]]).
Proof.
  destruct (fetchModels_openai_mapping (nm := literalNumbers)
              (abortedModelsEnv (serves true 200 [openaiModels]))
              (sampleWorld openaiSettings) 200
              (Some {| chunks := [openaiModels]; ending := None |})
              (JSObject
                 [(lit "object", JSString (lit "list"));
                  (lit "data",
                   JSArray
                     [JSObject [(lit "id", JSString (lit "gpt-4o"));
                                (lit "object", JSString (lit "model"))];
                      JSObject [(lit "id", JSString (lit "gpt-4o-mini"))]])])
              [JSObject [(lit "id", JSString (lit "gpt-4o"));
                         (lit "object", JSString (lit "model"))];
               JSObject [(lit "id", JSString (lit "gpt-4o-mini"))]]
              eq_refl ltac:(vm_compute; reflexivity) ltac:(vm_compute; reflexivity)
              ltac:(vm_compute; reflexivity))
    as [H _].
  apply H. repeat constructor.
Defined.

Lemma chat_non_streaming_never_calls_back_witness :
  tokens (snd (chat (nm := literalNumbers)
                 (quietEnv (serves true 200 [localPayload]))
                 (sampleOptions false) true (sampleWorld localSettings)))
  = tokens (sampleWorld localSettings).
Proof.
  exact (chat_non_streaming_never_calls_back (nm := literalNumbers)
           (quietEnv (serves true 200 [localPayload]))
           (sampleOptions false) true (sampleWorld localSettings) eq_refl).
Defined.

(** ** The summary prompt *)

Lemma section_length (c : PdfParser.PDFContent) :
  length (PdfParser.section c)
  = (20 + length (PdfParser.filename c)
     + length (decimal (PdfParser.pageCount c))
     + length (PdfParser.text c) `min` PdfParser.substringLimit)%nat.
Proof.
  unfold PdfParser.section. rewrite !length_app, length_take.
  change (length (lit "--- ")) with 4%nat.
  change (length (lit " (")) with 2%nat.
  change (length (lit " pages) ---")) with 11%nat.
  cbn [length]. lia.
Qed.

(** X14: the summary prompt takes at most 8000 code units of each
    document.  The prompt is 38 code units of introduction followed, for
    each document in order, by a section of 20 code units of framing, the
    file name, the page count in decimal and the first 8000 code units of
    the text (all of it when it is shorter): however long the documents
    are, the prompt grows by a bounded amount per document. *)
Theorem createSummaryPrompt_length (contents : list PdfParser.PDFContent) :
  length (PdfParser.createSummaryPrompt contents)
  = (38 + sum_list_with
            (fun c => 20 + length (PdfParser.filename c)
                      + length (decimal (PdfParser.pageCount c))
                      + length (PdfParser.text c) `min` PdfParser.substringLimit)
            contents)%nat.
Proof.
  unfold PdfParser.createSummaryPrompt.
  change 38%nat
    with (length (lit "Summarize the following document(s):" ++ [LF; LF])).
  generalize (lit "Summarize the following document(s):" ++ [LF; LF]).
  induction contents as [|c contents IH]; intros acc; cbn [foldl sum_list_with].
  - lia.
  - rewrite IH, length_app, section_length. lia.
Qed.

(** ** The stream decoders of the multi-provider client *)

Lemma replaceFirst_prefix (pat p rep : jsstring) :
  replaceFirst (pat ++ p) pat rep = rep ++ p.
Proof.
  assert (forall s, replaceFirst s pat rep
                    = if startsWith s pat then rep ++ drop (length pat) s
                      else match s with
                           | c :: s' => c :: replaceFirst s' pat rep
                           | [] => []
                           end) as Hunfold by (by intros []).
  rewrite Hunfold, startsWith_app. by rewrite drop_app_length.
Qed.

Lemma startsWith_split (line pat : jsstring) :
  startsWith line pat = true -> line = pat ++ drop (length pat) line.
Proof.
  revert line. induction pat as [|c pat IH]; intros line H; [reflexivity|].
  destruct line as [|a line]; [discriminate|]. cbn [startsWith] in H.
  apply andb_true_iff in H as [Ha H]. apply N.eqb_eq in Ha. subst a.
  cbn [length drop app]. f_equal. by apply IH.
Qed.

Lemma trimStart_app_nonspace (l : jsstring) (c : N) (t : jsstring) :
  isTrimSpace c = false -> exists l', trimStart (l ++ c :: t) = l' ++ c :: t.
Proof.
  intros Hc. induction l as [|a l [l' IH]].
  - exists []. cbn [app trimStart]. by rewrite Hc.
  - cbn [app trimStart]. destruct (isTrimSpace a); [by exists l'|].
    by exists (a :: l).
Qed.

Lemma trimEnd_prefix (a : jsstring) (c : N) (b : jsstring) :
  isTrimSpace c = false -> exists r, trimEnd (a ++ c :: b) = a ++ c :: r.
Proof.
  intros Hc. unfold trimEnd.
  rewrite rev_app_distr. cbn [rev]. rewrite <- app_assoc. cbn [app].
  destruct (trimStart_app_nonspace (rev b) c (rev a) Hc) as [l' ->].
  exists (rev l'). rewrite rev_app_distr. cbn [rev].
  rewrite rev_involutive, <- app_assoc. reflexivity.
Qed.

Lemma isDataLine_data (p : jsstring) :
  Providers.isDataLine (lit "data: " ++ p) = true.
Proof.
  unfold Providers.isDataLine, trim.
  change (lit "data: " ++ p) with (100 :: (lit "ata: " ++ p)).
  rewrite trimStart_id by reflexivity.
  change (100 :: (lit "ata: " ++ p)) with (lit "data" ++ 58 :: (32 :: p)).
  destruct (trimEnd_prefix (lit "data") 58 (32 :: p) eq_refl) as [r ->].
  change (lit "data" ++ 58 :: r) with (lit "data:" ++ r).
  apply startsWith_app.
Qed.

Lemma isDataLine_nonBlank (line : jsstring) :
  Providers.isDataLine line = true -> nonBlank line = true.
Proof.
  unfold Providers.isDataLine, nonBlank. intros H.
  apply negb_true_iff, bool_decide_eq_false. intros E. by rewrite E in H.
Qed.

Lemma blank_not_data (line : jsstring) :
  trim line = [] -> Providers.isDataLine line = false /\ nonBlank line = false.
Proof.
  intros E. unfold Providers.isDataLine, nonBlank. rewrite E.
  split; [reflexivity|]. by rewrite bool_decide_true.
Qed.

Lemma sseLineb_sound (line : jsstring) : sseLineb line = true -> sseLine line.
Proof.
  unfold sseLineb, sseLine. intros H. apply orb_true_iff in H as [H|H].
  - left. by apply bool_decide_eq_true in H.
  - right. apply andb_true_iff in H as [Hs Ht].
    apply bool_decide_eq_true in Ht. apply startsWith_split in Hs.
    exists (drop 6 line). split; [exact Hs | exact Ht].
Qed.

Lemma forallb_Forall {A : Type} (f : A -> bool) (P : A -> Prop) (l : list A) :
  (forall a, f a = true -> P a) -> forallb f l = true -> Forall P l.
Proof.
  intros Hf. induction l as [|a l IH]; intros H; [constructor|].
  cbn [forallb] in H. apply andb_true_iff in H as [Ha Hl].
  constructor; [by apply Hf | by apply IH].
Qed.

Lemma sseLines_sound (values : list jsstring) :
  forallb (fun value => forallb sseLineb (split_lines value)) values = true ->
  Forall (fun value => Forall sseLine (split_lines value)) values.
Proof.
  apply forallb_Forall. intros value. apply forallb_Forall, sseLineb_sound.
Qed.

Section Providers.
Context {nm : NumberModel}.

Lemma openAILine_data (onChunk : bool) (p content : jsstring) (w : World) :
  trim p = p ->
  Providers.openAILine onChunk (lit "data: " ++ p) content w
  = tryCatch (lineBody false onChunk (lit "data: " ++ p) content)
             (fun _ => ret content) w.
Proof.
  intros Hp. unfold Providers.openAILine, Providers.dataOf.
  rewrite replaceFirst_prefix. cbn [app]. rewrite Hp.
  unfold lineBody, lineData. rewrite startsWith_app.
  change (slice_from 6 (lit "data: " ++ p)) with p.
  destruct (jsstring_eqb p (lit "[DONE]")); [reflexivity|].
  unfold tryCatch, bind, lift, eventChunk, Providers.deliver.
  destruct (JSON.parse p) as [parsed|]; [|reflexivity].
  destruct (getField parsed "choices") as [cs|]; [|reflexivity]. cbn [cbind].
  destruct (optIndex0 cs) as [c0|]; [|reflexivity]. cbn [cbind].
  destruct (optField c0 "delta") as [d|]; [|reflexivity]. cbn [cbind].
  destruct (optField d "content") as [c|]; reflexivity.
Qed.

Lemma forDataLines_forLines (onChunk : bool) (lines : list jsstring) :
  Forall sseLine lines ->
  forall (content : jsstring) (w : World),
    Providers.forDataLines (Providers.openAILine onChunk)
      (List.filter Providers.isDataLine lines) content w
    = forLines false onChunk (List.filter nonBlank lines) content w.
Proof.
  induction 1 as [|line lines Hl Hls IH]; intros content w; [reflexivity|].
  cbn [List.filter]. destruct Hl as [Hb|(p & -> & Hp)].
  - destruct (blank_not_data line Hb) as [-> ->]. apply IH.
  - rewrite isDataLine_data, (isDataLine_nonBlank _ (isDataLine_data p)).
    cbn [Providers.forDataLines forLines]. unfold bind.
    rewrite openAILine_data by assumption.
    destruct (tryCatch _ _ w) as [[content'|e] w1]; [apply IH | reflexivity].
Qed.

Lemma readAll_readLoop (env : Env) (onChunk : bool) (sig : option nat)
  (fin : option JSError) (pending : list jsstring) :
  Forall (fun value => Forall sseLine (split_lines value)) pending ->
  forall (i : nat) (content : jsstring) (w : World),
    Providers.readAll env (Providers.openAILine onChunk) sig i pending fin
      content w
    = readLoop env false onChunk sig i pending fin content w.
Proof.
  induction 1 as [|value rest Hv Hrest IH]; intros i content w; [reflexivity|].
  cbn [Providers.readAll readLoop]. unfold bind.
  destruct (awaitRead env sig i w) as [[[]|e] w1]; [|reflexivity].
  cbn zeta. rewrite forDataLines_forLines by assumption.
  destruct (forLines _ _ _ _ w1) as [[content'|e] w2]; [apply IH | reflexivity].
Qed.

(** X15: the two revisions of the client decode a server-sent event stream
    alike.  On a body each of whose lines is blank or the marker [data: ]
    followed by a payload without white space at either end,
    [_processOpenAIStream] of the multi-provider client and [_processStream]
    of the endpoint-based client under the OpenAI-compatible dialect settle
    alike, after the same callback invocations, whatever is called
    meanwhile. *)
Theorem openai_stream_decoders_agree
  (env : Env) (response : Response) (onChunk : bool) (w : World) :
  _isOllama (_settings (client w)) = false ->
  (forall b, body response = Some b ->
             Forall (fun value => Forall sseLine (split_lines value)) (chunks b)) ->
  Providers._processOpenAIStream env response onChunk w
  = _processStream env response onChunk w.
Proof.
  intros Hd Hb.
  unfold Providers._processOpenAIStream, Providers.processWith, _processStream.
  destruct (body response) as [b|]; [|reflexivity].
  unfold bind, getSettings. rewrite Hd. apply readAll_readLoop. by apply Hb.
Qed.

Lemma deliver_spec (onChunk : bool) (content : JSValue)
  (fullContent : jsstring) (w : World) :
  tryCatch (Providers.deliver onChunk content fullContent)
           (fun _ => ret fullContent) w
  = match delivered content with
    | Some (d, t) => (Normal (fullContent ++ t), addTokens onChunk [d] w)
    | None => (Normal fullContent, w)
    end.
Proof.
  unfold Providers.deliver, delivered, tryCatch.
  destruct (toBoolean content); [|reflexivity].
  unfold bind, liftOpt. destruct (toStringJS content) as [t|]; [|reflexivity].
  by destruct onChunk.
Qed.

Lemma openAILine_spec (onChunk : bool) :
  decodesAs onChunk (Providers.openAILine onChunk) openAILineDelta.
Proof.
  intros line c w. unfold Providers.openAILine, openAILineDelta. cbn zeta.
  destruct (jsstring_eqb _ _); [reflexivity|].
  pose proof (fun content => deliver_spec onChunk content c w) as H.
  unfold tryCatch, bind, lift in *.
  destruct (JSON.parse (Providers.dataOf line)) as [parsed|]; [|reflexivity].
  destruct (getField parsed "choices") as [cs|]; [|reflexivity]. cbn [cbind].
  destruct (optIndex0 cs) as [c0|]; [|reflexivity]. cbn [cbind].
  destruct (optField c0 "delta") as [d|]; [|reflexivity]. cbn [cbind].
  destruct (optField d "content") as [c'|]; [|reflexivity].
  apply H.
Qed.

Lemma anthropicLine_spec (onChunk : bool) :
  decodesAs onChunk (Providers.anthropicLine onChunk) anthropicLineDelta.
Proof.
  intros line c w. unfold Providers.anthropicLine, anthropicLineDelta. cbn zeta.
  pose proof (fun content => deliver_spec onChunk content c w) as H.
  unfold tryCatch, bind, lift in *.
  destruct (JSON.parse (Providers.dataOf line)) as [parsed|]; [|reflexivity].
  destruct (getField parsed "type") as [ty|]; [|reflexivity].
  destruct (Providers.strictEqualsString ty (lit "content_block_delta"));
    [|reflexivity].
  destruct (getField parsed "delta") as [d|]; [|reflexivity]. cbn [cbind].
  destruct (optField d "text") as [t|]; [|reflexivity].
  apply H.
Qed.

Lemma providerLine_spec (kind : ProviderStream) (onChunk : bool) :
  decodesAs onChunk
    (match kind with
     | OpenAIStream => Providers.openAILine onChunk
     | AnthropicStream => Providers.anthropicLine onChunk
     end)
    (providerLineDelta kind).
Proof. destruct kind; [apply openAILine_spec | apply anthropicLine_spec]. Qed.

Lemma delivered_text (content d : JSValue) (t : jsstring) :
  delivered content = Some (d, t) -> toStringJS d = Some t.
Proof.
  unfold delivered. destruct (toBoolean content); [|discriminate].
  destruct (toStringJS content) as [t'|] eqn:E; [|discriminate].
  by intros [= <- <-].
Qed.

Lemma providerLineDelta_text (kind : ProviderStream) (line : jsstring)
  (d : JSValue) (t : jsstring) :
  providerLineDelta kind line = Some (d, t) -> toStringJS d = Some t.
Proof.
  destruct kind; cbn [providerLineDelta].
  - unfold openAILineDelta. cbn zeta.
    destruct (jsstring_eqb _ _); [discriminate|].
    destruct (JSON.parse _) as [parsed|]; [|discriminate].
    destruct (let! cs := getField parsed "choices" in _) as [c|]; [|discriminate].
    apply delivered_text.
  - unfold anthropicLineDelta.
    destruct (JSON.parse _) as [parsed|]; [|discriminate].
    destruct (getField parsed "type") as [ty|]; [|discriminate].
    destruct (Providers.strictEqualsString _ _); [|discriminate].
    destruct (let! d0 := getField parsed "delta" in _) as [c|]; [|discriminate].
    apply delivered_text.
Qed.

Lemma providerDeltas_text (kind : ProviderStream) (values : list jsstring) :
  Forall (fun p => toStringJS (fst p) = Some (snd p)) (providerDeltas kind values).
Proof.
  unfold providerDeltas. induction values as [|value values IH]; [constructor|].
  cbn [map concat]. apply Forall_app. split; [|exact IH].
  induction (List.filter Providers.isDataLine (split_lines value))
    as [|line lines IHl]; [constructor|].
  cbn [omap list_omap].
  destruct (providerLineDelta kind line) as [[d t]|] eqn:E; [|exact IHl].
  constructor; [|exact IHl]. by apply (providerLineDelta_text kind line).
Qed.

Lemma forDataLines_spec (onChunk : bool)
  (lineBody : jsstring -> jsstring -> Action jsstring)
  (lineDelta : jsstring -> option (JSValue * jsstring)) (lines : list jsstring) :
  decodesAs onChunk lineBody lineDelta ->
  forall (content : jsstring) (w : World),
    Providers.forDataLines lineBody lines content w
    = (Normal (content ++ concat (map snd (omap lineDelta lines))),
       addTokens onChunk (map fst (omap lineDelta lines)) w).
Proof.
  intros Hd. induction lines as [|line lines IH]; intros content w.
  - cbn. by rewrite app_nil_r, addTokens_nil.
  - cbn [Providers.forDataLines omap list_omap]. unfold bind at 1.
    rewrite Hd. destruct (lineDelta line) as [[d t]|]; rewrite IH.
    + cbn [map fst snd concat]. by rewrite addTokens_app, app_assoc.
    + reflexivity.
Qed.

Lemma readAll_normal (env : Env) (onChunk : bool) (kind : ProviderStream)
  (lineBody : jsstring -> jsstring -> Action jsstring) (sig : option nat)
  (fin : option JSError) (pending : list jsstring) :
  decodesAs onChunk lineBody (providerLineDelta kind) ->
  forall (i : nat) (content : jsstring) (w w' : World) (msg : JSValue),
    Providers.readAll env lineBody sig i pending fin content w = (Normal msg, w') ->
    fin = None
    /\ msg = assistantMessage
               (content ++ concat (map snd (providerDeltas kind pending)))
    /\ tokens w'
       = tokens w
         ++ (if onChunk then map fst (providerDeltas kind pending) else []).
Proof.
  intros Hd. induction pending as [|value rest IH]; intros i content w w' msg.
  - cbn [Providers.readAll]. unfold bind.
    pose proof (awaitRead_quiet env sig i w) as (Ht & _).
    destruct (awaitRead env sig i w) as [[[]|e] w1]; [|discriminate].
    cbn [snd] in Ht. destruct fin; [discriminate|]. intros [= <- <-].
    cbn [providerDeltas map concat]. rewrite !app_nil_r.
    split; [reflexivity|]. split; [reflexivity|].
    destruct onChunk; by rewrite app_nil_r.
  - cbn [Providers.readAll]. unfold bind at 1.
    pose proof (awaitRead_quiet env sig i w) as (Ht & _).
    destruct (awaitRead env sig i w) as [[[]|e] w1]; [|discriminate].
    cbn [snd] in Ht. cbn zeta. unfold bind at 1.
    rewrite (forDataLines_spec onChunk lineBody (providerLineDelta kind)) by exact Hd.
    intros H. apply IH in H as (Hf & -> & Hw).
    split; [exact Hf|].
    unfold providerDeltas. cbn [map concat]. fold (providerDeltas kind rest).
    rewrite !map_app, concat_app. split; [by rewrite app_assoc|].
    rewrite Hw, addTokens_tokens, Ht, <- app_assoc. by destruct onChunk.
Qed.

(** X16: the stream decoders of the multi-provider client hand the callback
    what they return.  When [_processOpenAIStream] or
    [_processAnthropicStream] resolves, whatever was called meanwhile, the
    body ended normally; the callback was invoked once per delta of the
    body and in the order the decoder meets the deltas (chunk by chunk, and
    in a chunk line by line); and the returned message has role [assistant]
    and, as content, the concatenation in invocation order of the string
    forms of the callback arguments. *)
Theorem provider_streams_reassemble
  (kind : ProviderStream) (env : Env) (response : Response) (onChunk : bool)
  (w w' : World) (msg : JSValue) :
  providerStream kind env response onChunk w = (Normal msg, w') ->
  exists (b : BodyStream) (calls : list JSValue) (texts : list jsstring),
    body response = Some b
    /\ ending b = None
    /\ (let ds := providerDeltas kind (chunks b) in
        calls = map fst ds /\ texts = map snd ds)
    /\ tokens w' = tokens w ++ (if onChunk then calls else [])
    /\ Forall2 (fun d t => toStringJS d = Some t) calls texts
    /\ msg = messageObject (JSString (lit "assistant")) (JSString (concat texts)).
Proof.
  intros H.
  assert (Providers.processWith env
            (match kind with
             | OpenAIStream => Providers.openAILine onChunk
             | AnthropicStream => Providers.anthropicLine onChunk
             end) response w = (Normal msg, w')) as H'.
  { by destruct kind. }
  clear H. unfold Providers.processWith in H'.
  destruct (body response) as [b|]; [|discriminate].
  apply (readAll_normal env onChunk kind) in H' as (Hf & Hm & Hw);
    [|apply providerLine_spec].
  eexists b, _, _. split; [reflexivity|]. split; [exact Hf|].
  split; [split; reflexivity|]. split; [exact Hw|].
  split; [|exact Hm].
  apply Forall2_fst_snd, providerDeltas_text.
Qed.

End Providers.

Lemma openai_stream_decoders_agree_witness :
  Providers._processOpenAIStream (nm := literalNumbers)
    (quietEnv (serves true 200 []))
    (streamResponse true 200 (map chunkOfLines [[sseHel]; [sseLo; sseDone]])
       None None)
    true (sampleWorld openaiSettings)
  = _processStream (nm := literalNumbers) (quietEnv (serves true 200 []))
      (streamResponse true 200 (map chunkOfLines [[sseHel]; [sseLo; sseDone]])
         None None)
      true (sampleWorld openaiSettings).
Proof.
  apply (openai_stream_decoders_agree (nm := literalNumbers)).
  - reflexivity.
  - intros b [= <-]. apply sseLines_sound. vm_compute. reflexivity.
Defined.

(** Both decoders at a body of two deltas in two chunks, the second chunk
    with a further line that bears none. *)
Lemma provider_streams_reassemble_witness :
  providerDeltas (nm := literalNumbers) OpenAIStream
    (map chunkOfLines [[sseHel]; [sseLo; sseDone]])
  = [(JSString (lit "Hel"), lit "Hel"); (JSString (lit "lo"), lit "lo")]
  /\ providerDeltas (nm := literalNumbers) AnthropicStream
       (map chunkOfLines [[anthropicDelta]; [anthropicDeltaLo; anthropicStop]])
     = [(JSString (lit "Hel"), lit "Hel"); (JSString (lit "lo"), lit "lo")]
  /\ (exists (b : BodyStream) (calls : list JSValue) (texts : list jsstring),
        Some {| chunks := map chunkOfLines [[sseHel]; [sseLo; sseDone]];
                ending := None |} = Some b
        /\ ending b = None
        /\ (let ds := providerDeltas (nm := literalNumbers) OpenAIStream (chunks b) in
            calls = map fst ds /\ texts = map snd ds)
        /\ tokens (addTokens true [JSString (lit "Hel"); JSString (lit "lo")]
                     (sampleWorld openaiSettings))
           = tokens (sampleWorld openaiSettings) ++ (if true then calls else [])
        /\ Forall2 (fun d t => toStringJS (nm := literalNumbers) d = Some t)
             calls texts
        /\ assistantMessage (lit "Hello")
           = messageObject (JSString (lit "assistant")) (JSString (concat texts)))
  /\ (exists (b : BodyStream) (calls : list JSValue) (texts : list jsstring),
        Some {| chunks := map chunkOfLines
                            [[anthropicDelta]; [anthropicDeltaLo; anthropicStop]];
                ending := None |} = Some b
        /\ ending b = None
        /\ (let ds :=
              providerDeltas (nm := literalNumbers) AnthropicStream (chunks b) in
            calls = map fst ds /\ texts = map snd ds)
        /\ tokens (addTokens true [JSString (lit "Hel"); JSString (lit "lo")]
                     (sampleWorld openaiSettings))
           = tokens (sampleWorld openaiSettings) ++ (if true then calls else [])
        /\ Forall2 (fun d t => toStringJS (nm := literalNumbers) d = Some t)
             calls texts
        /\ assistantMessage (lit "Hello")
           = messageObject (JSString (lit "assistant")) (JSString (concat texts))).
Proof.
  split; [vm_compute; reflexivity|]. split; [vm_compute; reflexivity|]. split.
  - apply (provider_streams_reassemble (nm := literalNumbers) OpenAIStream
             (quietEnv (serves true 200 []))
             (streamResponse true 200
                (map chunkOfLines [[sseHel]; [sseLo; sseDone]]) None None)
             true (sampleWorld openaiSettings)).
    vm_compute. reflexivity.
  - apply (provider_streams_reassemble (nm := literalNumbers) AnthropicStream
             (quietEnv (serves true 200 []))
             (streamResponse true 200
                (map chunkOfLines
                   [[anthropicDelta]; [anthropicDeltaLo; anthropicStop]])
                None None)
             true (sampleWorld openaiSettings)).
    vm_compute. reflexivity.
Defined.

(** ** What the note parser yields on any text *)

Lemma trimStart_idemp (x : jsstring) : trimStart (trimStart x) = trimStart x.
Proof.
  induction x as [|c x IH]; [reflexivity|]. cbn [trimStart].
  destruct (isTrimSpace c) eqn:E; [exact IH|]. cbn [trimStart]. by rewrite E.
Qed.

Lemma trimStart_trimEnd (y : jsstring) :
  trimStart y = y -> trimStart (trimEnd y) = trimEnd y.
Proof.
  intros H. apply trimStart_head in H. destruct y as [|c y]; [reflexivity|].
  destruct (trimEnd_prefix [] c y H) as [r Hr]. cbn [app] in Hr.
  rewrite Hr. by apply trimStart_id.
Qed.

Lemma trim_idemp (x : jsstring) : trim (trim x) = trim x.
Proof.
  unfold trim. rewrite trimStart_trimEnd by apply trimStart_idemp.
  unfold trimEnd. by rewrite rev_involutive, trimStart_idemp.
Qed.

(** The loop invariant: the messages pushed so far are of the user or the
    assistant and trimmed, and the role of the block being read is not
    [system]. *)
Lemma pushCurrent_parsed (msgs new : list Message) (st : ParseState) :
  parsed st = msgs ++ new -> Forall parsedMessage new ->
  currentRole st <> Some system ->
  exists new', pushCurrent st = msgs ++ new' /\ Forall parsedMessage new'.
Proof.
  intros Hp Hnew Hr. unfold pushCurrent.
  destruct (currentRole st) as [r|]; [|by exists new].
  destruct (currentContent st) as [|l ls]; [by exists new|].
  exists (new ++ [{| role := r;
                     content := trim (joinWith [LF] (l :: ls)) |}]).
  rewrite Hp, app_assoc. split; [reflexivity|].
  apply Forall_app. split; [exact Hnew|]. constructor; [|constructor].
  split; [|apply trim_idemp]. cbn [role]. destruct r; by eauto.
Qed.

Lemma parseLine_parsed (msgs new : list Message) (st : ParseState)
  (line : jsstring) :
  parsed st = msgs ++ new -> Forall parsedMessage new ->
  currentRole st <> Some system ->
  exists new',
    parsed (parseLine st line) = msgs ++ new' /\ Forall parsedMessage new'
    /\ currentRole (parseLine st line) <> Some system.
Proof.
  intros Hp Hnew Hr.
  destruct (pushCurrent_parsed msgs new st Hp Hnew Hr) as (new' & Hp' & Hnew').
  unfold parseLine.
  destruct (startsWith line (lit "> **You:**"));
    [exists new'; by repeat split|].
  destruct (startsWith line (lit "> **AI:**"));
    [exists new'; by repeat split|].
  destruct (currentRole st) as [r|] eqn:Er;
    [|exists new; rewrite Er; repeat split; assumption || discriminate].
  destruct (startsWith line (lit "> "));
    [exists new; cbn; repeat split; assumption || congruence|].
  destruct (jsstring_eqb line (lit ">"));
    [exists new; cbn; repeat split; assumption || congruence|].
  destruct (jsstring_eqb (trim line) []);
    [exists new'; by repeat split
    |exists new; rewrite Er; repeat split; assumption || congruence].
Qed.

(** X17: what the note parser yields on any text.  Whatever the editor
    holds, [_parseExistingContent] keeps the messages it was started with
    and appends to them messages of the user or of the assistant only, each
    with a text that has no white space at either end. *)
Theorem parseExistingContent_appends_trimmed
  (msgs : list Message) (editorText : jsstring) :
  exists new,
    _parseExistingContent msgs editorText = msgs ++ new
    /\ Forall parsedMessage new.
Proof.
  unfold _parseExistingContent.
  assert (forall lines st new,
            parsed st = msgs ++ new -> Forall parsedMessage new ->
            currentRole st <> Some system ->
            exists new',
              parsed (foldl parseLine st lines) = msgs ++ new'
              /\ Forall parsedMessage new'
              /\ currentRole (foldl parseLine st lines) <> Some system) as H.
  { induction lines as [|line lines IH]; intros st new Hp Hnew Hr.
    - by exists new.
    - cbn [foldl].
      destruct (parseLine_parsed msgs new st line Hp Hnew Hr)
        as (new' & Hp' & Hnew' & Hr').
      by apply (IH _ new'). }
  destruct (H (split_lines editorText)
              {| currentRole := None; currentContent := []; parsed := msgs |} [])
    as (new & Hp & Hnew & Hr).
  - cbn. by rewrite app_nil_r.
  - constructor.
  - discriminate.
  - by apply (pushCurrent_parsed msgs new).
Qed.
